(** * SGNMT: neuron pruning during training, and the n-gram predictors

    A shallow embedding of [cam/sgnmt/blocks/pruning.py] (the
    [PrunableLayer] accumulator and pruning pass, the sum compensation
    strategy with [set_zero_in_mat] and [add_in_mat], the sanity check,
    the reader of the layout file and of the layer configuration, and
    the schedule of [PruningGradientDescent.process_batch]) and of the
    two predictors of [cam/sgnmt/predictors/ngram.py].

    numpy arrays are lists with their shape, Python exceptions are values
    of [exn], and the dictionary of shared variables ([params_dict]) is a
    finite map from matrix names to arrays.  The array entries are kept
    abstract behind the class [Scalar], with two instances: IEEE binary64
    ([float], numpy's [float64]) and exact rationals ([Q]). *)

From Stdlib Require Import ZArith QArith Qround Qabs Lqa Floats Lia List String Ascii.
From stdpp Require Import gmap strings list.

Local Open Scope Z_scope.

(** ** Exceptions *)

Inductive exn : Set :=
| KeyError | IndexError | ValueError | TypeError | OverflowError
| NameError | UnboundLocalError | AttributeError | ZeroDivisionError.

Inductive result (A : Type) : Type :=
| Ok (a : A)
| Raise (e : exn).
Arguments Ok {A} a.
Arguments Raise {A} e.

#[export] Instance result_ret : MRet result := fun _ a => Ok a.
#[export] Instance result_bind : MBind result := fun _ _ f m =>
  match m with Ok a => f a | Raise e => Raise e end.
#[export] Instance result_fmap : FMap result := fun _ _ f m =>
  match m with Ok a => Ok (f a) | Raise e => Raise e end.

(** [for x in xs: acc = body(acc, x)], where the body may raise. *)
Fixpoint foldlM {A B : Type} (body : A -> B -> result A) (acc : A) (xs : list B)
  : result A :=
  match xs with
  | [] => Ok acc
  | x :: xs' => acc' ← body acc x; foldlM body acc' xs'
  end.

(** [[f(x) for x in xs]], where [f] may raise. *)
Fixpoint mapM_result {A B : Type} (f : A -> result B) (xs : list A) : result (list B) :=
  match xs with
  | [] => Ok []
  | x :: xs' => y ← f x; ys ← mapM_result f xs'; Ok (y :: ys)
  end.

(** A missing key or attribute. *)
Definition or_raise {A : Type} (e : exn) (o : option A) : result A :=
  match o with Some a => Ok a | None => Raise e end.

(** ** Array entries *)

Class Scalar (R : Type) : Type := {
  s_zero : R;                 (* 0.0 *)
  s_of_Z : Z -> R;            (* float(n), the coercion of an int operand *)
  s_add : R -> R -> R;
  s_mul : R -> R -> R;
  s_div : R -> R -> R;
  s_ltb : R -> R -> bool;     (* a < b *)
  s_abs : R -> R;
  s_is_nan : R -> bool;
  s_trunc : R -> result Z;    (* int(x) *)
  s_inf_dist : R              (* the literal 10000.0 *)
}.

(** Exact rationals: no rounding, no NaN.  Division by zero gives 0 here
    (numpy gives inf or nan). *)
#[export] Instance Q_scalar : Scalar Q := {
  s_zero := 0%Q;
  s_of_Z := inject_Z;
  s_add := Qplus;
  s_mul := Qmult;
  s_div := Qdiv;
  s_ltb := fun a b => negb (Qle_bool b a);
  s_abs := Qabs;
  s_is_nan := fun _ => false;
  s_trunc := fun q => Ok (Z.quot (Qnum q) (Z.pos (Qden q)));
  s_inf_dist := inject_Z 10000
}.

(** [int(x)] of a binary64: truncation towards zero; [ValueError] on NaN,
    [OverflowError] on an infinity. *)
Definition float_trunc (x : float) : result Z :=
  match Prim2SF x with
  | S754_zero _ => Ok 0
  | S754_nan => Raise ValueError
  | S754_infinity _ => Raise OverflowError
  | S754_finite s m e =>
      let a := if (0 <=? e) then Z.shiftl (Z.pos m) e else Z.shiftr (Z.pos m) (- e) in
      Ok (if s then - a else a)
  end.

(** IEEE 754 binary64 with round-to-nearest-even, as numpy's [float64]. *)
#[export] Instance float_scalar : Scalar float := {
  s_zero := PrimFloat.zero;
  s_of_Z := fun z => SF2Prim (binary_normalize prec emax z 0 false);
  s_add := PrimFloat.add;
  s_mul := PrimFloat.mul;
  s_div := PrimFloat.div;
  s_ltb := PrimFloat.ltb;
  s_abs := PrimFloat.abs;
  s_is_nan := PrimFloat.is_nan;
  s_trunc := float_trunc;
  s_inf_dist := SF2Prim (binary_normalize prec emax 10000 0 false)
}.

(** The two facts about [0.0] that the sanity check relies on. *)
Class ScalarZero (R : Type) `{Scalar R} : Prop := {
  s_abs_zero : s_abs s_zero = s_zero;
  s_ltb_zero : s_ltb s_zero s_zero = false;
  s_nan_zero : s_is_nan s_zero = false
}.

(** ** numpy arrays *)

(** A 2-d array: its second dimension and its rows.  The column count is
    kept apart from the rows so that an array of shape (0, c) has one. *)
Record matrix (R : Type) : Type := Mat { m_cols : nat; m_rows : list (list R) }.
Arguments Mat {R} m_cols m_rows.
Arguments m_cols {R} m.
Arguments m_rows {R} m.

(** A parameter is a vector (a bias) or a matrix. *)
Inductive ndarray (R : Type) : Type :=
| Arr1 (v : list R)
| Arr2 (m : matrix R).
Arguments Arr1 {R} v.
Arguments Arr2 {R} m.

(** Subscript of a sequence of length [len] by a Python integer: negative
    subscripts count from the end, anything else out of range raises. *)
Definition py_index (len : nat) (i : Z) : result nat :=
  if (0 <=? i) && (i <? Z.of_nat len) then Ok (Z.to_nat i)
  else if (- Z.of_nat len <=? i) && (i <? 0) then Ok (Z.to_nat (i + Z.of_nat len))
  else Raise IndexError.

Section Arrays.
Context {R : Type} `{Scalar R}.

Definition m_nrows (m : matrix R) : nat := length (m_rows m).

(** Every row has the declared number of columns. *)
Definition mat_wf (m : matrix R) : Prop :=
  Forall (fun r => length r = m_cols m) (m_rows m).

Definition mat_at (m : matrix R) (i j : nat) : R :=
  default s_zero (m_rows m !! i ≫= (.!! j)).

(** The array of shape (r, c) whose entry (i, j) is [g i j]. *)
Definition mat_init (r c : nat) (g : nat -> nat -> R) : matrix R :=
  Mat c ((fun i => g i <$> seq 0 c) <$> seq 0 r).

Definition mat_map (f : R -> R) (m : matrix R) : matrix R :=
  Mat (m_cols m) (fmap (M:=list) f <$> m_rows m).

(** [mat.shape] *)
Definition shape (a : ndarray R) : list Z :=
  match a with
  | Arr1 v => [Z.of_nat (length v)]
  | Arr2 m => [Z.of_nat (m_nrows m); Z.of_nat (m_cols m)]
  end.

(** [mat.shape[d]] *)
Definition shape_at (a : ndarray R) (d : Z) : result Z :=
  k ← py_index (length (shape a)) d;
  or_raise IndexError (shape a !! k).

(** One dimension of a binary operation with broadcasting. *)
Definition broadcast_dim (a b : nat) : result nat :=
  if (a =? b)%nat then Ok a
  else if (a =? 1)%nat then Ok b
  else if (b =? 1)%nat then Ok a
  else Raise ValueError.

(** [f(a, b)] elementwise on 2-d arrays, with numpy's broadcasting. *)
Definition mat_binop (f : R -> R -> R) (a b : matrix R) : result (matrix R) :=
  r ← broadcast_dim (m_nrows a) (m_nrows b);
  c ← broadcast_dim (m_cols a) (m_cols b);
  let pick (n i : nat) : nat := if (n =? 1)%nat then 0%nat else i in
  Ok (mat_init r c (fun i j =>
        f (mat_at a (pick (m_nrows a) i) (pick (m_cols a) j))
          (mat_at b (pick (m_nrows b) i) (pick (m_cols b) j)))).

(** [a += b]: as [mat_binop], but the result must have the shape of [a]. *)
Definition mat_iadd (a b : matrix R) : result (matrix R) :=
  s ← mat_binop s_add a b;
  if (m_nrows s =? m_nrows a)%nat && (m_cols s =? m_cols a)%nat then Ok s
  else Raise ValueError.

(** The same on vectors. *)
Definition vec_iadd (a b : list R) : result (list R) :=
  n ← broadcast_dim (length a) (length b);
  if (n =? length a)%nat then
    let pick (n i : nat) : nat := if (n =? 1)%nat then 0%nat else i in
    Ok ((fun i => s_add (default s_zero (a !! i))
                    (default s_zero (b !! pick (length b) i))) <$> seq 0 n)
  else Raise ValueError.

(** [np.triu(m)]: the entries below the diagonal become 0. *)
Definition np_triu (m : matrix R) : matrix R :=
  mat_init (m_nrows m) (m_cols m)
    (fun i j => if (i <=? j)%nat then mat_at m i j else s_zero).

(** [np.max] of the entries [xs] of an array: raises on an empty array,
    and a NaN, once met, is the result. *)
Definition np_maximum (a b : R) : R :=
  if s_is_nan a then a else if s_is_nan b then b
  else if s_ltb a b then b else a.

Definition np_max (xs : list R) : result R :=
  match xs with
  | [] => Raise ValueError
  | x :: xs' => Ok (fold_left np_maximum xs' x)
  end.

(** Python's [max(a, b)]: the first argument unless the second is greater. *)
Definition py_max (a b : R) : R := if s_ltb a b then b else a.

(** The order of [np.sort]: ascending, NaN last. *)
Definition sort_lt (a b : R) : bool :=
  s_ltb a b || (s_is_nan b && negb (s_is_nan a)).

Fixpoint argsort_insert (k : nat * R) (l : list (nat * R)) : list (nat * R) :=
  match l with
  | [] => [k]
  | h :: t => if sort_lt h.2 k.2 then h :: argsort_insert k t else k :: h :: t
  end.

(** [np.argsort(m, None)] on the flattened entries.  numpy's default sort
    is not stable; this one is (equal entries keep the order of their
    positions), so it fixes one of the orders numpy may return among
    equal entries. *)
Definition np_argsort (xs : list R) : list nat :=
  fst <$> foldr argsort_insert [] (zip (seq 0 (length xs)) xs).

(** [np.unravel_index(flat, shape)] zipped into pairs. *)
Definition np_unravel (cols : nat) (flat : list nat) : list (nat * nat) :=
  (fun k => ((k / cols)%nat, (k mod cols)%nat)) <$> flat.

End Arrays.

(** ** Connections and layers *)

(** [class Connection]: the matrix [mat_name] holds weights of the layer
    along axis [dim], starting at the fraction [start_idx] of that axis. *)
Record Connection (R : Type) : Type := mkConnection {
  direction : string;
  mat_name : string;
  dim : Z;
  start_idx : R
}.
Arguments mkConnection {R} direction mat_name dim start_idx.
Arguments direction {R} c.
Arguments mat_name {R} c.
Arguments dim {R} c.
Arguments start_idx {R} c.

(** [class PrunableLayer].  [None] is Python's [None]; [step_size] is
    [None] until [derive_step_size] creates the attribute.  The field
    [theano_variable] is a handle into the computation graph and takes no
    part in what follows. *)
Record PrunableLayer (R : Type) : Type := mkLayer {
  name : string;
  dists : option (matrix R);
  activities : option (list R);
  mask : option (matrix R);
  n_obs : R;
  trg_size : Z;
  n_steps : Z;
  step_size : option Z;
  connections : list (Connection R);
  pruned_neurons : list nat;
  obs : list (matrix R);
  store_obs : bool;
  maxout : bool
}.
Arguments mkLayer {R} name dists activities mask n_obs trg_size n_steps step_size
  connections pruned_neurons obs store_obs maxout.
Arguments name {R} p.
Arguments dists {R} p.
Arguments activities {R} p.
Arguments mask {R} p.
Arguments n_obs {R} p.
Arguments trg_size {R} p.
Arguments n_steps {R} p.
Arguments step_size {R} p.
Arguments connections {R} p.
Arguments pruned_neurons {R} p.
Arguments obs {R} p.
Arguments store_obs {R} p.
Arguments maxout {R} p.

(** What [prune] writes to the log when it has pruned: the layer, the
    number of pairs, the observation count, and the first and the last
    score of the scan. *)
Record PruneLog (R : Type) : Type := mkPruneLog {
  log_name : string;
  log_pruned : nat;
  log_obs : R;
  log_min : R;
  log_max : R
}.
Arguments mkPruneLog {R} log_name log_pruned log_obs log_min log_max.
Arguments log_name {R} p.
Arguments log_pruned {R} p.
Arguments log_obs {R} p.
Arguments log_min {R} p.
Arguments log_max {R} p.

Section Layer.
Context {R : Type} `{Scalar R}.

Definition INF_DIST : R := s_inf_dist.

(** Attribute assignments. *)
Definition set_accumulators (l : PrunableLayer R) (d : option (matrix R))
    (a : option (list R)) (n : R) (o : list (matrix R)) : PrunableLayer R :=
  mkLayer (name l) d a (mask l) n (trg_size l) (n_steps l) (step_size l)
    (connections l) (pruned_neurons l) o (store_obs l) (maxout l).

Definition set_mask (l : PrunableLayer R) (m : option (matrix R)) : PrunableLayer R :=
  mkLayer (name l) (dists l) (activities l) m (n_obs l) (trg_size l) (n_steps l)
    (step_size l) (connections l) (pruned_neurons l) (obs l) (store_obs l) (maxout l).

Definition set_step_size (l : PrunableLayer R) (s : Z) : PrunableLayer R :=
  mkLayer (name l) (dists l) (activities l) (mask l) (n_obs l) (trg_size l) (n_steps l)
    (Some s) (connections l) (pruned_neurons l) (obs l) (store_obs l) (maxout l).

Definition set_pruned_neurons (l : PrunableLayer R) (p : list nat) : PrunableLayer R :=
  mkLayer (name l) (dists l) (activities l) (mask l) (n_obs l) (trg_size l) (n_steps l)
    (step_size l) (connections l) p (obs l) (store_obs l) (maxout l).

(** [PrunableLayer.__init__]; the argument [store_obs] is overwritten. *)
Definition new_layer (nm : string) (trg n : Z) (store mx : bool) : PrunableLayer R :=
  mkLayer nm None None None s_zero trg n None [] [] [] true mx.

(** [reset] *)
Definition reset (l : PrunableLayer R) : PrunableLayer R :=
  set_accumulators l None None s_zero [].

(** [initialize_mask]: [np.triu(INF_DIST * np.ones_like(self.dists))];
    with [dists] still [None] numpy raises. *)
Definition initialize_mask (l : PrunableLayer R) : result (PrunableLayer R) :=
  d ← or_raise TypeError (dists l);
  Ok (set_mask l (Some (np_triu (mat_map (fun _ => s_mul INF_DIST (s_of_Z 1)) d)))).

(** [get_size]: [self.mask.shape[0]] *)
Definition get_size (l : PrunableLayer R) : result Z :=
  m ← or_raise AttributeError (mask l);
  Ok (Z.of_nat (m_nrows m)).

(** [derive_step_size]: [int((size - trg_size) / n_steps) + 1].  The
    operands are ints, so [/] is the floor division of Python 2; Python 3
    truncates the quotient instead, which is the same number when
    [trg_size <= size] and [0 < n_steps]. *)
Definition derive_step_size (l : PrunableLayer R) : result (PrunableLayer R) :=
  sz ← get_size l;
  if n_steps l =? 0 then Raise ZeroDivisionError
  else Ok (set_step_size l ((sz - trg_size l) / n_steps l + 1)).

(** [count_unpruned_neurons] *)
Definition count_unpruned_neurons (l : PrunableLayer R) : result Z :=
  sz ← get_size l;
  Ok (sz - Z.of_nat (length (pruned_neurons l))).

(** [np.sum] of a row, accumulated from its first entry on. *)
Definition np_sum (xs : list R) : R :=
  match xs with
  | [] => s_zero
  | x :: xs' => fold_left s_add xs' x
  end.

(** [x.transpose()] *)
Definition transpose (a : matrix R) : matrix R :=
  mat_init (m_cols a) (m_nrows a) (fun i j => mat_at a j i).

(** [(x ** 2).sum(axis=1)], which is also [np.sum(np.square(x), axis=1)]. *)
Definition row_sq_norms (x : matrix R) : list R :=
  (fun r => np_sum ((fun v => s_mul v v) <$> r)) <$> m_rows x.

(** One entry of [np.dot(x, x.T)]. *)
Definition dot (u v : list R) : R := np_sum (zip_with s_mul u v).

(** The squared distances of one batch:
    [dot(x, x.T) * -2 + norms.reshape(-1, 1) + norms]. *)
Definition batch_dists_sq (x : matrix R) : matrix R :=
  let norms := row_sq_norms x in
  let n := m_nrows x in
  mat_init n n (fun i j =>
    s_add (s_add (s_mul (dot (default [] (m_rows x !! i)) (default [] (m_rows x !! j)))
                        (s_of_Z (-2)))
                 (default s_zero (norms !! i)))
          (default s_zero (norms !! j))).

(** [register_activities].  [activity] is the batch after the reshape to
    two dimensions: one row per observation, one column per neuron. *)
Definition register_activities (l : PrunableLayer R) (activity : matrix R)
  : result (PrunableLayer R) :=
  let x := transpose activity in
  let o := if store_obs l then obs l ++ [x] else obs l in
  let dists_sq := batch_dists_sq x in
  let activities_sq := row_sq_norms x in
  da ← match dists l with
       | None => Ok (dists_sq, activities_sq)
       | Some d =>
           d' ← mat_iadd d dists_sq;
           a ← or_raise TypeError (activities l);
           a' ← vec_iadd a activities_sq;
           Ok (d', a')
       end;
  Ok (set_accumulators l (Some da.1) (Some da.2)
        (s_add (n_obs l) (s_of_Z (Z.of_nat (m_cols x)))) o).

End Layer.

(** ** Compensation, pruning and the sanity check *)

Section Prune.
Context {R : Type} `{Scalar R}.

(** [mat[idx, :] = v] and [mat[:, idx] = v] on a 2-d array. *)
Definition mat_set_row (v : R) (idx : Z) (m : matrix R) : result (matrix R) :=
  i ← py_index (m_nrows m) idx;
  Ok (Mat (m_cols m) (alter (fun r => (fun _ => v) <$> r) i (m_rows m))).

Definition mat_set_col (v : R) (idx : Z) (m : matrix R) : result (matrix R) :=
  j ← py_index (m_cols m) idx;
  Ok (Mat (m_cols m) ((fun r => <[j := v]> r) <$> m_rows m)).

(** [set_zero_in_mat] *)
Definition set_zero_in_mat (mat : ndarray R) (dim : Z) (idx : Z) : result (ndarray R) :=
  match mat with
  | Arr1 v => i ← py_index (length v) idx; Ok (Arr1 (<[i := s_zero]> v))
  | Arr2 m =>
      if dim =? 0 then Arr2 <$> mat_set_row s_zero idx m
      else if dim =? 1 then Arr2 <$> mat_set_col s_zero idx m
      else Ok mat
  end.

(** The offset of a connection in its matrix:
    [int(mat.shape[conn.dim] * conn.start_idx)] when [conn.start_idx > 0.0],
    and none otherwise. *)
Definition conn_offset (conn : Connection R) (mat : ndarray R) : result Z :=
  if s_ltb s_zero (start_idx conn) then
    d ← shape_at mat (dim conn);
    s_trunc (s_mul (s_of_Z d) (start_idx conn))
  else Ok 0.

(** [conn.direction == "in" and layer.maxout] *)
Definition maxout_in (mx : bool) (conn : Connection R) : bool :=
  String.eqb (direction conn) "in" && mx.

(** The body of the inner loop of [_compensate_for_pruning_sum]: neuron
    [j] of the layer is zeroed in the matrix of [conn]. *)
Definition compensate_conn (mx : bool) (j : nat)
    (params_dict : gmap string (ndarray R)) (conn : Connection R)
  : result (gmap string (ndarray R)) :=
  mat ← or_raise KeyError (params_dict !! mat_name conn);
  offset ← conn_offset conn mat;
  let mat_j := Z.of_nat j + offset in
  mat' ← (if maxout_in mx conn then
            mat1 ← set_zero_in_mat mat (dim conn) (mat_j * 2);
            set_zero_in_mat mat1 (dim conn) (mat_j * 2 + 1)
          else set_zero_in_mat mat (dim conn) mat_j);
  Ok (<[mat_name conn := mat']> params_dict).

(** [_compensate_for_pruning_sum]; [to_delete] holds the pairs
    (survivor, deleted). *)
Definition _compensate_for_pruning_sum (to_delete : list (nat * nat))
    (layer : PrunableLayer R) (params_dict : gmap string (ndarray R))
  : result (gmap string (ndarray R)) :=
  foldlM (fun params ij =>
            foldlM (compensate_conn (maxout layer) ij.2) params (connections layer))
         params_dict to_delete.

Definition compensate_for_pruning := _compensate_for_pruning_sum.

(** [np.minimum]: the first argument when it is smaller or a NaN, else
    the second, so that a NaN is handed on. *)
Definition np_minimum (a b : R) : R :=
  if s_ltb a b || s_is_nan a then a else b.

(** [_get_activity_discounts_min] *)
Definition _get_activity_discounts_min (acts : list R) : matrix R :=
  let n := length acts in
  mat_init n n (fun i j =>
    np_minimum (default s_zero (acts !! i)) (default s_zero (acts !! j))).

Definition get_activity_discounts := _get_activity_discounts_min.

(** [search_mat[i, j]] *)
Definition mat_index (m : matrix R) (i j : nat) : result R :=
  or_raise IndexError (m_rows m !! i ≫= (.!! j)).

(** The scan of [prune] over the sorted pairs.  It returns the layer, the
    pairs chosen and the last score read ([max_score], unbound while no
    pair has been chosen). *)
Fixpoint prune_scan (search_mat : matrix R) (n_to_delete : Z)
    (idxs : list (nat * nat)) (l : PrunableLayer R)
    (to_delete : list (nat * nat)) (max_score : option R)
  : result (PrunableLayer R * list (nat * nat) * option R) :=
  match idxs with
  | [] => Ok (l, to_delete, max_score)
  | (i, j) :: rest =>
      if bool_decide (i ∈ pruned_neurons l) || bool_decide (j ∈ pruned_neurons l)
      then prune_scan search_mat n_to_delete rest l to_delete max_score
      else
        score ← mat_index search_mat i j;
        acts ← or_raise TypeError (activities l);
        ai ← or_raise IndexError (acts !! i);
        aj ← or_raise IndexError (acts !! j);
        let ij := if s_ltb ai aj then (j, i) else (i, j) in
        let to_delete := to_delete ++ [ij] in
        let l := set_pruned_neurons l (pruned_neurons l ++ [ij.2]) in
        m ← or_raise TypeError (mask l);
        m ← mat_set_row INF_DIST (Z.of_nat ij.2) m;
        m ← mat_set_col INF_DIST (Z.of_nat ij.2) m;
        let l := set_mask l (Some m) in
        if Z.of_nat (length to_delete) >=? n_to_delete
        then Ok (l, to_delete, Some score)
        else prune_scan search_mat n_to_delete rest l to_delete (Some score)
  end.

(** The first lines of [prune]: the mask and the step size of a layer
    that has none yet. *)
Definition prune_init (l : PrunableLayer R) : result (PrunableLayer R) :=
  match mask l with
  | None => l' ← initialize_mask l; derive_step_size l'
  | Some _ => Ok l
  end.

(** [min(self.count_unpruned_neurons() - self.trg_size, self.step_size)] *)
Definition n_to_delete_of (l : PrunableLayer R) : result Z :=
  cnt ← count_unpruned_neurons l;
  step ← or_raise AttributeError (step_size l);
  Ok (Z.min (cnt - trg_size l) step).

(** [self.activities /= self.n_obs] and [self.dists /= self.n_obs] *)
Definition normalize (l : PrunableLayer R) : result (PrunableLayer R) :=
  acts ← or_raise TypeError (activities l);
  d ← or_raise TypeError (dists l);
  Ok (set_accumulators l
        (Some (mat_map (fun a => s_div a (n_obs l)) d))
        (Some ((fun a => s_div a (n_obs l)) <$> acts))
        (n_obs l) (obs l)).

(** [np.multiply(self.dists, activity_discounts) + self.mask] *)
Definition search_matrix (l : PrunableLayer R) : result (matrix R) :=
  acts ← or_raise TypeError (activities l);
  d ← or_raise TypeError (dists l);
  let activity_discounts := get_activity_discounts acts in
  m ← or_raise TypeError (mask l);
  prod ← mat_binop s_mul d activity_discounts;
  mat_binop s_add prod m.

(** [zip(idxs[0], idxs[1])]: the positions of [search_mat] by ascending
    entry. *)
Definition scan_order (search_mat : matrix R) : list (nat * nat) :=
  let idxs_flat := np_argsort (concat (m_rows search_mat)) in
  np_unravel (m_cols search_mat) idxs_flat.

(** [prune] from the division by [n_obs] to the end of the scan: the
    layer, [to_delete], [min_score] and [max_score]. *)
Definition prune_select (l : PrunableLayer R) (n_to_delete : Z)
  : result (PrunableLayer R * list (nat * nat) * R * option R) :=
  l ← normalize l;
  search_mat ← search_matrix l;
  let idxs := scan_order search_mat in
  min_score ← match idxs with
              | [] => Raise IndexError
              | (i, j) :: _ => mat_index search_mat i j
              end;
  r ← prune_scan search_mat n_to_delete idxs l [] None;
  Ok (r.1.1, r.1.2, min_score, r.2).

(** [prune].  The result is the layer and the parameters after the call,
    and the log record when neurons were pruned.  The last statement
    formats [max_score], which is unbound when the scan chose no pair.
    A call that raises has no result here: what it had changed by then
    is not modelled. *)
Definition prune (l : PrunableLayer R) (params_dict : gmap string (ndarray R))
  : result (PrunableLayer R * gmap string (ndarray R) * option (PruneLog R)) :=
  l ← prune_init l;
  n_to_delete ← n_to_delete_of l;
  if n_to_delete <=? 0 then Ok (reset l, params_dict, None)
  else
    sel ← prune_select l n_to_delete;
    let '(l, to_delete, min_score, max_score) := sel in
    params_dict ← compensate_for_pruning to_delete l params_dict;
    max_score ← or_raise UnboundLocalError max_score;
    Ok (l, params_dict,
        Some (mkPruneLog (name l) (length to_delete) (n_obs l) min_score max_score)).

(** The entries of [mat] that [sanity_check] reads for one connection. *)
Definition select_entries (mat : ndarray R) (d : Z) (mat_idxs : list Z)
  : result (option (list R)) :=
  match mat with
  | Arr1 v =>
      (fun ks : list nat => Some ((fun k => default s_zero (v !! k)) <$> ks))
        <$> mapM_result (py_index (length v)) mat_idxs
  | Arr2 m =>
      if d =? 0 then
        (fun ks : list nat =>
           Some (concat ((fun k => default [] (m_rows m !! k)) <$> ks)))
          <$> mapM_result (py_index (m_nrows m)) mat_idxs
      else if d =? 1 then
        (fun ks : list nat =>
           Some (concat ((fun r : list R =>
                            (fun k => default s_zero (r !! k)) <$> ks)
                           <$> m_rows m)))
          <$> mapM_result (py_index (m_cols m)) mat_idxs
      else Ok None
  end.

(** The body of the loop of [sanity_check]; the state is [eps] (unbound
    at first, and left as it was by a 2-d matrix whose [dim] is neither 0
    nor 1) and [geps]. *)
Definition sanity_check_conn (pruned : list nat)
    (params_dict : gmap string (ndarray R)) (st : option R * R)
    (conn : Connection R) : result (option R * R) :=
  mat ← or_raise KeyError (params_dict !! mat_name conn);
  offset ← conn_offset conn mat;
  let mat_idxs := (fun idx => Z.of_nat idx + offset) <$> pruned in
  sel ← select_entries mat (dim conn) mat_idxs;
  eps ← match sel with
        | Some xs => e ← np_max (s_abs <$> xs); Ok (Some e)
        | None => Ok st.1
        end;
  e ← or_raise UnboundLocalError eps;
  Ok (eps, py_max e st.2).

(** [sanity_check]; the result is the value of [geps] that is logged. *)
Definition sanity_check (l : PrunableLayer R)
    (params_dict : gmap string (ndarray R)) : result R :=
  st ← foldlM (sanity_check_conn (pruned_neurons l) params_dict)
         (None, s_zero) (connections l);
  Ok st.2.

End Prune.

(** ** The layout file *)

(** The whitespace of [str.strip] and [str.split] on a byte string. *)
Definition is_space (c : ascii) : bool :=
  let n := nat_of_ascii c in
  (n =? 32)%nat || ((9 <=? n)%nat && (n <=? 13)%nat).

(** The characters of [s] after its leading whitespace. *)
Fixpoint lstrip (s : list ascii) : list ascii :=
  match s with
  | [] => []
  | c :: s' => if is_space c then lstrip s' else s
  end.

(** [s.strip()] *)
Definition py_strip (s : string) : string :=
  string_of_list_ascii
    (reverse (lstrip (reverse (lstrip (list_ascii_of_string s))))).

Fixpoint py_split_go (cur : list ascii) (s : list ascii) : list string :=
  match s with
  | [] => match cur with [] => [] | _ => [string_of_list_ascii (reverse cur)] end
  | c :: s' =>
      if is_space c then
        match cur with
        | [] => py_split_go [] s'
        | _ => string_of_list_ascii (reverse cur) :: py_split_go [] s'
        end
      else py_split_go (c :: cur) s'
  end.

(** [s.split()]: the maximal runs of characters that are not whitespace. *)
Definition py_split (s : string) : list string :=
  py_split_go [] (list_ascii_of_string s).

Definition syntax_warning : string := "Syntax error in prune layout file".

(** The end of a line as the file iterator yields it. *)
Definition newline : string := String (ascii_of_nat 10) EmptyString.

Section Layout.
Context {R : Type} `{Scalar R}.
(** The builtins [int] and [float] on a string; they raise [ValueError]
    on a string that is no literal. *)
Variable py_int : string -> result Z.
Variable py_float : string -> result R.

(** [conns[parts[0]].append(conn)], or a new entry. *)
Definition add_connection (layer : string) (conn : Connection R)
    (conns : gmap string (list (Connection R))) : gmap string (list (Connection R)) :=
  match conns !! layer with
  | Some cs => <[layer := cs ++ [conn]]> conns
  | None => <[layer := [conn]]> conns
  end.

(** The body of the loop over the lines in [initialize_layers]; the state
    is the dictionary [conns] and the warnings logged so far. *)
Definition initialize_layers_line
    (st : gmap string (list (Connection R)) * list string) (line : string)
  : result (gmap string (list (Connection R)) * list string) :=
  if bool_decide (py_strip line = "") then Ok st
  else
    let parts := py_split (py_strip line) in
    match parts with
    | [p0; p1; p2; p3] =>
        d ← py_int p3;
        Ok (add_connection p0 (mkConnection p1 p2 d s_zero) st.1, st.2)
    | [p0; p1; p2; p3; p4] =>
        d ← py_int p3;
        s ← py_float p4;
        Ok (add_connection p0 (mkConnection p1 p2 d s) st.1, st.2)
    | _ => Ok (st.1, st.2 ++ [syntax_warning])
    end.

(** The loop over the lines of the layout file. *)
Definition initialize_layers_conns (lines : list string)
  : result (gmap string (list (Connection R)) * list string) :=
  foldlM initialize_layers_line (∅, []) lines.

End Layout.

(** Read off the dictionary and the log, without [add_connection]: the
    state [st'] is the state [st] with the connection [c] added to the
    layer [n].  It is the last connection of [n], after those that [n]
    had; every other layer has what it had; nothing is logged. *)
Definition adds_connection {R : Type}
    (st st' : gmap string (list (Connection R)) * list string)
    (n : string) (c : Connection R) : Prop :=
  st'.1 !! n = Some (default [] (st.1 !! n) ++ [c]) /\
  (forall n', n' <> n -> st'.1 !! n' = st.1 !! n') /\
  st'.2 = st.2.

(** Decimal literals, the part of [int] and [float] the layout files use:
    digits with an optional sign, and for [float] an optional fraction. *)
Fixpoint dec_digits (acc : Z) (s : list ascii) : option Z :=
  match s with
  | [] => Some acc
  | c :: s' =>
      let n := nat_of_ascii c in
      if (48 <=? n)%nat && (n <=? 57)%nat
      then dec_digits (10 * acc + Z.of_nat (n - 48)) s'
      else None
  end.

Definition dec_unsigned (s : list ascii) : option Z :=
  match s with [] => None | _ => dec_digits 0 s end.

Definition dec_int (s : string) : result Z :=
  or_raise ValueError
    match list_ascii_of_string s with
    | "-"%char :: t => Z.opp <$> dec_unsigned t
    | "+"%char :: t => dec_unsigned t
    | t => dec_unsigned t
    end.

(** The characters before the first point, and those after it. *)
Fixpoint split_point (s : list ascii) : list ascii * list ascii :=
  match s with
  | [] => ([], [])
  | c :: s' =>
      if Ascii.eqb c "."%char then ([], s')
      else let r := split_point s' in (c :: r.1, r.2)
  end.

Definition dec_float (s : string) : result Q :=
  let '(ip, fp) := split_point (list_ascii_of_string s) in
  or_raise ValueError
    (i ← dec_unsigned ip;
     f ← dec_digits 0 fp;
     Some (Qred (Qmake (i * 10 ^ Z.of_nat (length fp) + f)
                       (Z.to_pos (10 ^ Z.of_nat (length fp)))))).

(** ** [KenLMPredictor.is_equal] *)

Module KenLM.

(** The expressions of the body of [is_equal]. *)
Inductive expr : Set :=
| Name (x : string)
| CmpEq (a b : expr).

Section Eval.
(** The states of the language model and their [==]. *)
Variable State : Type.
Variable state_eq : State -> State -> bool.

Inductive pyval : Type :=
| VObject (tag : string)
| VState (s : State)
| VBool (b : bool).

(** A name is looked up in the local scope, then among the globals of the
    module, then among the builtins. *)
Definition load_name (locals globals builtins : gmap string pyval) (x : string)
  : result pyval :=
  match locals !! x with
  | Some v => Ok v
  | None =>
      match globals !! x with
      | Some v => Ok v
      | None => or_raise NameError (builtins !! x)
      end
  end.

Definition py_eq (a b : pyval) : pyval :=
  match a, b with
  | VState s, VState t => VBool (state_eq s t)
  | VBool s, VBool t => VBool (Bool.eqb s t)
  | VObject s, VObject t => VBool (String.eqb s t)
  | _, _ => VBool false
  end.

(** Operands are evaluated from left to right. *)
Fixpoint eval (locals globals builtins : gmap string pyval) (e : expr) : result pyval :=
  match e with
  | Name x => load_name locals globals builtins x
  | CmpEq a b =>
      va ← eval locals globals builtins a;
      vb ← eval locals globals builtins b;
      Ok (py_eq va vb)
  end.

(** [return state == state2] *)
Definition is_equal_body : expr := CmpEq (Name "state") (Name "state2").

(** [is_equal(self, state1, state2)] *)
Definition is_equal (globals builtins : gmap string pyval) (self : pyval)
    (state1 state2 : State) : result pyval :=
  eval (<["self" := self]> (<["state1" := VState state1]>
          (<["state2" := VState state2]> ∅)))
       globals builtins is_equal_body.

End Eval.

(** The names the module [ngram] binds: its imports, its two classes and
    the attributes every module has. *)
Definition module_names : gset string :=
  list_to_set
    ["UnboundedVocabularyPredictor"; "utils"; "math"; "readLM"; "initLM";
     "getNgramProb"; "getIndexForWord"; "howManyNgrams"; "kenlm";
     "SRILMPredictor"; "KenLMPredictor";
     "__name__"; "__doc__"; "__file__"; "__package__"; "__builtins__"]%string.

End KenLM.

(** The step size as the specification words it: the quotient rounded up. *)
Definition ceil_div (a b : Z) : Z := - ((- a) / b).

Definition spec_step_size (unpruned target steps : Z) : Z :=
  ceil_div (unpruned - target) steps.

(** ** Notions used in the statements *)

Section Notions.
Context {R : Type} `{Scalar R}.

(** What the scan of [prune] leaves alone: every attribute but
    [pruned_neurons] and [mask]. *)
Definition scan_frame (l l' : PrunableLayer R) : Prop :=
  name l' = name l /\ dists l' = dists l /\ activities l' = activities l /\
  n_obs l' = n_obs l /\ trg_size l' = trg_size l /\ n_steps l' = n_steps l /\
  step_size l' = step_size l /\ connections l' = connections l /\
  obs l' = obs l /\ store_obs l' = store_obs l /\ maxout l' = maxout l.

(** The shape of the mask, when there is one. *)
Definition mask_shape (l : PrunableLayer R) : option (nat * nat) :=
  (fun m => (m_nrows m, m_cols m)) <$> mask l.

(** What the first lines of [prune] leave alone: every attribute but
    [mask] and [step_size]. *)
Definition init_frame (l l' : PrunableLayer R) : Prop :=
  name l' = name l /\ dists l' = dists l /\ activities l' = activities l /\
  n_obs l' = n_obs l /\ trg_size l' = trg_size l /\ n_steps l' = n_steps l /\
  connections l' = connections l /\ pruned_neurons l' = pruned_neurons l /\
  obs l' = obs l /\ store_obs l' = store_obs l /\ maxout l' = maxout l.

(** The accumulators are those of a layer of [n] neurons. *)
Definition accumulated (n : nat) (l : PrunableLayer R) : Prop :=
  exists d a, dists l = Some d /\ activities l = Some a /\
    m_nrows d = n /\ m_cols d = n /\ length a = n.

(** The record that [prune] logs for the pairs [td]. *)
Definition prune_log (l : PrunableLayer R) (td : list (nat * nat))
    (min_score max_score : R) : PruneLog R :=
  mkPruneLog (name l) (length td) (n_obs l) min_score max_score.

(** Entry (r, c) of a parameter; a vector has the column 0 only. *)
Definition arr_get (a : ndarray R) (r c : nat) : option R :=
  match a with
  | Arr1 v => if (c =? 0)%nat then v !! r else None
  | Arr2 m => m_rows m !! r ≫= (.!! c)
  end.

(** The length of axis [d], for the axes [set_zero_in_mat] acts on: the
    one axis of a vector whatever [d] is, and the axes 0 and 1 of a
    matrix. *)
Definition axis_len (a : ndarray R) (d : Z) : option nat :=
  match a with
  | Arr1 v => Some (length v)
  | Arr2 m =>
      if d =? 0 then Some (m_nrows m)
      else if d =? 1 then Some (m_cols m)
      else None
  end.

(** Position (r, c) lies in the slice [k] along axis [d]: the row [k] for
    axis 0, the column [k] for axis 1, the entry [k] of a vector. *)
Definition in_slice (a : ndarray R) (d : Z) (k r c : nat) : bool :=
  match a with
  | Arr1 _ => (r =? k)%nat && (c =? 0)%nat
  | Arr2 _ =>
      if d =? 0 then (r =? k)%nat
      else if d =? 1 then (c =? k)%nat
      else false
  end.

(** Position (r, c) lies in the slice that the subscript [t] names. *)
Definition target_hit (a : ndarray R) (d : Z) (t : Z) (r c : nat) : bool :=
  match axis_len a d with
  | Some len =>
      match py_index len t with
      | Ok k => in_slice a d k r c
      | Raise _ => false
      end
  | None => false
  end.

(** The subscripts zeroed for the neuron at [mat_j] (offset included):
    [mat_j] itself, or for an inbound connection of a maxout layer its
    two halves. *)
Definition targets (mx : bool) (conn : Connection R) (mat_j : Z) : list Z :=
  if maxout_in mx conn then [mat_j * 2; mat_j * 2 + 1] else [mat_j].

(** Position (r, c) of the matrix [a], named [nm], is zeroed when neuron
    [j] is compensated for along [conn]. *)
Definition conn_hit (mx : bool) (j : nat) (conn : Connection R)
    (nm : string) (a : ndarray R) (r c : nat) : bool :=
  String.eqb (mat_name conn) nm &&
  match conn_offset conn a with
  | Ok off =>
      existsb (fun t => target_hit a (dim conn) t r c)
              (targets mx conn (Z.of_nat j + off))
  | Raise _ => false
  end.

(** ... when the neurons [js] are, along the connections [conns]. *)
Definition zeroed_by (mx : bool) (conns : list (Connection R)) (js : list nat)
    (nm : string) (a : ndarray R) (r c : nat) : bool :=
  existsb (fun j => existsb (fun conn => conn_hit mx j conn nm a r c) conns) js.

(** The store [P'] is the store [P] with the entries picked by [hit] set
    to zero, and nothing else changed. *)
Definition zeroed_store (hit : string -> ndarray R -> nat -> nat -> bool)
    (P P' : gmap string (ndarray R)) : Prop :=
  forall nm,
    match P !! nm with
    | None => P' !! nm = None
    | Some a =>
        exists a', P' !! nm = Some a' /\ shape a' = shape a /\
          forall r c, arr_get a' r c
                      = if hit nm a r c then (fun _ => s_zero) <$> arr_get a r c
                        else arr_get a r c
    end.

(** The two stores hold arrays of the same shapes under the same names. *)
Definition same_shapes (P P' : gmap string (ndarray R)) : Prop :=
  forall nm,
    match P !! nm with
    | None => P' !! nm = None
    | Some a => exists a', P' !! nm = Some a' /\ shape a' = shape a
    end.

(** Every step of the compensation for the neurons [js] finds its matrix
    in [P], its offset, and a slice for each subscript it zeroes. *)
Definition steps_resolve (mx : bool) (conns : list (Connection R)) (js : list nat)
    (P : gmap string (ndarray R)) : Prop :=
  forall j conn, j ∈ js -> conn ∈ conns ->
    exists mat off,
      P !! mat_name conn = Some mat /\ conn_offset conn mat = Ok off /\
      forall len, axis_len mat (dim conn) = Some len ->
        forall t, t ∈ targets mx conn (Z.of_nat j + off) ->
          exists k, py_index len t = Ok k.

(** The slice of [a] that the subscript [t] names along axis [d] exists
    and holds zeros only. *)
Definition slice_zero (a : ndarray R) (d : Z) (t : Z) : Prop :=
  exists len k,
    axis_len a d = Some len /\ py_index len t = Ok k /\
    forall r c, in_slice a d k r c = true -> is_Some (arr_get a r c) ->
                arr_get a r c = Some s_zero.

(** The slice that [t] names holds in [a'] what it holds in [a]. *)
Definition slice_same (a a' : ndarray R) (d : Z) (t : Z) : Prop :=
  forall r c, target_hit a d t r c = true -> arr_get a' r c = arr_get a r c.

(** A parameter as numpy holds it, and with no empty dimension: a matrix
    is rectangular and has at least one row and one column. *)
Definition arr_proper (a : ndarray R) : Prop :=
  match a with
  | Arr1 _ => True
  | Arr2 m => mat_wf m /\ (0 < m_cols m)%nat /\ (0 < m_nrows m)%nat
  end.

End Notions.

(** ** Notions for the accumulated distances *)

(** [register_activities] batch after batch. *)
Definition register_all {R : Type} `{Scalar R} (l : PrunableLayer R)
    (batches : list (matrix R)) : result (PrunableLayer R) :=
  foldlM register_activities l batches.

(** In exact arithmetic: the matrix is symmetric and has no negative
    entry. *)
Definition sym_nonneg (d : matrix Q) : Prop :=
  forall i j, (mat_at d i j == mat_at d j i)%Q /\ (0 <= mat_at d i j)%Q.

(** The sum of a list of rationals. *)
Definition qsum (xs : list Q) : Q := foldr Qplus 0%Q xs.

(** What holds of the accumulators of a layer of [n] neurons: the
    observation count is not negative, and the distances, when there are
    some, form an n x n matrix whose entries are symmetric and not
    negative. *)
Definition dists_inv (n : nat) (l : PrunableLayer Q) : Prop :=
  (0 <= n_obs l)%Q /\
  match dists l with
  | None => True
  | Some d =>
      exists g a, d = mat_init n n g /\ activities l = Some a /\ length a = n /\
        forall i j, (i < n)%nat -> (j < n)%nat ->
          (g i j == g j i)%Q /\ (0 <= g i j)%Q
  end.

(** Two neurons with the activations 0.3 and 1.5, and two with the
    activations 0.3 and 0.300000001, in binary64. *)
Definition ex_float_batch : matrix float :=
  Mat 2 [[0x1.3333333333333p-2; 0x1.8p+0]%float].

Definition ex_float_batch_close : matrix float :=
  Mat 2 [[0x1.3333333333333p-2; 0x1.33333344613f2p-2]%float].

Definition ex_float_dists (batch : matrix float) : matrix float :=
  match register_activities (new_layer "decgru" 1 1 false false) batch with
  | Ok l => default (Mat 0 []) (dists l)
  | Raise _ => Mat 0 []
  end.

(** ** Example data *)

(** One observation of ten neurons. *)
Definition ex_batch10 : matrix Q :=
  Mat 10 [[1; 2; 3; 4; 5; 6; 7; 8; 9; 10]%Q].

(** A layer [decgru:8] pruned in one step, after that batch. *)
Definition ex_layer10 : PrunableLayer Q :=
  match register_activities (new_layer "decgru" 8 1 false false) ex_batch10 with
  | Ok l => l
  | Raise _ => new_layer "decgru" 8 1 false false
  end.

Definition ex_dists10 : matrix Q := default (Mat 0 []) (dists ex_layer10).
Definition ex_acts10 : list Q := default [] (activities ex_layer10).

(** The same layer after the first lines of [prune], and what the
    selection of two pairs returns for it. *)
Definition ex_layer10_init : PrunableLayer Q :=
  match prune_init ex_layer10 with Ok l => l | Raise _ => ex_layer10 end.

Definition ex_select10 : PrunableLayer Q * list (nat * nat) * Q * option Q :=
  match prune_select ex_layer10_init 2 with
  | Ok r => r
  | Raise _ => (ex_layer10_init, [], 0%Q, None)
  end.

(** The layer after [prune] on an empty weight store, and what is logged. *)
Definition ex_pruned10 : PrunableLayer Q * gmap string (ndarray Q) * option (PruneLog Q) :=
  match prune ex_layer10 ∅ with
  | Ok r => r
  | Raise _ => (ex_layer10, ∅, None)
  end.

Definition ex_log10 : PruneLog Q :=
  default (mkPruneLog "" 0 0%Q 0%Q 0%Q) ex_pruned10.2.

(** A layer [decgru:10] of ten neurons: nothing is left to prune. *)
Definition ex_layer_done : PrunableLayer Q :=
  match register_activities (new_layer "decgru" 10 1 false false) ex_batch10 with
  | Ok l => l
  | Raise _ => new_layer "decgru" 10 1 false false
  end.

Definition ex_layer_done_init : PrunableLayer Q :=
  match prune_init ex_layer_done with Ok l => l | Raise _ => ex_layer_done end.

(** A layer [decgru:1] of three neurons with an inbound matrix [W]
    (axis 0) and an outbound matrix [U] shared with another layer (axis
    1, from the middle on), and its weight store. *)
Definition ex_conns : list (Connection Q) :=
  [mkConnection "in" "W" 0 0%Q; mkConnection "out" "U" 1 (1 # 2)%Q].

Definition ex_store : gmap string (ndarray Q) :=
  <["W" := Arr2 (Mat 2 [[1; 1]; [2; 2]; [3; 3]]%Q)]>
    (<["U" := Arr2 (Mat 6 [[1; 2; 3; 4; 5; 6]; [1; 2; 3; 4; 5; 6]]%Q)]> ∅).

Definition ex_layer3 : PrunableLayer Q :=
  match register_activities
          (mkLayer "decgru" None None None 0%Q 1 1 None ex_conns [] [] true false)
          (Mat 3 [[1; 2; 5]; [1; 3; 5]]%Q) with
  | Ok l => l
  | Raise _ => new_layer "decgru" 1 1 false false
  end.

Definition ex_pruned3 : PrunableLayer Q * gmap string (ndarray Q) * option (PruneLog Q) :=
  match prune ex_layer3 ex_store with
  | Ok r => r
  | Raise _ => (ex_layer3, ∅, None)
  end.

Definition ex_log3 : PruneLog Q :=
  default (mkPruneLog "" 0 0%Q 0%Q 0%Q) ex_pruned3.2.

(** A maxout layer [decmaxout:1] of two neurons, four rows in its inbound
    matrix; the second neuron is the less active one. *)
Definition ex_maxout_layer : PrunableLayer Q :=
  match register_activities
          (mkLayer "decmaxout" None None None 0%Q 1 1 None
                   [mkConnection "in" "W" 0 0%Q] [] [] true true)
          (Mat 2 [[2; 1]]%Q) with
  | Ok l => l
  | Raise _ => new_layer "decmaxout" 1 1 false true
  end.

Definition ex_maxout_store : gmap string (ndarray Q) :=
  <["W" := Arr2 (Mat 1 [[1]; [1]; [1]; [1]]%Q)]> ∅.

Definition ex_maxout_pruned
  : PrunableLayer Q * gmap string (ndarray Q) * option (PruneLog Q) :=
  match prune ex_maxout_layer ex_maxout_store with
  | Ok r => r
  | Raise _ => (ex_maxout_layer, ∅, None)
  end.

(** A maxout layer [decmaxout] of two neurons with an inbound matrix [W]
    of eight rows, in which its rows begin at the quarter of the axis
    (offset 2, so at row 4 for the two rows of neuron 0), and an
    outbound matrix [U] of four columns, in which its columns begin at
    the half; and the store after the compensation for neuron 1. *)
Definition ex_maxout_offset_layer : PrunableLayer Q :=
  mkLayer "decmaxout" None None None 0%Q 1 1 None
    [mkConnection "in" "W" 0 (1 # 4)%Q; mkConnection "out" "U" 1 (1 # 2)%Q]
    [] [] false true.

Definition ex_maxout_offset_W : ndarray Q :=
  Arr2 (Mat 1 [[1]; [2]; [3]; [4]; [5]; [6]; [7]; [8]]%Q).

Definition ex_maxout_offset_store : gmap string (ndarray Q) :=
  <["W" := ex_maxout_offset_W]> (<["U" := Arr2 (Mat 4 [[1; 2; 3; 4]]%Q)]> ∅).

Definition ex_maxout_offset_pruned : gmap string (ndarray Q) :=
  match compensate_for_pruning [(0, 1)]%nat ex_maxout_offset_layer
          ex_maxout_offset_store with
  | Ok P => P
  | Raise _ => ∅
  end.

(** A layer [decgru:1] of four neurons pruned in three steps: the first
    call prunes two neurons.  Training goes on and the optimiser updates
    the weights, the accumulators are reset and filled again, and the
    second call prunes one more neuron. *)
Definition ex_layer4 : PrunableLayer Q :=
  match register_activities
          (mkLayer "decgru" None None None 0%Q 1 3 None
                   [mkConnection "in" "W" 0 0%Q] [] [] true false)
          (Mat 4 [[1; 2; 4; 8]]%Q) with
  | Ok l => l
  | Raise _ => new_layer "decgru" 1 3 false false
  end.

Definition ex_store4 : gmap string (ndarray Q) :=
  <["W" := Arr2 (Mat 1 [[1]; [1]; [1]; [1]]%Q)]> ∅.

Definition ex_layer4_second : PrunableLayer Q :=
  match prune ex_layer4 ex_store4 with
  | Ok r =>
      match register_activities (reset r.1.1) (Mat 4 [[1; 2; 4; 8]]%Q) with
      | Ok l => l
      | Raise _ => ex_layer4
      end
  | Raise _ => ex_layer4
  end.

Definition ex_second_pruned
  : PrunableLayer Q * gmap string (ndarray Q) * option (PruneLog Q) :=
  match prune ex_layer4_second ex_store4 with
  | Ok r => r
  | Raise _ => (ex_layer4_second, ∅, None)
  end.

(** The layer [ex_layer3] with the target size 3: nothing is to be
    pruned, and nothing has been. *)
Definition ex_layer3_full : PrunableLayer Q :=
  match register_activities
          (mkLayer "decgru" None None None 0%Q 3 1 None ex_conns [] [] true false)
          (Mat 3 [[1; 2; 5]; [1; 3; 5]]%Q) with
  | Ok l => l
  | Raise _ => new_layer "decgru" 3 1 false false
  end.

(** A layer [decgru:8] of ten neurons to be pruned in no step at all. *)
Definition ex_layer_nosteps : PrunableLayer Q :=
  match register_activities (new_layer "decgru" 8 0 false false) ex_batch10 with
  | Ok l => l
  | Raise _ => new_layer "decgru" 8 0 false false
  end.

(** ** What the accumulators stand for *)

(** Over the observations of one batch (its rows): the sum of the squared
    differences of the activations of the neurons [i] and [j], and the
    sum of the squared activations of neuron [i]. *)
Definition batch_sq_dist (b : matrix Q) (i j : nat) : Q :=
  qsum ((fun k => (mat_at b k i - mat_at b k j) * (mat_at b k i - mat_at b k j))%Q
          <$> seq 0 (m_nrows b)).

Definition batch_sq_act (b : matrix Q) (i : nat) : Q :=
  qsum ((fun k => (mat_at b k i * mat_at b k i)%Q) <$> seq 0 (m_nrows b)).

(** The same over the observations of all batches, and their number. *)
Definition total_sq_dist (batches : list (matrix Q)) (i j : nat) : Q :=
  qsum ((fun b => batch_sq_dist b i j) <$> batches).

Definition total_sq_act (batches : list (matrix Q)) (i : nat) : Q :=
  qsum ((fun b => batch_sq_act b i) <$> batches).

Definition total_obs (batches : list (matrix Q)) : Z :=
  foldr (fun b acc => Z.of_nat (m_nrows b) + acc) 0 batches.

(** The accumulators of a layer of [n] neurons hold the sums [D] and [A]
    and the count [N]. *)
Definition sums_inv (n : nat) (l : PrunableLayer Q)
    (D : nat -> nat -> Q) (A : nat -> Q) (N : Q) : Prop :=
  exists g a,
    dists l = Some (mat_init n n g) /\ activities l = Some a /\ length a = n /\
    (forall i j, (i < n)%nat -> (j < n)%nat -> (g i j == D i j)%Q) /\
    (forall i, (i < n)%nat -> (default 0%Q (a !! i) == A i)%Q) /\
    (n_obs l == N)%Q.

(** A list of positions with their entries is in ascending order of the
    entries. *)
Definition ascending (L : list (nat * Q)) : Prop :=
  forall p q x y, (p <= q)%nat -> L !! p = Some x -> L !! q = Some y ->
    (x.2 <= y.2)%Q.

(** ** The prunable layers of a configuration *)

Fixpoint py_split_on_go (sep : ascii) (cur : list ascii) (s : list ascii) : list string :=
  match s with
  | [] => [string_of_list_ascii (reverse cur)]
  | c :: s' =>
      if Ascii.eqb c sep
      then string_of_list_ascii (reverse cur) :: py_split_on_go sep [] s'
      else py_split_on_go sep (c :: cur) s'
  end.

(** [s.split(sep)] for a separator of one character: the pieces between
    the separators, empty ones included. *)
Definition py_split_on (sep : ascii) (s : string) : list string :=
  py_split_on_go sep [] (list_ascii_of_string s).

Definition unknown_layer_warning (n : string) : string :=
  "Unknown prunable layer name " ++ n.

Section Layers.
Context {R : Type} `{Scalar R}.
Variable py_int : string -> result Z.
Variable py_float : string -> result R.

(** [l.connections = ...] *)
Definition set_connections (l : PrunableLayer R) (cs : list (Connection R))
  : PrunableLayer R :=
  mkLayer (name l) (dists l) (activities l) (mask l) (n_obs l) (trg_size l) (n_steps l)
    (step_size l) cs (pruned_neurons l) (obs l) (store_obs l) (maxout l).

(** The four layers that can be pruned, and whether they are maxout
    layers. *)
Definition known_layer (n : string) : option bool :=
  if String.eqb n "encfwdgru" then Some false
  else if String.eqb n "encbwdgru" then Some false
  else if String.eqb n "decgru" then Some false
  else if String.eqb n "decmaxout" then Some true
  else None.

(** The body of the loop over [layer_configs] in [initialize_layers]; the
    state is [self.prunable_layers] and the warnings logged so far.  The
    handles into the computation graph ([theano_var]) are taken to exist
    and are left out, as in [PrunableLayer]. *)
Definition initialize_layers_conf (conns : gmap string (list (Connection R)))
    (prune_n_steps : Z) (st : list (PrunableLayer R) * list string) (conf : string)
  : result (list (PrunableLayer R) * list string) :=
  match py_split_on ":" conf with
  | [n; s] =>
      match known_layer n with
      | Some mx =>
          trg ← py_int s;
          Ok (st.1 ++ [set_connections (new_layer n trg prune_n_steps false mx)
                         (default [] (conns !! n))],
              st.2)
      | None => Ok (st.1, st.2 ++ [unknown_layer_warning n])
      end
  | _ => Raise ValueError
  end.

(** [initialize_layers], given the lines of the layout file. *)
Definition initialize_layers (layer_configs : list string) (lines : list string)
    (prune_n_steps : Z) : result (list (PrunableLayer R) * list string) :=
  cl ← initialize_layers_conns py_int py_float lines;
  foldlM (initialize_layers_conf cl.1 prune_n_steps) ([], cl.2) layer_configs.

End Layers.

(** What a line of the layout file stands for: nothing (a blank line), a
    syntax error, or a connection of a layer. *)
Inductive layout_entry (R : Type) : Type :=
| LBlank
| LSyntaxError
| LConn (layer : string) (conn : Connection R).
Arguments LBlank {R}.
Arguments LSyntaxError {R}.
Arguments LConn {R} layer conn.

(** What the loop body of [initialize_layers] makes of such a line when
    nothing has been read yet; [line_entry] tells by it which entry a
    line is. *)
Definition entry_state {R : Type} (e : layout_entry R)
  : gmap string (list (Connection R)) * list string :=
  match e with
  | LBlank => (∅, [])
  | LSyntaxError => (∅, [] ++ [syntax_warning])
  | LConn n c => (add_connection n c ∅, [])
  end.

Definition line_entry {R : Type} `{Scalar R} (py_int : string -> result Z)
    (py_float : string -> result R) (line : string) (e : layout_entry R) : Prop :=
  initialize_layers_line py_int py_float (∅, []) line = Ok (entry_state e).

(** The connections of the layer [n] among the entries, in their order. *)
Definition entry_conns {R : Type} (n : string) (es : list (layout_entry R))
  : list (Connection R) :=
  omap (fun e => match e with
                 | LConn n' c => if String.eqb n' n then Some c else None
                 | _ => None
                 end) es.

(** The warnings of the entries. *)
Definition entry_warnings {R : Type} (es : list (layout_entry R)) : list string :=
  omap (fun e => match e with LSyntaxError => Some syntax_warning | _ => None end) es.

(** The state of the reader after the line [decgru out U_dec 1]. *)
Definition ex_layout_state : gmap string (list (Connection Q)) * list string :=
  (<["decgru"%string := [mkConnection "out" "U_dec" 1 0%Q]]> ∅, []).

(** A layout file with a blank line and a line that is no connection,
    and what [initialize_layers] reads from it. *)
Definition ex_layout_lines : list string :=
  ["decgru in W_dec 0"; ""; "decgru out U_dec 1 0.5"; "decgru W_dec";
   "encfwdgru in W_enc 1"]%string.

Definition ex_layout : gmap string (list (Connection Q)) * list string :=
  match initialize_layers_conns dec_int dec_float ex_layout_lines with
  | Ok r => r
  | Raise _ => (∅, [])
  end.

(** The layers of a configuration that names one layer twice and one
    that does not exist. *)
Definition ex_configs : list string :=
  ["decgru:2"; "encattention:5"; "decmaxout:1"; "decgru:3"]%string.

Definition ex_layers : list (PrunableLayer Q) * list string :=
  match initialize_layers dec_int dec_float ex_configs ex_layout_lines 2 with
  | Ok r => r
  | Raise _ => ([], [])
  end.

(** ** The training algorithm *)

(** [class PruningGradientDescent], as far as pruning goes.  The
    parameters in [params_dict] are the shared variables that the
    training function updates. *)
Record PruningGradientDescent (R : Type) : Type := mkPGD {
  prune_every : Z;
  prune_reset_every : Z;
  n_batches : Z;
  prune_n_steps : Z;
  prunable_layers : list (PrunableLayer R);
  params_dict : gmap string (ndarray R);
  next_layer_to_prune : Z;
  next_layer_to_reset : Z
}.
Arguments mkPGD {R} prune_every prune_reset_every n_batches prune_n_steps
  prunable_layers params_dict next_layer_to_prune next_layer_to_reset.
Arguments prune_every {R} p.
Arguments prune_reset_every {R} p.
Arguments n_batches {R} p.
Arguments prune_n_steps {R} p.
Arguments prunable_layers {R} p.
Arguments params_dict {R} p.
Arguments next_layer_to_prune {R} p.
Arguments next_layer_to_reset {R} p.

Section Training.
Context {R : Type} `{Scalar R}.
Variable py_int : string -> result Z.
Variable py_float : string -> result R.
(** The batches of the training stream, and the two calls of
    [process_batch] into the framework: [_validate_source_names], and
    the compiled function [_function] on the ordered batch, which
    returns the activities of the prunable layers (here after the
    reshape to two dimensions that [register_activities] starts with)
    and applies the updates of the optimiser to the parameters. *)
Variable Batch : Type.
Variable validate_source_names : Batch -> result unit.
Variable train_function :
  Batch -> gmap string (ndarray R) ->
  result (list (matrix R) * gmap string (ndarray R)).

(** [PruningGradientDescent.__init__], given the lines of the layout file
    and the parameters of the model; it returns the warnings logged as
    well. *)
Definition PruningGradientDescent_init (prune_layer_configs lines : list string)
    (prune_every prune_reset_every prune_n_steps : Z)
    (params : gmap string (ndarray R))
  : result (PruningGradientDescent R * list string) :=
  ll ← initialize_layers py_int py_float prune_layer_configs lines prune_n_steps;
  let len := Z.of_nat (length ll.1) in
  Ok (mkPGD prune_every
        (if 0 <? prune_reset_every then prune_reset_every else prune_every)
        0 prune_n_steps ll.1 params (- len) (- len),
      ll.2).

(** [for activity, layer in zip(activities, self.prunable_layers):
    layer.register_activities(activity)] *)
Fixpoint register_each (activities : list (matrix R)) (layers : list (PrunableLayer R))
  : result (list (PrunableLayer R)) :=
  match activities, layers with
  | a :: activities', l :: layers' =>
      l' ← register_activities l a;
      ls ← register_each activities' layers';
      Ok (l' :: ls)
  | _, _ => Ok layers
  end.

(** [layer = self.prunable_layers[i]; layer.prune(self.params_dict);
    layer.sanity_check(self.params_dict)] *)
Definition prune_scheduled (layers : list (PrunableLayer R))
    (params : gmap string (ndarray R)) (i : Z)
  : result (list (PrunableLayer R) * gmap string (ndarray R)) :=
  k ← py_index (length layers) i;
  layer ← or_raise IndexError (layers !! k);
  r ← prune layer params;
  _ ← sanity_check r.1.1 r.1.2;
  Ok (<[k := r.1.1]> layers, r.1.2).

(** [self.prunable_layers[i].reset()] *)
Definition reset_scheduled (layers : list (PrunableLayer R)) (i : Z)
  : result (list (PrunableLayer R)) :=
  k ← py_index (length layers) i;
  layer ← or_raise IndexError (layers !! k);
  Ok (<[k := reset layer]> layers).

(** [n % m] on ints. *)
Definition py_mod (n m : Z) : result Z :=
  if m =? 0 then Raise ZeroDivisionError else Ok (n mod m).

(** [process_batch].  A call that raises has no result here: what it had
    changed by then is not modelled. *)
Definition process_batch (st : PruningGradientDescent R) (batch : Batch)
  : result (PruningGradientDescent R) :=
  let n := n_batches st + 1 in
  _ ← validate_source_names batch;
  out ← train_function batch (params_dict st);
  layers ← register_each out.1 (prunable_layers st);
  r ← py_mod n (prune_every st);
  pr ← (if r =? 0 then
          let c := next_layer_to_prune st + 1 in
          if c >=? 0 then
            c' ← py_mod c (Z.of_nat (length layers));
            lp ← prune_scheduled layers out.2 c';
            Ok (c', lp.1, lp.2)
          else Ok (c, layers, out.2)
        else Ok (next_layer_to_prune st, layers, out.2));
  r ← py_mod n (prune_reset_every st);
  rs ← (if r =? 0 then
          let c := next_layer_to_reset st + 1 in
          if c >=? 0 then
            c' ← py_mod c (Z.of_nat (length pr.1.2));
            ls ← reset_scheduled pr.1.2 c';
            Ok (c', ls)
          else Ok (c, pr.1.2)
        else Ok (next_layer_to_reset st, pr.1.2));
  Ok (mkPGD (prune_every st) (prune_reset_every st) n (prune_n_steps st)
        rs.2 pr.2 pr.1.1 rs.1).

(** [process_batch] batch after batch. *)
Definition process_batches (st : PruningGradientDescent R) (batches : list Batch)
  : result (PruningGradientDescent R) :=
  foldlM process_batch st batches.

End Training.

(** Where a cursor of the round robin over [len] layers stands after
    [events] events: it starts at [-len] and counts up to 0, then goes
    round the layers. *)
Definition cursor_after (len events : Z) : Z :=
  if events <? len then events - len else events mod len.

(** A run of the training algorithm: the layers [decgru:2] and
    [encfwdgru:2], of three neurons each and without connections, a prune
    event with every batch and the default reset period; the training
    step leaves the parameters alone and returns the same activities for
    every batch. *)
Definition ex_validate (b : unit) : result unit := Ok tt.

Definition ex_train (b : unit) (P : gmap string (ndarray Q))
  : result (list (matrix Q) * gmap string (ndarray Q)) :=
  Ok ([Mat 3 [[1; 2; 5]; [1; 3; 5]]%Q; Mat 3 [[1; 2; 5]; [1; 3; 5]]%Q], P).

Definition ex_pgd : PruningGradientDescent Q :=
  match PruningGradientDescent_init dec_int dec_float
          ["decgru:2"; "encfwdgru:2"]%string [] 1 0 1 ∅ with
  | Ok r => r.1
  | Raise _ => mkPGD 1 1 0 1 [] ∅ 0 0
  end.

Definition ex_run (n : nat) : PruningGradientDescent Q :=
  match process_batches unit ex_validate ex_train ex_pgd (replicate n tt) with
  | Ok st => st
  | Raise _ => ex_pgd
  end.

(** The same configuration with no layer that can be pruned. *)
Definition ex_pgd_empty : PruningGradientDescent Q :=
  match PruningGradientDescent_init dec_int dec_float
          ["encattention:2"]%string [] 1 0 1 ∅ with
  | Ok r => r.1
  | Raise _ => mkPGD 1 1 0 1 [] ∅ 0 0
  end.

(** The first layer of that run before and after the second batch. *)
Definition ex_run_layer (n : nat) : PrunableLayer Q :=
  default (new_layer "decgru" 2 1 false false) (prunable_layers (ex_run n) !! 0%nat).

(** ** The n-gram predictors *)

(** [sep.join(ws)] *)
Definition py_join (sep : string) (ws : list string) : string :=
  match ws with
  | [] => ""
  | w :: ws' => fold_left (fun acc x => (acc ++ sep ++ x)%string) ws' w
  end.

(** The last [n] items of a list. *)
Definition window {A : Type} (n : nat) (l : list A) : list A :=
  drop (length l - n) l.

(** [SRILMPredictor].  A state of the predictor is a Python list, which
    [consume] extends in place: the lists live in a heap, a list of list
    objects addressed by their position, and [history] is the address of
    the list object that [self.history] names ([None] before
    [initialize]).  An address outside the heap does not occur in
    Python; the model raises there. *)
Module SRILMPredictor.

Record predictor : Type := mkPredictor {
  history_len : Z;
  vocab_size : Z;
  convert_to_ln : bool;
  history : option nat
}.

Definition heap : Type := list (list string).

Section Predictor.
Context {R : Type} `{Scalar R}.
(** swig-srilm on the language model [self.lm]. *)
Variable howManyNgrams : Z -> Z.
Variable getNgramProb : string -> Z -> R.
Variable getIndexForWord : string -> Z.
(** [str] on a word, [utils.EOS_ID] and [math.log(10)]. *)
Variable py_str : Z -> string.
Variable EOS_ID : Z.
Variable ln10 : R.

(** [__init__] *)
Definition init (ngram_order : Z) (convert : bool) : predictor :=
  mkPredictor (ngram_order - 1) (howManyNgrams 1) convert None.

Definition set_history (p : predictor) (a : nat) : predictor :=
  mkPredictor (history_len p) (vocab_size p) (convert_to_ln p) (Some a).

(** [initialize]: [self.history] names a new list. *)
Definition initialize (p : predictor) (h : heap) : predictor * heap :=
  (set_history p (length h),
   h ++ [if 0 <? history_len p then ["<s>"%string] else []]).

(** [self.history]: the address and the list there. *)
Definition load_history (p : predictor) (h : heap) : result (nat * list string) :=
  a ← or_raise AttributeError (history p);
  v ← or_raise AttributeError (h !! a);
  Ok (a, v).

(** [consume]: the slice [self.history[1:]] is a new list, and [append]
    changes the list that [self.history] names then. *)
Definition consume (p : predictor) (h : heap) (word : Z) : result (predictor * heap) :=
  av ← load_history p h;
  let ph := if Z.of_nat (length av.2) >=? history_len p
            then (set_history p (length h), h ++ [drop 1 av.2])
            else (p, h) in
  av' ← load_history ph.1 ph.2;
  Ok (ph.1, <[av'.1 := av'.2 ++ [py_str word]]> ph.2).

(** [get_state] returns the list object itself, and [set_state] makes
    [self.history] name the one it is given. *)
Definition get_state (p : predictor) : result nat :=
  or_raise AttributeError (history p).

Definition set_state (p : predictor) (state : nat) : predictor :=
  set_history p state.

(** [_replace_unks] *)
Definition _replace_unks (p : predictor) (hist : list string) : list string :=
  (fun w => if vocab_size p <? getIndexForWord w then "<unk>"%string else w) <$> hist.

(** [is_equal], on the lists that the two states hold. *)
Definition is_equal (p : predictor) (state1 state2 : list string) : bool :=
  bool_decide (_replace_unks p state1 = _replace_unks p state2).

(** The word as the language model is asked for it. *)
Definition word_str (w : Z) : string :=
  if w =? EOS_ID then "</s>"%string else py_str w.

(** [predict_next] *)
Definition predict_next (p : predictor) (h : heap) (words : list Z)
  : result (gmap Z R) :=
  av ← load_history p h;
  let prefix := (py_join " " av.2 ++ " ")%string in
  let order := Z.of_nat (length av.2) + 1 in
  let scaling_factor := if convert_to_ln p then ln10 else s_of_Z 1 in
  Ok (list_to_map
        ((fun w => (w, s_mul (getNgramProb (prefix ++ word_str w)%string order)
                             scaling_factor)) <$> words)).

(** [get_unk_probability]; the score is not scaled. *)
Definition get_unk_probability (p : predictor) (h : heap) : result R :=
  av ← load_history p h;
  let order := Z.of_nat (length av.2) + 1 in
  Ok (getNgramProb (py_join " " av.2 ++ " <unk>")%string order).

(** [consume] word after word. *)
Definition consume_all (p : predictor) (h : heap) (words : list Z)
  : result (predictor * heap) :=
  foldlM (fun ph w => consume ph.1 ph.2 w) (p, h) words.

End Predictor.
End SRILMPredictor.

(** [KenLMPredictor] but for [is_equal], which is above.  The states are
    objects of the class [kenlm.State], which the scoring call writes
    into: they live in a heap as the histories of the SRILM predictor
    do. *)
Module KenLMPredictor.

Record predictor : Type := mkPredictor {
  lm_state : option nat;
  lm_state2 : nat
}.

Section Predictor.
Context {R : Type}.
(** What a [kenlm.State] holds; the state that [kenlm.State()] creates;
    the one that [BeginSentenceWrite] writes; and [BaseScore(in_state,
    word, out_state)]: the score, and the state that it writes into
    [out_state]. *)
Variable State : Type.
Variable null_state : State.
Variable begin_state : State.
Variable BaseScore : State -> string -> R * State.
Variable py_str : Z -> string.
Variable EOS_ID : Z.

Definition heap : Type := list State.

(** [__init__] *)
Definition init (h : heap) : predictor * heap :=
  (mkPredictor None (length h), h ++ [null_state]).

(** [initialize] *)
Definition initialize (p : predictor) (h : heap) : predictor * heap :=
  (mkPredictor (Some (length h)) (lm_state2 p), h ++ [begin_state]).

(** [self.lm.BaseScore(self.lm_state, word, self.lm_state2)] *)
Definition score (p : predictor) (h : heap) (word : string) : result (R * heap) :=
  a ← or_raise AttributeError (lm_state p);
  s ← or_raise AttributeError (h !! a);
  Ok ((BaseScore s word).1, <[lm_state2 p := (BaseScore s word).2]> h).

Definition word_str (w : Z) : string :=
  if w =? EOS_ID then "</s>"%string else py_str w.

(** [predict_next]: the words are scored one after the other. *)
Definition predict_next (p : predictor) (h : heap) (words : list Z)
  : result (gmap Z R * heap) :=
  foldlM (fun acc w =>
            r ← score p acc.2 (word_str w);
            Ok (<[w := r.1]> acc.1, r.2))
         (∅, h) words.

(** [get_unk_probability] *)
Definition get_unk_probability (p : predictor) (h : heap) : result (R * heap) :=
  score p h "<unk>".

(** [consume]: the two states change places. *)
Definition consume (p : predictor) (h : heap) (word : Z) : result (predictor * heap) :=
  r ← score p h (py_str word);
  a ← or_raise AttributeError (lm_state p);
  Ok (mkPredictor (Some (lm_state2 p)) a, r.2).

Definition get_state (p : predictor) : result nat :=
  or_raise AttributeError (lm_state p).

Definition set_state (p : predictor) (state : nat) : predictor :=
  mkPredictor (Some state) (lm_state2 p).

End Predictor.
End KenLMPredictor.

(** A trigram predictor on a new sentence, and after the word 7. *)
Definition ex_srilm : SRILMPredictor.predictor * SRILMPredictor.heap :=
  SRILMPredictor.initialize (SRILMPredictor.init (fun _ => 100) 3 false) [].

Definition ex_srilm_consumed : SRILMPredictor.predictor * SRILMPredictor.heap :=
  match SRILMPredictor.consume (fun _ => "7"%string) ex_srilm.1 ex_srilm.2 7 with
  | Ok r => r
  | Raise _ => ex_srilm
  end.

(** A KenLM predictor whose states are the lists of the words scored, on
    a new sentence, and after the word 7. *)
Definition ex_base_score (s : list string) (w : string) : Q * list string :=
  (inject_Z (Z.of_nat (length s)), s ++ [w]).

Definition ex_kenlm : KenLMPredictor.predictor * KenLMPredictor.heap (list string) :=
  let ph := KenLMPredictor.init (list string) [] [] in
  KenLMPredictor.initialize (list string) ["<s>"%string] ph.1 ph.2.

Definition ex_kenlm_consumed
  : KenLMPredictor.predictor * KenLMPredictor.heap (list string) :=
  match KenLMPredictor.consume (list string) ex_base_score (fun _ => "7"%string)
          ex_kenlm.1 ex_kenlm.2 7 with
  | Ok r => r
  | Raise _ => ex_kenlm
  end.

(** ** [add_in_mat] *)

Section AddInMat.
Context {R : Type} `{Scalar R}.

(** [mat[t_idx, :] += mat[f_idx, :]] and [mat[:, t_idx] += mat[:, f_idx]]
    on a 2-d array. *)
Definition mat_add_row (f_idx t_idx : Z) (m : matrix R) : result (matrix R) :=
  t ← py_index (m_nrows m) t_idx;
  f ← py_index (m_nrows m) f_idx;
  Ok (Mat (m_cols m)
        (alter (fun row => zip_with s_add row (default [] (m_rows m !! f))) t (m_rows m))).

Definition mat_add_col (f_idx t_idx : Z) (m : matrix R) : result (matrix R) :=
  t ← py_index (m_cols m) t_idx;
  f ← py_index (m_cols m) f_idx;
  Ok (Mat (m_cols m)
        ((fun row => <[t := s_add (default s_zero (row !! t))
                                  (default s_zero (row !! f))]> row) <$> m_rows m)).

(** [add_in_mat] *)
Definition add_in_mat (mat : ndarray R) (dim f_idx t_idx : Z) : result (ndarray R) :=
  match mat with
  | Arr1 v =>
      t ← py_index (length v) t_idx;
      f ← py_index (length v) f_idx;
      Ok (Arr1 (<[t := s_add (default s_zero (v !! t)) (default s_zero (v !! f))]> v))
  | Arr2 m =>
      if dim =? 0 then Arr2 <$> mat_add_row f_idx t_idx m
      else if dim =? 1 then Arr2 <$> mat_add_col f_idx t_idx m
      else Ok mat
  end.

End AddInMat.

(** [np.sum(mat, axis=dim)] in exact arithmetic, for a vector (whatever
    [dim] is) and for the two axes of a matrix: the sums of the columns
    for axis 0, of the rows for axis 1. *)
Definition axis_sums (a : ndarray Q) (d : Z) : list Q :=
  match a with
  | Arr1 v => [qsum v]
  | Arr2 m =>
      if d =? 0 then
        (fun c => qsum ((fun row => default 0%Q (row !! c)) <$> m_rows m))
          <$> seq 0 (m_cols m)
      else if d =? 1 then qsum <$> m_rows m
      else []
  end.

(** A weight matrix of three neurons by two, to add row 2 to row 0 in. *)
Definition ex_add_mat : ndarray Q := Arr2 (Mat 2 [[1; 2]; [3; 4]; [5; 6]]%Q).

Definition ex_add_mat1 : ndarray Q :=
  match add_in_mat ex_add_mat 0 2 0 with Ok a => a | Raise _ => ex_add_mat end.

Definition ex_add_mat2 : ndarray Q :=
  match set_zero_in_mat ex_add_mat1 0 2 with Ok a => a | Raise _ => ex_add_mat1 end.

(** * Properties *)

(** ** Zero in both number models *)

#[export] Instance Q_scalar_zero : ScalarZero Q.
Proof. by split. Qed.

#[export] Instance float_scalar_zero : ScalarZero float.
Proof. by split. Qed.

(** ** The exception monad *)

Lemma bind_Ok {A B : Type} (m : result A) (f : A -> result B) (b : B) :
  m ≫= f = Ok b <-> exists a, m = Ok a /\ f a = Ok b.
Proof.
  destruct m as [a|e]; simpl; split.
  - intros Hf. exists a. done.
  - intros (a' & [= <-] & Hf). done.
  - discriminate.
  - intros (a' & Ha & _). discriminate.
Qed.

Lemma fmap_Ok {A B : Type} (m : result A) (f : A -> B) (b : B) :
  f <$> m = Ok b <-> exists a, m = Ok a /\ b = f a.
Proof.
  destruct m as [a|e]; simpl; split.
  - intros [= <-]. by exists a.
  - intros (a' & [= <-] & ->). done.
  - discriminate.
  - intros (a' & Ha & _). discriminate.
Qed.

Lemma or_raise_Ok {A : Type} (e : exn) (o : option A) (a : A) :
  or_raise e o = Ok a <-> o = Some a.
Proof. destruct o; simpl; split; congruence. Qed.

(** Take apart a hypothesis that says a chain of binds returned. *)
Ltac inv_ok :=
  repeat match goal with
  | H : Ok _ = Ok _ |- _ => injection H as H; try subst
  | H : Raise _ = Ok _ |- _ => discriminate H
  | H : _ ≫= _ = Ok _ |- _ =>
      let a := fresh "a" in
      let Ha := fresh "Ha" in
      apply bind_Ok in H; destruct H as (a & Ha & H)
  | H : _ <$> _ = Ok _ |- _ =>
      let a := fresh "a" in
      let Ha := fresh "Ha" in
      apply fmap_Ok in H; destruct H as (a & Ha & H)
  | H : or_raise _ _ = Ok _ |- _ => apply or_raise_Ok in H
  end.

Lemma py_index_Ok (len : nat) (i : Z) (k : nat) :
  py_index len i = Ok k ->
  (k < len)%nat /\ (Z.of_nat k = i \/ Z.of_nat k = i + Z.of_nat len).
Proof.
  unfold py_index. intros Hk.
  destruct (_ && _) eqn:E1 in Hk.
  - injection Hk as <-. lia.
  - destruct (_ && _) eqn:E2 in Hk; [injection Hk as <-; lia | discriminate].
Qed.

Lemma py_index_nat (len k : nat) :
  (k < len)%nat -> py_index len (Z.of_nat k) = Ok k.
Proof.
  intros Hk. unfold py_index.
  replace (_ && _) with true by (symmetry; apply andb_true_iff; lia).
  by rewrite Nat2Z.id.
Qed.

Lemma py_index_nonneg (len : nat) (i : Z) (k : nat) :
  0 <= i -> py_index len i = Ok k -> Z.of_nat k = i /\ (k < len)%nat.
Proof.
  intros Hi Hk. unfold py_index in Hk.
  destruct (_ && _) eqn:E1 in Hk.
  - injection Hk as <-. lia.
  - destruct (_ && _) eqn:E2 in Hk; [lia | discriminate].
Qed.

(** ** Shapes *)

Section ShapeFacts.
Context {R : Type} `{Scalar R}.

Lemma mat_init_nrows (r c : nat) (g : nat -> nat -> R) :
  m_nrows (mat_init r c g) = r.
Proof. unfold m_nrows, mat_init. simpl. by rewrite length_fmap, length_seq. Qed.

Lemma mat_init_lookup (r c : nat) (g : nat -> nat -> R) (i j : nat) :
  (i < r)%nat -> (j < c)%nat ->
  m_rows (mat_init r c g) !! i ≫= (.!! j) = Some (g i j).
Proof.
  intros Hi Hj. unfold mat_init. simpl.
  rewrite list_lookup_fmap, lookup_seq_lt by done. simpl.
  rewrite list_lookup_fmap, lookup_seq_lt by done. done.
Qed.

Lemma mat_at_init (r c : nat) (g : nat -> nat -> R) (i j : nat) :
  (i < r)%nat -> (j < c)%nat -> mat_at (mat_init r c g) i j = g i j.
Proof. intros Hi Hj. unfold mat_at. by rewrite mat_init_lookup. Qed.

Lemma mat_index_init (r c : nat) (g : nat -> nat -> R) (i j : nat) :
  (i < r)%nat -> (j < c)%nat -> mat_index (mat_init r c g) i j = Ok (g i j).
Proof. intros Hi Hj. unfold mat_index. by rewrite mat_init_lookup. Qed.

Lemma mat_init_wf (r c : nat) (g : nat -> nat -> R) : mat_wf (mat_init r c g).
Proof.
  unfold mat_wf, mat_init. simpl. apply Forall_fmap, Forall_forall.
  intros i _. simpl. by rewrite length_fmap, length_seq.
Qed.

Lemma concat_length_const {A : Type} (c : nat) (ls : list (list A)) :
  Forall (fun r => length r = c) ls -> length (concat ls) = (length ls * c)%nat.
Proof.
  induction 1 as [|r ls Hr _ IH]; [done|].
  simpl. rewrite length_app, IH, Hr. lia.
Qed.

Lemma mat_map_nrows (f : R -> R) (m : matrix R) : m_nrows (mat_map f m) = m_nrows m.
Proof. unfold m_nrows, mat_map. simpl. by rewrite length_fmap. Qed.

Lemma broadcast_dim_same (n : nat) : broadcast_dim n n = Ok n.
Proof. unfold broadcast_dim. by rewrite Nat.eqb_refl. Qed.

Lemma mat_set_row_shape (v : R) (idx : Z) (m m' : matrix R) :
  mat_set_row v idx m = Ok m' -> m_nrows m' = m_nrows m /\ m_cols m' = m_cols m.
Proof.
  unfold mat_set_row. intros Hm. inv_ok. unfold m_nrows. simpl.
  by rewrite length_alter.
Qed.

Lemma mat_set_col_shape (v : R) (idx : Z) (m m' : matrix R) :
  mat_set_col v idx m = Ok m' -> m_nrows m' = m_nrows m /\ m_cols m' = m_cols m.
Proof.
  unfold mat_set_col. intros Hm. inv_ok. unfold m_nrows. simpl.
  by rewrite length_fmap.
Qed.

End ShapeFacts.

(** ** The scan of [prune] *)

Section ScanFacts.
Context {R : Type} `{Scalar R}.

Lemma scan_frame_refl (l : PrunableLayer R) : scan_frame l l.
Proof. unfold scan_frame. tauto. Qed.

Lemma scan_frame_trans (l1 l2 l3 : PrunableLayer R) :
  scan_frame l1 l2 -> scan_frame l2 l3 -> scan_frame l1 l3.
Proof. unfold scan_frame. intuition congruence. Qed.

(** The scan appends the pairs it chooses; the neurons it deletes were
    not pruned before and are pairwise distinct; it stops with as many
    pairs as asked for, or else it has read every pair and each of them
    has a pruned index. *)
Lemma prune_scan_spec (sm : matrix R) (ntd : Z) (idxs : list (nat * nat)) :
  forall (l : PrunableLayer R) td ms l' td' ms',
  prune_scan sm ntd idxs l td ms = Ok (l', td', ms') ->
  exists new : list (nat * nat),
    td' = td ++ new /\
    pruned_neurons l' = pruned_neurons l ++ new.*2 /\
    scan_frame l l' /\
    mask_shape l' = mask_shape l /\
    NoDup (new.*2) /\
    (forall j, j ∈ new.*2 -> j ∉ pruned_neurons l) /\
    (new <> [] -> is_Some ms') /\
    (new = [] -> ms' = ms) /\
    (Z.of_nat (length td) < ntd ->
       Z.of_nat (length td') = ntd \/
       (Z.of_nat (length td') < ntd /\
        forall ij, ij ∈ idxs ->
          ij.1 ∈ pruned_neurons l' \/ ij.2 ∈ pruned_neurons l')).
Proof.
  induction idxs as [|[i j] rest IH]; intros l td ms l' td' ms' Hscan.
  - simpl in Hscan. injection Hscan as <- <- <-. exists [].
    rewrite !app_nil_r. split_and!.
    + done.
    + done.
    + apply scan_frame_refl.
    + done.
    + constructor.
    + intros j Hj. by apply elem_of_nil in Hj.
    + done.
    + done.
    + intros Hlt. right. split; [done|]. intros ij Hij. by apply elem_of_nil in Hij.
  - simpl in Hscan.
    destruct (bool_decide (i ∈ pruned_neurons l) || bool_decide (j ∈ pruned_neurons l))
      eqn:Hskip.
    + destruct (IH _ _ _ _ _ _ Hscan)
        as (new & -> & Hp & Hf & Hm & Hnd & Hfresh & Hms & Hms0 & Hk).
      exists new. split_and!; [done..|].
      intros Hlt. destruct (Hk Hlt) as [Heq | [Hlt' Hall]]; [by left|right].
      split; [done|]. intros ij [-> | Hij]%elem_of_cons; [|by apply Hall].
      simpl. rewrite Hp.
      apply orb_true_iff in Hskip as [Hi%bool_decide_eq_true | Hj%bool_decide_eq_true].
      * left. apply elem_of_app. by left.
      * right. apply elem_of_app. by left.
    + apply orb_false_iff in Hskip as [Hi%bool_decide_eq_false Hj%bool_decide_eq_false].
      inv_ok.
      set (ij := if s_ltb a1 a2 then (j, i) else (i, j)) in *.
      assert (Hij2 : ij.2 ∉ pruned_neurons l).
      { unfold ij. by destruct (s_ltb a1 a2). }
      simpl in Ha3.
      apply mat_set_row_shape in Ha4 as Hs4. apply mat_set_col_shape in Ha5 as Hs5.
      assert (Hshape : mask_shape (set_mask (set_pruned_neurons l
                 (pruned_neurons l ++ [ij.2])) (Some a5)) = mask_shape l).
      { unfold mask_shape. simpl. rewrite Ha3. simpl.
        destruct Hs4 as [<- <-]. by destruct Hs5 as [-> ->]. }
      assert (Hframe : scan_frame l (set_mask (set_pruned_neurons l
                 (pruned_neurons l ++ [ij.2])) (Some a5))).
      { unfold scan_frame. simpl. tauto. }
      assert (Hlen : length (td ++ [ij]) = S (length td)).
      { rewrite length_app. simpl. lia. }
      destruct (Z.of_nat (length (td ++ [ij])) >=? ntd) eqn:Hbrk.
      * injection Hscan as <- <- <-. exists [ij]. split_and!.
        -- done.
        -- done.
        -- done.
        -- done.
        -- apply NoDup_singleton.
        -- intros k ->%list_elem_of_singleton. done.
        -- done.
        -- done.
        -- intros Hlt. left. lia.
      * destruct (IH _ _ _ _ _ _ Hscan)
          as (new & -> & Hp & Hf & Hm & Hnd & Hfresh & Hms & Hms0 & Hk).
        simpl in Hp, Hfresh. exists (ij :: new). split_and!.
        -- by rewrite <- app_assoc.
        -- rewrite Hp, <- app_assoc. done.
        -- eapply scan_frame_trans; [exact Hframe|exact Hf].
        -- by rewrite Hm.
        -- simpl. constructor; [|done]. intros Hin. apply (Hfresh _ Hin).
           apply elem_of_app. right. by apply list_elem_of_singleton.
        -- intros k [-> | Hk']%elem_of_cons; [done|].
           intros Hin. apply (Hfresh _ Hk'). apply elem_of_app. by left.
        -- intros _. destruct new as [|n0 new].
           ++ rewrite Hms0 by done. by eexists.
           ++ by apply Hms.
        -- done.
        -- intros Hlt.
           assert (Hlt2 : Z.of_nat (length (td ++ [ij])) < ntd) by lia.
           destruct (Hk Hlt2) as [Heq | [Hlt' Hall]]; [by left|right].
           split; [done|]. intros ij' [-> | Hij']%elem_of_cons; [|by apply Hall].
           assert (Hin : ij.2 ∈ pruned_neurons l').
           { rewrite Hp. apply elem_of_app. left. apply elem_of_app. right.
             by apply list_elem_of_singleton. }
           unfold ij in Hin. simpl. destruct (s_ltb a1 a2); simpl in Hin; tauto.
Qed.

End ScanFacts.

(** ** The order of the scan *)

Section OrderFacts.
Context {R : Type} `{Scalar R}.

Lemma argsort_insert_perm (k : nat * R) (l : list (nat * R)) :
  argsort_insert k l ≡ₚ k :: l.
Proof.
  induction l as [|h t IH]; simpl; [done|].
  destruct (sort_lt h.2 k.2); [|done].
  rewrite IH. apply Permutation_swap.
Qed.

Lemma argsort_foldr_perm (l : list (nat * R)) :
  foldr argsort_insert [] l ≡ₚ l.
Proof.
  induction l as [|h t IH]; simpl; [done|].
  rewrite argsort_insert_perm. by rewrite IH.
Qed.

(** [np.argsort] returns every flat position once. *)
Lemma np_argsort_perm (xs : list R) : np_argsort xs ≡ₚ seq 0 (length xs).
Proof.
  unfold np_argsort. rewrite argsort_foldr_perm.
  rewrite fst_zip; [done|]. by rewrite length_seq.
Qed.

(** The scan reads positions of the matrix only, the diagonal among them. *)
Lemma scan_order_range (sm : matrix R) (n : nat) (ij : nat * nat) :
  mat_wf sm -> m_nrows sm = n -> m_cols sm = n ->
  ij ∈ scan_order sm -> (ij.1 < n)%nat /\ (ij.2 < n)%nat.
Proof.
  intros Hwf Hr Hc. unfold scan_order, np_unravel.
  intros (k & -> & Hk)%list_elem_of_fmap.
  rewrite np_argsort_perm in Hk. apply elem_of_seq in Hk.
  rewrite (concat_length_const (m_cols sm)) in Hk by done.
  fold (m_nrows sm) in Hk. rewrite Hr, Hc in *. simpl.
  assert (0 < n)%nat by lia. split.
  - apply Nat.Div0.div_lt_upper_bound. lia.
  - apply Nat.mod_upper_bound. lia.
Qed.

Lemma scan_order_diag (sm : matrix R) (n i : nat) :
  mat_wf sm -> m_nrows sm = n -> m_cols sm = n ->
  (i < n)%nat -> (i, i) ∈ scan_order sm.
Proof.
  intros Hwf Hr Hc Hi. unfold scan_order, np_unravel.
  apply list_elem_of_fmap. exists (i * n + i)%nat. rewrite Hc. split.
  - f_equal.
    + rewrite Nat.div_add_l by lia. rewrite Nat.div_small by done. lia.
    + rewrite Nat.add_comm, Nat.Div0.mod_add. by rewrite Nat.mod_small.
  - rewrite np_argsort_perm. apply elem_of_seq.
    rewrite (concat_length_const (m_cols sm)) by done.
    fold (m_nrows sm). rewrite Hr, Hc. nia.
Qed.

(** The scan raises nothing while the pairs it reads are positions of
    [search_mat], of the mask and of the activities. *)
Lemma prune_scan_total (sm : matrix R) (ntd : Z) (n : nat) (idxs : list (nat * nat)) :
  (forall i j, (i < n)%nat -> (j < n)%nat -> is_Some (m_rows sm !! i ≫= (.!! j))) ->
  (forall ij, ij ∈ idxs -> (ij.1 < n)%nat /\ (ij.2 < n)%nat) ->
  forall (l : PrunableLayer R) td ms acts,
  activities l = Some acts -> length acts = n -> mask_shape l = Some (n, n) ->
  exists r, prune_scan sm ntd idxs l td ms = Ok r.
Proof.
  intros Hsm. induction idxs as [|[i j] rest IH]; intros Hidx l td ms acts Ha Hlen Hmask.
  - simpl. eauto.
  - simpl.
    assert (Hrest : forall ij, ij ∈ rest -> (ij.1 < n)%nat /\ (ij.2 < n)%nat).
    { intros ij Hij. apply Hidx. by apply elem_of_cons; right. }
    destruct (Hidx (i, j)) as [Hi Hj]; [by apply elem_of_cons; left|]. simpl in Hi, Hj.
    destruct (_ || _); [by eapply IH|].
    unfold mat_index. destruct (Hsm i j Hi Hj) as [score ->]. simpl.
    rewrite Ha. simpl.
    destruct (lookup_lt_is_Some_2 acts i) as [ai ->]; [lia|].
    destruct (lookup_lt_is_Some_2 acts j) as [aj ->]; [lia|]. simpl.
    set (ij := if s_ltb ai aj then (j, i) else (i, j)).
    assert (Hij : (ij.2 < n)%nat) by (unfold ij; by destruct (s_ltb ai aj)).
    unfold mask_shape in Hmask. destruct (mask l) as [m|] eqn:Hm; [|done].
    simpl in Hmask. injection Hmask as Hr Hc. simpl.
    unfold mat_set_row. rewrite py_index_nat by lia. simpl.
    unfold mat_set_col. simpl. rewrite py_index_nat by lia. simpl.
    destruct (_ >=? _); [eauto|].
    eapply IH; [done|exact Ha|done|].
    unfold mask_shape, m_nrows. simpl.
    rewrite length_fmap, length_alter. fold (m_nrows m). by rewrite Hr, Hc.
Qed.

End OrderFacts.

(** ** The phases of [prune] *)

Section PruneFacts.
Context {R : Type} `{Scalar R}.

Lemma prune_init_frame (l l' : PrunableLayer R) :
  prune_init l = Ok l' -> init_frame l l'.
Proof.
  unfold prune_init, initialize_mask, derive_step_size, init_frame.
  destruct (mask l) eqn:Hm.
  - intros [= <-]. tauto.
  - intros Hi. inv_ok. destruct (n_steps _ =? 0); [discriminate|].
    injection Hi as <-. simpl. tauto.
Qed.

(** The first call: the mask has the shape of [dists] and the step size
    is the quotient plus one. *)
Lemma prune_init_first (l : PrunableLayer R) (d : matrix R) :
  mask l = None -> dists l = Some d -> n_steps l <> 0 ->
  exists l', prune_init l = Ok l' /\
    mask_shape l' = Some (m_nrows d, m_cols d) /\
    get_size l' = Ok (Z.of_nat (m_nrows d)) /\
    step_size l' = Some ((Z.of_nat (m_nrows d) - trg_size l) / n_steps l + 1).
Proof.
  intros Hm Hd Hn. unfold prune_init, initialize_mask. rewrite Hm, Hd. simpl.
  unfold derive_step_size, get_size. simpl. unfold np_triu.
  rewrite mat_init_nrows, mat_map_nrows.
  apply Z.eqb_neq in Hn. rewrite Hn. eexists. split; [done|].
  unfold mask_shape, get_size. simpl.
  by rewrite mat_init_nrows.
Qed.

Lemma normalize_Ok (l l' : PrunableLayer R) :
  normalize l = Ok l' ->
  exists d a, dists l = Some d /\ activities l = Some a /\
    l' = set_accumulators l (Some (mat_map (fun x => s_div x (n_obs l)) d))
           (Some ((fun x => s_div x (n_obs l)) <$> a)) (n_obs l) (obs l).
Proof. unfold normalize. intros Hn. inv_ok. eauto. Qed.

(** What the selection does to the layer, and how many pairs it chooses. *)
Lemma prune_select_spec (l l' : PrunableLayer R) (n : Z) td mn mx :
  prune_select l n = Ok (l', td, mn, mx) ->
  exists l0 sm,
    normalize l = Ok l0 /\ search_matrix l0 = Ok sm /\
    scan_frame l0 l' /\ mask_shape l' = mask_shape l /\
    pruned_neurons l' = pruned_neurons l ++ td.*2 /\
    NoDup (td.*2) /\
    (forall j, j ∈ td.*2 -> j ∉ pruned_neurons l) /\
    (td <> [] -> is_Some mx) /\ (td = [] -> mx = None) /\
    (0 < n ->
       Z.of_nat (length td) = n \/
       (Z.of_nat (length td) < n /\
        forall ij, ij ∈ scan_order sm ->
          ij.1 ∈ pruned_neurons l' \/ ij.2 ∈ pruned_neurons l')).
Proof.
  unfold prune_select. intros Hsel.
  apply bind_Ok in Hsel as (l0 & Hnorm & Hsel).
  apply bind_Ok in Hsel as (sm & Hsm & Hsel).
  apply bind_Ok in Hsel as (mn' & Hmin & Hsel).
  apply bind_Ok in Hsel as ([[l2 td2] mx2] & Hscan & Hsel).
  simpl in Hsel. injection Hsel as -> -> -> ->.
  apply prune_scan_spec in Hscan
    as (new & Htd & Hp & Hf & Hm & Hnd & Hfresh & Hms & Hms0 & Hk).
  simpl in Htd. subst new.
  destruct (normalize_Ok _ _ Hnorm) as (d & acts & Hd & Hacts & ->).
  eexists _, sm. split_and!; done.
Qed.

(** [prune], once its first two steps are known. *)
Lemma prune_unfold (l l1 l2 : PrunableLayer R) (n : Z) td mn mx
    (params : gmap string (ndarray R)) :
  prune_init l = Ok l1 -> n_to_delete_of l1 = Ok n -> 0 < n ->
  prune_select l1 n = Ok (l2, td, mn, mx) ->
  prune l params =
    (p ← compensate_for_pruning td l2 params;
     s ← or_raise UnboundLocalError mx;
     Ok (l2, p, Some (prune_log l2 td mn s))).
Proof.
  intros Hi Hn Hpos Hsel. unfold prune. rewrite Hi. simpl. rewrite Hn. simpl.
  replace (n <=? 0) with false by lia. rewrite Hsel. simpl. done.
Qed.

Lemma prune_Ok_pruned (l l' : PrunableLayer R) params params' lg :
  prune l params = Ok (l', params', Some lg) ->
  exists l1 n td mn mx,
    prune_init l = Ok l1 /\ n_to_delete_of l1 = Ok n /\ 0 < n /\
    prune_select l1 n = Ok (l', td, mn, Some mx) /\
    compensate_for_pruning td l' params = Ok params' /\
    lg = prune_log l' td mn mx.
Proof.
  unfold prune. intros Hp.
  apply bind_Ok in Hp as (l1 & Hinit & Hp).
  apply bind_Ok in Hp as (n & Hn & Hp).
  destruct (n <=? 0) eqn:Hle; [discriminate|].
  apply bind_Ok in Hp as ([[[l2 td] mn] mx] & Hsel & Hp).
  apply bind_Ok in Hp as (p & Hcomp & Hp).
  apply bind_Ok in Hp as (s & Hs%or_raise_Ok & Hp).
  injection Hp as <- <- <-. subst mx.
  exists l1, n, td, mn, s. split_and!; try done. lia.
Qed.

End PruneFacts.

(** ** The selection on a layer of [n] neurons *)

Section SquareFacts.
Context {R : Type} `{Scalar R}.

Lemma mat_binop_square (f : R -> R -> R) (a b : matrix R) (n : nat) :
  m_nrows a = n -> m_cols a = n -> m_nrows b = n -> m_cols b = n ->
  exists g, mat_binop f a b = Ok (mat_init n n g).
Proof.
  intros Har Hac Hbr Hbc. unfold mat_binop.
  rewrite Har, Hac, Hbr, Hbc, broadcast_dim_same. simpl. eauto.
Qed.

Lemma normalize_accumulated (n : nat) (l : PrunableLayer R) :
  accumulated n l ->
  exists l0, normalize l = Ok l0 /\ accumulated n l0 /\
    mask l0 = mask l /\ pruned_neurons l0 = pruned_neurons l.
Proof.
  intros (d & a & Hd & Ha & Hr & Hc & Hlen). unfold normalize.
  rewrite Ha, Hd. simpl. eexists. split; [done|]. split; [|done].
  eexists _, _. simpl. split_and!; try done.
  - by rewrite mat_map_nrows.
  - by rewrite length_fmap.
Qed.

Lemma search_matrix_square (n : nat) (l : PrunableLayer R) :
  accumulated n l -> mask_shape l = Some (n, n) ->
  exists g, search_matrix l = Ok (mat_init n n g).
Proof.
  intros (d & a & Hd & Ha & Hr & Hc & Hlen) Hm. unfold search_matrix.
  rewrite Ha, Hd. simpl. unfold mask_shape in Hm.
  destruct (mask l) as [m|]; [|done]. simpl in *. injection Hm as Hmr Hmc.
  unfold get_activity_discounts, _get_activity_discounts_min. rewrite Hlen.
  destruct (mat_binop_square s_mul d
              (mat_init n n (fun i j => np_minimum (default s_zero (a !! i))
                                          (default s_zero (a !! j)))) n)
    as [g1 ->]; try done; [apply mat_init_nrows|]. simpl.
  apply mat_binop_square; try done. apply mat_init_nrows.
Qed.

(** On a layer of [n > 0] neurons the selection raises nothing. *)
Lemma prune_select_total (n : nat) (l : PrunableLayer R) (ntd : Z) :
  accumulated n l -> mask_shape l = Some (n, n) -> (0 < n)%nat ->
  exists l' td mn mx, prune_select l ntd = Ok (l', td, mn, mx).
Proof.
  intros Hacc Hm Hn. unfold prune_select.
  destruct (normalize_accumulated n l Hacc) as (l0 & -> & Hacc0 & Hm0 & _). simpl.
  assert (Hms : mask_shape l0 = Some (n, n)) by (unfold mask_shape; by rewrite Hm0).
  destruct (search_matrix_square n l0 Hacc0 Hms) as [g ->]. simpl.
  set (sm := mat_init n n g).
  assert (Hrange : forall ij, ij ∈ scan_order sm -> (ij.1 < n)%nat /\ (ij.2 < n)%nat).
  { intros ij. apply scan_order_range; [apply mat_init_wf|apply mat_init_nrows|done]. }
  assert (Hdiag : (0%nat, 0%nat) ∈ scan_order sm).
  { apply (scan_order_diag sm n); [apply mat_init_wf|apply mat_init_nrows|done..]. }
  destruct Hacc0 as (d & a & Hd & Ha & _ & _ & Hlen).
  destruct (prune_scan_total sm ntd n (scan_order sm)) with (l := l0) (td := @nil (nat * nat))
    (ms := @None R) (acts := a) as [[[l2 td] mx] Hscan]; try done.
  { intros i j Hi Hj. unfold sm. rewrite mat_init_lookup by done. by eexists. }
  rewrite Hscan.
  destruct (scan_order sm) as [|[i j] rest] eqn:Hord.
  { by apply elem_of_nil in Hdiag. }
  destruct (Hrange (i, j)) as [Hi Hj]; [by apply elem_of_cons; left|].
  unfold sm at 1. rewrite mat_index_init by done. simpl. eauto.
Qed.

(** With at most as many pairs asked for as neurons are left, the
    selection chooses exactly that many: every unpruned neuron [i] is
    eligible through the diagonal position (i, i). *)
Lemma prune_select_count (n : nat) (l l' : PrunableLayer R) (ntd : Z) td mn mx :
  accumulated n l -> mask_shape l = Some (n, n) ->
  prune_select l ntd = Ok (l', td, mn, mx) ->
  0 < ntd -> ntd <= Z.of_nat n - Z.of_nat (length (pruned_neurons l)) ->
  Z.of_nat (length td) = ntd.
Proof.
  intros Hacc Hm Hsel Hpos Hle.
  destruct (prune_select_spec _ _ _ _ _ _ Hsel)
    as (l0 & sm & Hnorm & Hsm & _ & _ & Hp & _ & _ & _ & _ & Hk).
  destruct (Hk Hpos) as [Heq | [Hlt Hall]]; [done|exfalso].
  destruct (normalize_accumulated n l Hacc) as (l0' & Hnorm' & Hacc0 & Hm0 & _).
  rewrite Hnorm in Hnorm'. injection Hnorm' as <-.
  assert (Hms : mask_shape l0 = Some (n, n)) by (unfold mask_shape; by rewrite Hm0).
  destruct (search_matrix_square n l0 Hacc0 Hms) as [g Hsq].
  rewrite Hsm in Hsq. injection Hsq as ->.
  assert (Hsub : seq 0 n ⊆+ pruned_neurons l').
  { apply NoDup_submseteq; [apply NoDup_seq|]. intros i Hi%elem_of_seq.
    destruct (Hall (i, i)) as [Hin | Hin]; [|done..].
    apply (scan_order_diag _ n); [apply mat_init_wf|apply mat_init_nrows|done|lia]. }
  apply submseteq_length in Hsub.
  rewrite length_seq, Hp, length_app, length_fmap in Hsub. lia.
Qed.

End SquareFacts.

(** ** The step size and the number of neurons to delete *)

Lemma floor_plus_one_ceil (a n : Z) :
  0 < n -> a / n + 1 = ceil_div a n + (if a mod n =? 0 then 1 else 0).
Proof.
  intros Hn. unfold ceil_div.
  destruct (a mod n =? 0) eqn:Hmod.
  - apply Z.eqb_eq in Hmod. rewrite Z_div_zero_opp_full by done. lia.
  - apply Z.eqb_neq in Hmod. rewrite Z_div_nz_opp_full by (done || lia). lia.
Qed.

Section StepSize.
Context {R : Type} `{Scalar R}.

(** C3 (amended).  On the first [prune] of a layer (no mask yet, nothing
    pruned), with at least one step scheduled and a target not above the
    size, the derived step size is the floor of (unpruned count - target
    size) / steps, plus one.  That is the quotient rounded up when the
    steps do not divide the difference, and one more than it when they
    do.  (A negative quotient is left out: Python 2 and Python 3 round
    it differently.) *)
Theorem first_prune_step_size (l : PrunableLayer R) (d : matrix R) :
  mask l = None -> pruned_neurons l = [] -> dists l = Some d ->
  0 < n_steps l -> trg_size l <= Z.of_nat (m_nrows d) ->
  exists l' cnt,
    prune_init l = Ok l' /\
    count_unpruned_neurons l' = Ok cnt /\
    step_size l' = Some ((cnt - trg_size l) / n_steps l + 1) /\
    (cnt - trg_size l) / n_steps l + 1 =
      spec_step_size cnt (trg_size l) (n_steps l)
      + (if (cnt - trg_size l) mod n_steps l =? 0 then 1 else 0).
Proof.
  intros Hm Hp Hd Hn Ht.
  destruct (prune_init_first l d Hm Hd) as (l' & Hi & Hshape & Hsize & Hstep); [lia|].
  exists l', (Z.of_nat (m_nrows d)). split_and!; try done.
  - unfold count_unpruned_neurons. rewrite Hsize. simpl.
    destruct (prune_init_frame _ _ Hi) as (_ & _ & _ & _ & _ & _ & _ & -> & _).
    rewrite Hp. simpl. f_equal. lia.
  - by apply floor_plus_one_ceil.
Qed.

End StepSize.

(** C3, as stated, fails: for ten neurons, target 8 and one step the
    code derives 3, and the quotient 2/1 rounded up is 2. *)
Lemma first_prune_step_size_counterexample :
  exists l',
    prune_init ex_layer10 = Ok l' /\
    count_unpruned_neurons l' = Ok 10 /\
    step_size l' = Some 3 /\
    step_size l' <> Some (spec_step_size 10 (trg_size ex_layer10) (n_steps ex_layer10)).
Proof.
  eexists. split; [vm_compute; reflexivity|].
  split; [vm_compute; reflexivity|].
  split; [vm_compute; reflexivity|].
  vm_compute. intros [=].
Qed.

Lemma first_prune_step_size_witness :
  exists l' cnt,
    prune_init ex_layer10 = Ok l' /\
    count_unpruned_neurons l' = Ok cnt /\
    step_size l' = Some ((cnt - trg_size ex_layer10) / n_steps ex_layer10 + 1) /\
    (cnt - trg_size ex_layer10) / n_steps ex_layer10 + 1 =
      spec_step_size cnt (trg_size ex_layer10) (n_steps ex_layer10)
      + (if (cnt - trg_size ex_layer10) mod n_steps ex_layer10 =? 0 then 1 else 0).
Proof.
  apply (first_prune_step_size ex_layer10 ex_dists10).
  - reflexivity.
  - reflexivity.
  - reflexivity.
  - reflexivity.
  - vm_compute. discriminate.
Defined.

(** ** What one call of [prune] deletes *)

Section PruneClaims.
Context {R : Type} `{Scalar R}.

Lemma n_to_delete_count (l : PrunableLayer R) (n : Z) :
  n_to_delete_of l = Ok n ->
  exists c step, count_unpruned_neurons l = Ok c /\ step_size l = Some step /\
    n = Z.min (c - trg_size l) step.
Proof.
  unfold n_to_delete_of. intros Hn.
  apply bind_Ok in Hn as (c & Hc & Hn).
  apply bind_Ok in Hn as (step & Hs%or_raise_Ok & Hn).
  injection Hn as <-. eauto.
Qed.

Lemma count_unpruned_shape (l l' : PrunableLayer R) (c : Z) (new : list nat) :
  count_unpruned_neurons l = Ok c ->
  mask_shape l' = mask_shape l ->
  pruned_neurons l' = pruned_neurons l ++ new ->
  count_unpruned_neurons l' = Ok (c - Z.of_nat (length new)).
Proof.
  unfold count_unpruned_neurons, get_size, mask_shape. intros Hc Hm Hp.
  destruct (mask l) as [m|]; [|discriminate].
  destruct (mask l') as [m'|]; [|discriminate].
  simpl in *. injection Hm as Hr _. injection Hc as <-.
  rewrite Hp, length_app, Hr. f_equal. lia.
Qed.

(** C4.  Ten neurons, target 8, one step, nothing pruned: the first
    [prune] derives the step size 3, takes [n_to_delete] = min (10 - 8, 3)
    = 2, and its scan chooses exactly two pairs, so that two neurons are
    pruned; what the call returns is then up to the compensation. *)
Theorem prune_ten_to_eight (l : PrunableLayer R) (params : gmap string (ndarray R)) :
  mask l = None -> pruned_neurons l = [] -> accumulated 10 l ->
  trg_size l = 8 -> n_steps l = 1 ->
  exists l1 l2 td mn mx,
    prune_init l = Ok l1 /\ step_size l1 = Some 3 /\
    n_to_delete_of l1 = Ok (Z.min (10 - 8) 3) /\
    prune_select l1 2 = Ok (l2, td, mn, Some mx) /\
    length td = 2%nat /\ NoDup (td.*2) /\
    pruned_neurons l2 = td.*2 /\ length (pruned_neurons l2) = 2%nat /\
    count_unpruned_neurons l2 = Ok 8 /\
    prune l params =
      (p ← compensate_for_pruning td l2 params;
       Ok (l2, p, Some (prune_log l2 td mn mx))).
Proof.
  intros Hm Hp Hacc Ht Hs.
  destruct Hacc as (d & a & Hd & Ha & Hr & Hc & Hlen).
  destruct (prune_init_first l d Hm Hd) as (l1 & Hi & Hshape & Hsize & Hstep); [lia|].
  destruct (prune_init_frame _ _ Hi)
    as (_ & Hd1 & Ha1 & _ & Ht1 & _ & _ & Hp1 & _).
  rewrite Hr, Hc in *. rewrite Ht, Hs in Hstep. change ((10 - 8) / 1 + 1) with 3 in Hstep.
  assert (Hcnt : count_unpruned_neurons l1 = Ok 10).
  { unfold count_unpruned_neurons. rewrite Hsize, Hp1, Hp. done. }
  assert (Hn : n_to_delete_of l1 = Ok 2).
  { unfold n_to_delete_of. rewrite Hcnt, Hstep, Ht1, Ht. done. }
  assert (Hacc1 : accumulated 10 l1).
  { exists d, a. rewrite Hd1, Ha1. done. }
  destruct (prune_select_total 10 l1 2 Hacc1 Hshape) as (l2 & td & mn & mx & Hsel); [lia|].
  assert (Hk : Z.of_nat (length td) = 2).
  { apply (prune_select_count 10 l1 l2 2 td mn mx); try done. rewrite Hp1, Hp. simpl. lia. }
  destruct (prune_select_spec _ _ _ _ _ _ Hsel)
    as (l0 & sm & _ & _ & _ & Hms & Hp2 & Hnd & _ & Hmx & _).
  destruct Hmx as [s ->]. { intros ->. simpl in Hk. lia. }
  rewrite Hp1, Hp in Hp2. simpl in Hp2.
  exists l1, l2, td, mn, s. split_and!; try done.
  - lia.
  - rewrite Hp2, length_fmap. lia.
  - replace 8 with (10 - Z.of_nat (length (td.*2))) by (rewrite length_fmap; lia).
    apply (count_unpruned_shape l1); try done. by rewrite Hp1, Hp.
  - by rewrite (prune_unfold l l1 l2 2 td mn (Some s) params).
Qed.

(** C5.  A [prune] call whose scan chooses the pairs [td] appends their
    deleted neurons to [pruned_neurons]: they are pairwise distinct and
    were not pruned, so [count_unpruned_neurons] goes down by exactly
    [length td].  That number is [n_to_delete], unless the scan has read
    every position and each has a pruned index, and then it is smaller.
    The layer is the one [prune] returns, and the number the one it logs. *)
Theorem prune_count_decreases (l l1 l' : PrunableLayer R) (n : Z) td mn mx :
  prune_init l = Ok l1 -> n_to_delete_of l1 = Ok n -> 0 < n ->
  prune_select l1 n = Ok (l', td, mn, mx) ->
  (exists c, count_unpruned_neurons l1 = Ok c /\
     count_unpruned_neurons l' = Ok (c - Z.of_nat (length td))) /\
  pruned_neurons l' = pruned_neurons l ++ td.*2 /\
  NoDup (td.*2) /\
  (forall j, j ∈ td.*2 -> j ∉ pruned_neurons l) /\
  (Z.of_nat (length td) = n \/
   (Z.of_nat (length td) < n /\
    exists l0 sm, normalize l1 = Ok l0 /\ search_matrix l0 = Ok sm /\
      forall ij, ij ∈ scan_order sm ->
        ij.1 ∈ pruned_neurons l' \/ ij.2 ∈ pruned_neurons l')) /\
  (forall params r, prune l params = Ok r ->
     r.1.1 = l' /\ log_pruned <$> r.2 = Some (length td)).
Proof.
  intros Hi Hn Hpos Hsel.
  destruct (prune_init_frame _ _ Hi) as (_ & _ & _ & _ & _ & _ & _ & Hp1 & _).
  destruct (prune_select_spec _ _ _ _ _ _ Hsel)
    as (l0 & sm & Hnorm & Hsm & _ & Hms & Hp & Hnd & Hfresh & _ & _ & Hk).
  destruct (n_to_delete_count _ _ Hn) as (c & step & Hc & _ & _).
  rewrite Hp1 in *. split_and!; try done.
  - exists c. split; [done|].
    rewrite <- (length_fmap snd td). apply (count_unpruned_shape l1); try done.
    by rewrite Hp1.
  - destruct (Hk Hpos) as [Heq | [Hlt Hall]]; [by left|right].
    split; [done|]. by exists l0, sm.
  - intros params r Hr.
    rewrite (prune_unfold l l1 l' n td mn mx params) in Hr by done.
    apply bind_Ok in Hr as (p & _ & Hr). apply bind_Ok in Hr as (s & _ & Hr).
    injection Hr as <-. done.
Qed.

(** C6.  If [n_to_delete] is not positive, [prune] resets the
    accumulators (distances, activity sums, observation count, stored
    observations) and returns; the pruned neurons and the weight store
    are as they were. *)
Theorem prune_enough_resets (l l1 : PrunableLayer R) (n : Z)
    (params : gmap string (ndarray R)) :
  prune_init l = Ok l1 -> n_to_delete_of l1 = Ok n -> n <= 0 ->
  prune l params = Ok (reset l1, params, None) /\
  dists (reset l1) = None /\ activities (reset l1) = None /\
  n_obs (reset l1) = s_zero /\ obs (reset l1) = [] /\
  pruned_neurons (reset l1) = pruned_neurons l.
Proof.
  intros Hi Hn Hle. split_and!; try done.
  - unfold prune. rewrite Hi. simpl. rewrite Hn. simpl.
    by replace (n <=? 0) with true by lia.
  - simpl. by destruct (prune_init_frame _ _ Hi) as (_ & _ & _ & _ & _ & _ & _ & -> & _).
Qed.

End PruneClaims.

Lemma prune_ten_to_eight_witness :
  exists l1 l2 td mn mx,
    prune_init ex_layer10 = Ok l1 /\ step_size l1 = Some 3 /\
    n_to_delete_of l1 = Ok (Z.min (10 - 8) 3) /\
    prune_select l1 2 = Ok (l2, td, mn, Some mx) /\
    length td = 2%nat /\ NoDup (td.*2) /\
    pruned_neurons l2 = td.*2 /\ length (pruned_neurons l2) = 2%nat /\
    count_unpruned_neurons l2 = Ok 8 /\
    prune ex_layer10 ∅ =
      (p ← compensate_for_pruning td l2 ∅;
       Ok (l2, p, Some (prune_log l2 td mn mx))).
Proof.
  apply (prune_ten_to_eight ex_layer10 ∅).
  - reflexivity.
  - reflexivity.
  - exists ex_dists10, ex_acts10. repeat split.
  - reflexivity.
  - reflexivity.
Defined.

Lemma prune_count_decreases_witness :
  (exists c, count_unpruned_neurons ex_layer10_init = Ok c /\
     count_unpruned_neurons ex_select10.1.1.1
     = Ok (c - Z.of_nat (length ex_select10.1.1.2))) /\
  pruned_neurons ex_select10.1.1.1
  = pruned_neurons ex_layer10 ++ ex_select10.1.1.2.*2 /\
  NoDup (ex_select10.1.1.2.*2) /\
  (forall j, j ∈ ex_select10.1.1.2.*2 -> j ∉ pruned_neurons ex_layer10) /\
  (Z.of_nat (length ex_select10.1.1.2) = 2 \/
   (Z.of_nat (length ex_select10.1.1.2) < 2 /\
    exists l0 sm, normalize ex_layer10_init = Ok l0 /\ search_matrix l0 = Ok sm /\
      forall ij, ij ∈ scan_order sm ->
        ij.1 ∈ pruned_neurons ex_select10.1.1.1
        \/ ij.2 ∈ pruned_neurons ex_select10.1.1.1)) /\
  (forall params r, prune ex_layer10 params = Ok r ->
     r.1.1 = ex_select10.1.1.1 /\
     log_pruned <$> r.2 = Some (length ex_select10.1.1.2)).
Proof.
  apply (prune_count_decreases ex_layer10 ex_layer10_init ex_select10.1.1.1 2
           ex_select10.1.1.2 ex_select10.1.2 ex_select10.2).
  - vm_compute. reflexivity.
  - vm_compute. reflexivity.
  - lia.
  - vm_compute. reflexivity.
Defined.

Lemma prune_enough_resets_witness :
  prune ex_layer_done ∅ = Ok (reset ex_layer_done_init, ∅, None) /\
  dists (reset ex_layer_done_init) = None /\
  activities (reset ex_layer_done_init) = None /\
  n_obs (reset ex_layer_done_init) = s_zero /\
  obs (reset ex_layer_done_init) = [] /\
  pruned_neurons (reset ex_layer_done_init) = pruned_neurons ex_layer_done.
Proof.
  apply (prune_enough_resets ex_layer_done ex_layer_done_init 0 ∅).
  - vm_compute. reflexivity.
  - vm_compute. reflexivity.
  - lia.
Defined.

Section NeverShort.
Context {R : Type} `{Scalar R}.

(** With a target size that is not negative, the scan of [prune] never
    runs out of pairs: on a layer of [n] neurons it returns, with exactly
    [n_to_delete] pairs.  A neuron that is not pruned is eligible on its
    own, through the diagonal position (i, i) of the search matrix, which
    the mask makes costly but does not remove from the scan. *)
Theorem prune_deletes_as_asked (n : nat) (l1 : PrunableLayer R) (ntd : Z) :
  accumulated n l1 -> mask_shape l1 = Some (n, n) -> 0 <= trg_size l1 ->
  n_to_delete_of l1 = Ok ntd -> 0 < ntd ->
  (exists l' td mn mx, prune_select l1 ntd = Ok (l', td, mn, mx)) /\
  (forall l' td mn mx, prune_select l1 ntd = Ok (l', td, mn, mx) ->
     Z.of_nat (length td) = ntd).
Proof.
  intros Hacc Hm Ht Hn Hpos.
  destruct (n_to_delete_count _ _ Hn) as (c & step & Hc & _ & ->).
  assert (Hcn : c = Z.of_nat n - Z.of_nat (length (pruned_neurons l1))).
  { unfold count_unpruned_neurons, get_size, mask_shape in *.
    destruct (mask l1) as [m|]; [|discriminate]. cbn in *.
    injection Hm as Hr _. injection Hc as <-. by rewrite Hr. }
  split.
  - apply (prune_select_total n); [done|done|lia].
  - intros l' td mn mx Hsel.
    apply (prune_select_count n l1 l' _ td mn mx); [done|done|done|done|lia].
Qed.

End NeverShort.

Lemma prune_deletes_as_asked_witness :
  (exists l' td mn mx, prune_select ex_layer10_init 2 = Ok (l', td, mn, mx)) /\
  (forall l' td mn mx, prune_select ex_layer10_init 2 = Ok (l', td, mn, mx) ->
     Z.of_nat (length td) = 2).
Proof.
  apply (prune_deletes_as_asked 10 ex_layer10_init 2).
  - exists ex_dists10, ex_acts10. repeat split.
  - vm_compute. reflexivity.
  - vm_compute. discriminate.
  - vm_compute. reflexivity.
  - lia.
Defined.

Section Frame.
Context {R : Type} `{Scalar R}.

Lemma register_activities_Ok (l l'' : PrunableLayer R) (batch d : matrix R) (a : list R) :
  dists l = Some d -> activities l = Some a ->
  register_activities l batch = Ok l'' ->
  exists d'' a'',
    mat_iadd d (batch_dists_sq (transpose batch)) = Ok d'' /\
    vec_iadd a (row_sq_norms (transpose batch)) = Ok a'' /\
    dists l'' = Some d'' /\ activities l'' = Some a'' /\
    n_obs l'' = s_add (n_obs l) (s_of_Z (Z.of_nat (m_nrows batch))) /\
    pruned_neurons l'' = pruned_neurons l.
Proof.
  intros Hd Ha. unfold register_activities. rewrite Hd, Ha. simpl. intros Hr.
  apply bind_Ok in Hr as ([d'' a''] & Hda & Hr).
  apply bind_Ok in Hda as (d2 & Hd2 & Hda).
  apply bind_Ok in Hda as (a2 & Ha2 & Hda).
  injection Hda as <- <-. injection Hr as <-. simpl. eauto 10.
Qed.

(** C10.  A [prune] call that has pruned (it logs at least one pair)
    does not reset: [dists] and [activities] are left divided by the
    observation count, [n_obs] and the stored observations are as before
    the call, and the next [register_activities] adds the sums of its
    batch onto these means. *)
Theorem prune_keeps_accumulators (l l' : PrunableLayer R)
    (params params' : gmap string (ndarray R)) (lg : PruneLog R) :
  prune l params = Ok (l', params', Some lg) ->
  (1 <= log_pruned lg)%nat /\
  exists d a,
    dists l = Some d /\ activities l = Some a /\
    dists l' = Some (mat_map (fun x => s_div x (n_obs l)) d) /\
    activities l' = Some ((fun x => s_div x (n_obs l)) <$> a) /\
    n_obs l' = n_obs l /\ obs l' = obs l /\
    forall batch l'', register_activities l' batch = Ok l'' ->
      exists d'' a'',
        mat_iadd (mat_map (fun x => s_div x (n_obs l)) d)
                 (batch_dists_sq (transpose batch)) = Ok d'' /\
        vec_iadd ((fun x => s_div x (n_obs l)) <$> a)
                 (row_sq_norms (transpose batch)) = Ok a'' /\
        dists l'' = Some d'' /\ activities l'' = Some a'' /\
        n_obs l'' = s_add (n_obs l) (s_of_Z (Z.of_nat (m_nrows batch))).
Proof.
  intros Hp.
  destruct (prune_Ok_pruned _ _ _ _ _ Hp)
    as (l1 & n & td & mn & mx & Hi & Hn & Hpos & Hsel & _ & ->).
  destruct (prune_init_frame _ _ Hi) as (_ & Hd1 & Ha1 & Hn1 & _ & _ & _ & _ & Ho1 & _).
  destruct (prune_select_spec _ _ _ _ _ _ Hsel)
    as (l0 & sm & Hnorm & _ & Hf & _ & _ & _ & _ & _ & Hmx & _).
  destruct (normalize_Ok _ _ Hnorm) as (d & a & Hd & Ha & ->).
  destruct Hf as (_ & Hd' & Ha' & Hn' & _ & _ & _ & _ & Ho' & _). simpl in *.
  split.
  - destruct td; [by specialize (Hmx eq_refl)|simpl; lia].
  - rewrite Hd1 in Hd. rewrite Ha1 in Ha. rewrite Hn1 in *. rewrite Ho1 in *.
    exists d, a. split_and!; try done.
    intros batch l'' Hreg.
    destruct (register_activities_Ok _ _ _ _ _ Hd' Ha' Hreg)
      as (d'' & a'' & ? & ? & ? & ? & Hn'' & _).
    exists d'', a''. rewrite Hn' in Hn''. done.
Qed.

End Frame.

Lemma prune_keeps_accumulators_witness :
  (1 <= log_pruned ex_log10)%nat /\
  exists d a,
    dists ex_layer10 = Some d /\ activities ex_layer10 = Some a /\
    dists ex_pruned10.1.1 = Some (mat_map (fun x => s_div x (n_obs ex_layer10)) d) /\
    activities ex_pruned10.1.1 = Some ((fun x => s_div x (n_obs ex_layer10)) <$> a) /\
    n_obs ex_pruned10.1.1 = n_obs ex_layer10 /\
    obs ex_pruned10.1.1 = obs ex_layer10 /\
    forall batch l'', register_activities ex_pruned10.1.1 batch = Ok l'' ->
      exists d'' a'',
        mat_iadd (mat_map (fun x => s_div x (n_obs ex_layer10)) d)
                 (batch_dists_sq (transpose batch)) = Ok d'' /\
        vec_iadd ((fun x => s_div x (n_obs ex_layer10)) <$> a)
                 (row_sq_norms (transpose batch)) = Ok a'' /\
        dists l'' = Some d'' /\ activities l'' = Some a'' /\
        n_obs l'' = s_add (n_obs ex_layer10) (s_of_Z (Z.of_nat (m_nrows batch))).
Proof.
  apply (prune_keeps_accumulators ex_layer10 ex_pruned10.1.1 ∅ ex_pruned10.1.2 ex_log10).
  vm_compute. reflexivity.
Defined.

(** ** The layout file *)

Lemma py_split_strip_blank (line : string) :
  py_strip line = "" -> py_split (py_strip line) = [].
Proof. by intros ->. Qed.

(** A line that yields a connection: the dictionary after it, read by
    lookup. *)
Lemma add_connection_adds {R : Type} (n : string) (c : Connection R)
    (st : gmap string (list (Connection R)) * list string) :
  adds_connection st (add_connection n c st.1, st.2) n c.
Proof.
  unfold adds_connection, add_connection. cbn [fst snd].
  destruct (st.1 !! n) as [cs|] eqn:Hn; cbn [default].
  - split_and!; [by rewrite lookup_insert_eq| |done].
    intros n' Hne. by rewrite lookup_insert_ne.
  - split_and!; [by rewrite lookup_insert_eq| |done].
    intros n' Hne. by rewrite lookup_insert_ne.
Qed.

Section LayoutClaims.
Variable py_int : string -> result Z.
Variable py_float : string -> result Q.

(** C8.  [int] and [float] are the builtins, of which the first part
    needs that they read [0] as 0 and [0.25] as 0.25.  The line
    [decgru in W_dec 0 0.25], with or without the end of line, yields a
    connection with direction [in], matrix name [W_dec], axis 0 and start
    offset 0.25 (1/4), and it is appended to the connections of the layer
    [decgru] in the dictionary, whose other entries stay.  A line of four
    fields yields a connection of its fields 2 to 4 with the start offset
    0.0, for the layer of its first field, when [int] reads the axis; it
    raises what [int] raises otherwise.  And a line that is not blank and
    has neither four nor five fields is logged and skipped: the call
    returns, the dictionary is the one it was, and the log has the
    warning more. *)
Theorem layout_line_fields
    (st : gmap string (list (Connection Q)) * list string) :
  py_int "0" = Ok 0 -> py_float "0.25" = Ok (1 # 4)%Q ->
  (forall line,
     line = "decgru in W_dec 0 0.25"%string \/
     line = ("decgru in W_dec 0 0.25" ++ newline)%string ->
     exists st' c,
       initialize_layers_line py_int py_float st line = Ok st' /\
       adds_connection st st' "decgru" c /\
       direction c = "in"%string /\ mat_name c = "W_dec"%string /\
       dim c = 0 /\ start_idx c = (1 # 4)%Q) /\
  (forall line p0 p1 p2 p3,
     py_split (py_strip line) = [p0; p1; p2; p3] ->
     match py_int p3 with
     | Ok d =>
         exists st',
           initialize_layers_line py_int py_float st line = Ok st' /\
           adds_connection st st' p0 (mkConnection p1 p2 d 0%Q)
     | Raise e => initialize_layers_line py_int py_float st line = Raise e
     end) /\
  (forall line,
     py_strip line <> "" ->
     length (py_split (py_strip line)) <> 4%nat ->
     length (py_split (py_strip line)) <> 5%nat ->
     initialize_layers_line py_int py_float st line
     = Ok (st.1, st.2 ++ [syntax_warning])).
Proof.
  intros Hint Hfloat. split_and!.
  - intros line Hline.
    exists (add_connection "decgru" (mkConnection "in" "W_dec" 0 (1 # 4)%Q) st.1, st.2),
           (mkConnection "in" "W_dec" 0 (1 # 4)%Q).
    split; [|split; [apply add_connection_adds|done]].
    unfold initialize_layers_line.
    assert (Hstrip : py_strip line = "decgru in W_dec 0 0.25"%string)
      by (by destruct Hline as [-> | ->]).
    rewrite Hstrip.
    change (py_split "decgru in W_dec 0 0.25")
      with ["decgru"; "in"; "W_dec"; "0"; "0.25"]%string.
    rewrite bool_decide_eq_false_2 by done. by rewrite Hint, Hfloat.
  - intros line p0 p1 p2 p3 Hparts.
    assert (Hrun : initialize_layers_line py_int py_float st line
                   = d ← py_int p3;
                     Ok (add_connection p0 (mkConnection p1 p2 d 0%Q) st.1, st.2)).
    { unfold initialize_layers_line. case_bool_decide as Hblank.
      - by rewrite py_split_strip_blank in Hparts.
      - by rewrite Hparts. }
    rewrite Hrun. destruct (py_int p3) as [d|e]; [|done].
    eexists. split; [done|]. apply add_connection_adds.
  - intros line Hblank H4 H5. unfold initialize_layers_line.
    rewrite bool_decide_eq_false_2 by done.
    destruct (py_split (py_strip line)) as [|p0 [|p1 [|p2 [|p3 [|p4 [|p5 ps]]]]]];
      simpl in *; done.
Qed.

End LayoutClaims.

(** The layer [decgru] with one connection already. *)
Lemma layout_line_fields_witness :
  (exists st',
     initialize_layers_line dec_int dec_float ex_layout_state "decgru in W_dec 0 0.25"
     = Ok st' /\
     st'.1 !! "decgru"%string
     = Some [mkConnection "out" "U_dec" 1 0%Q; mkConnection "in" "W_dec" 0 (1 # 4)%Q] /\
     st'.1 !! "encfwdgru"%string = None /\ st'.2 = []) /\
  (exists st',
     initialize_layers_line dec_int dec_float ex_layout_state "encfwdgru out W_enc 1"
     = Ok st' /\
     st'.1 !! "encfwdgru"%string = Some [mkConnection "out" "W_enc" 1 0%Q] /\
     st'.1 !! "decgru"%string = Some [mkConnection "out" "U_dec" 1 0%Q]) /\
  initialize_layers_line dec_int dec_float ex_layout_state "encfwdgru out W_enc one"
  = Raise ValueError /\
  initialize_layers_line dec_int dec_float ex_layout_state "decgru in W_dec"
  = Ok (ex_layout_state.1, [syntax_warning]).
Proof.
  destruct (layout_line_fields dec_int dec_float ex_layout_state)
    as (Hline & Hfour & Hskip).
  - reflexivity.
  - reflexivity.
  - split_and!.
    + destruct (Hline "decgru in W_dec 0 0.25"%string)
        as (st' & [di mn dm si] & Hrun & (Hl & Hother & Hlog) & Hd & Hm & Hdim & Hs).
      { left. reflexivity. }
      cbn in Hd, Hm, Hdim, Hs. subst di mn dm si.
      exists st'. split; [exact Hrun|]. split; [exact Hl|]. split; [|exact Hlog].
      rewrite Hother; [reflexivity|discriminate].
    + pose proof (Hfour "encfwdgru out W_enc 1"%string "encfwdgru"%string "out"%string
                    "W_enc"%string "1"%string eq_refl) as Hf.
      change (dec_int "1") with (@Ok Z 1) in Hf.
      destruct Hf as (st' & Hrun & Hl & Hother & _).
      exists st'. split; [exact Hrun|]. split; [exact Hl|].
      rewrite Hother; [reflexivity|discriminate].
    + exact (Hfour "encfwdgru out W_enc one"%string "encfwdgru"%string "out"%string
               "W_enc"%string "one"%string eq_refl).
    + apply (Hskip "decgru in W_dec"%string); vm_compute; discriminate.
Defined.

(** ** [KenLMPredictor.is_equal] *)

Lemma state_not_module_name : "state"%string ∉ KenLM.module_names.
Proof.
  unfold KenLM.module_names. rewrite elem_of_list_to_set.
  intros Hin. repeat (apply elem_of_cons in Hin as [[=] | Hin]).
  by apply elem_of_nil in Hin.
Qed.

Lemma load_name_unbound (State : Type)
    (locals globals builtins : gmap string (KenLM.pyval State)) (x : string) :
  locals !! x = None -> globals !! x = None -> builtins !! x = None ->
  KenLM.load_name State locals globals builtins x = Raise NameError.
Proof. unfold KenLM.load_name. by intros -> -> ->. Qed.

(** C9.  Whatever the two states are, [is_equal] raises [NameError]: its
    body reads [state], which is no argument, no global of the module and
    no builtin; so it never returns the comparison of the states. *)
Theorem is_equal_raises_NameError (State : Type) (state_eq : State -> State -> bool)
    (globals builtins : gmap string (KenLM.pyval State)) (self : KenLM.pyval State)
    (state1 state2 : State) :
  dom globals ⊆ KenLM.module_names -> builtins !! "state"%string = None ->
  KenLM.is_equal State state_eq globals builtins self state1 state2 = Raise NameError /\
  forall b, KenLM.is_equal State state_eq globals builtins self state1 state2
            <> Ok (KenLM.VBool State b).
Proof.
  intros Hglobals Hbuiltins.
  assert (Hraise : KenLM.is_equal State state_eq globals builtins self state1 state2
                   = Raise NameError).
  { unfold KenLM.is_equal, KenLM.is_equal_body.
    set (locals := <["self"%string := self]> _).
    assert (Hl : locals !! "state"%string = None).
    { unfold locals. rewrite !lookup_insert_ne by done. apply lookup_empty. }
    assert (Hg : globals !! "state"%string = None).
    { apply not_elem_of_dom. intros Hin. apply state_not_module_name. by apply Hglobals. }
    cbn [KenLM.eval]. by rewrite (load_name_unbound _ _ _ _ _ Hl Hg Hbuiltins). }
  split; [done|]. intros b. by rewrite Hraise.
Qed.

Lemma is_equal_raises_NameError_witness :
  KenLM.is_equal unit (fun _ _ => true) ∅ ∅ (KenLM.VObject unit "self") tt tt
  = Raise NameError /\
  forall b, KenLM.is_equal unit (fun _ _ => true) ∅ ∅ (KenLM.VObject unit "self") tt tt
            <> Ok (KenLM.VBool unit b).
Proof.
  apply (is_equal_raises_NameError unit (fun _ _ => true) ∅ ∅).
  - rewrite dom_empty_L. apply empty_subseteq.
  - reflexivity.
Defined.

(** ** The sum compensation *)

Section CompensationFacts.
Context {R : Type} `{Scalar R}.

Lemma shape_axis_len (a a' : ndarray R) (d : Z) :
  shape a = shape a' -> axis_len a d = axis_len a' d.
Proof.
  destruct a as [v|m], a' as [v'|m']; simpl; intros Hs; try discriminate.
  - injection Hs as Hs. f_equal. lia.
  - injection Hs as Hr Hc. apply Nat2Z.inj in Hr, Hc. by rewrite Hr, Hc.
Qed.

Lemma shape_in_slice (a a' : ndarray R) (d : Z) (k r c : nat) :
  shape a = shape a' -> in_slice a d k r c = in_slice a' d k r c.
Proof. destruct a, a'; simpl; intros Hs; by try discriminate. Qed.

Lemma shape_target_hit (a a' : ndarray R) (d t : Z) (r c : nat) :
  shape a = shape a' -> target_hit a d t r c = target_hit a' d t r c.
Proof.
  intros Hs. unfold target_hit. rewrite (shape_axis_len a a' d Hs).
  destruct (axis_len a' d); [|done]. destruct (py_index _ _); [|done].
  by apply shape_in_slice.
Qed.

Lemma shape_conn_offset (conn : Connection R) (a a' : ndarray R) :
  shape a = shape a' -> conn_offset conn a = conn_offset conn a'.
Proof. intros Hs. unfold conn_offset, shape_at. by rewrite Hs. Qed.

Lemma shape_conn_hit (mx : bool) (j : nat) (conn : Connection R) (nm : string)
    (a a' : ndarray R) (r c : nat) :
  shape a = shape a' -> conn_hit mx j conn nm a r c = conn_hit mx j conn nm a' r c.
Proof.
  intros Hs. unfold conn_hit. rewrite (shape_conn_offset conn a a' Hs).
  destruct (conn_offset conn a'); [|done]. f_equal.
  induction (targets _ _ _) as [|t ts IH]; simpl; [done|].
  by rewrite IH, (shape_target_hit a a' _ t r c Hs).
Qed.

(** [set_zero_in_mat] keeps the shape, zeroes the slice that [idx] names
    and changes no other entry. *)
Lemma set_zero_in_mat_spec (a a' : ndarray R) (d idx : Z) :
  set_zero_in_mat a d idx = Ok a' ->
  shape a' = shape a /\
  (forall len, axis_len a d = Some len -> exists k, py_index len idx = Ok k) /\
  forall r c, arr_get a' r c
              = if target_hit a d idx r c then (fun _ => s_zero) <$> arr_get a r c
                else arr_get a r c.
Proof.
  unfold set_zero_in_mat, target_hit. destruct a as [v|m]; simpl.
  - intros Hz. apply bind_Ok in Hz as (k & Hk & Hz). injection Hz as <-.
    rewrite Hk. simpl. rewrite length_insert. split; [done|]. split.
    { intros len [= <-]. eauto. }
    apply py_index_Ok in Hk as [Hk _]. intros r c.
    destruct (Nat.eqb_spec c 0) as [->|Hc]; simpl.
    + destruct (Nat.eqb_spec r k) as [->|Hr]; simpl.
      * rewrite list_lookup_insert_eq by done.
        by destruct (lookup_lt_is_Some_2 v k Hk) as [x ->].
      * by rewrite list_lookup_insert_ne.
    + by rewrite andb_false_r.
  - destruct (d =? 0) eqn:Hd0; [|destruct (d =? 1) eqn:Hd1].
    + unfold mat_set_row. intros Hz. apply fmap_Ok in Hz as (m' & Hm' & ->).
      apply bind_Ok in Hm' as (k & Hk & Hm'). injection Hm' as <-.
      unfold m_nrows in *. rewrite Hk. cbn [shape arr_get m_rows m_cols].
      unfold m_nrows. cbn [m_rows]. rewrite length_alter.
      split; [done|]. split. { intros len [= <-]. eauto. }
      intros r c. destruct (Nat.eqb_spec r k) as [->|Hr].
      * rewrite list_lookup_alter_eq.
        destruct (m_rows m !! k) as [row|]; simpl; [|done].
        by rewrite list_lookup_fmap.
      * by rewrite list_lookup_alter_ne.
    + unfold mat_set_col. intros Hz. apply fmap_Ok in Hz as (m' & Hm' & ->).
      apply bind_Ok in Hm' as (k & Hk & Hm'). injection Hm' as <-.
      unfold m_nrows in *. rewrite Hk. cbn [shape arr_get m_rows m_cols].
      unfold m_nrows. cbn [m_rows]. rewrite length_fmap.
      split; [done|]. split. { intros len [= <-]. eauto. }
      intros r c. rewrite list_lookup_fmap.
      destruct (m_rows m !! r) as [row|]; simpl; [|by destruct (c =? k)%nat].
      destruct (Nat.eqb_spec c k) as [->|Hc].
      * destruct (decide (k < length row)%nat) as [Hlt|Hge].
        -- rewrite list_lookup_insert_eq by done.
           by destruct (lookup_lt_is_Some_2 row k Hlt) as [x ->].
        -- rewrite list_insert_ge by lia. by rewrite lookup_ge_None_2 by lia.
      * by rewrite list_lookup_insert_ne.
    + intros [= <-]. split; [done|]. split; [by intros len|done].
Qed.

End CompensationFacts.

Section StoreFacts.
Context {R : Type} `{Scalar R}.

Lemma zeroed_store_refl (P : gmap string (ndarray R)) :
  zeroed_store (fun _ _ _ _ => false) P P.
Proof. intros nm. destruct (P !! nm) as [a|] eqn:Ha; [|done]. by exists a. Qed.

Lemma zeroed_store_trans (h1 h2 : string -> ndarray R -> nat -> nat -> bool)
    (P P' P'' : gmap string (ndarray R)) :
  (forall nm a a' r c, shape a = shape a' -> h2 nm a r c = h2 nm a' r c) ->
  zeroed_store h1 P P' -> zeroed_store h2 P' P'' ->
  zeroed_store (fun nm a r c => h1 nm a r c || h2 nm a r c) P P''.
Proof.
  intros Hinv Hz1 Hz2 nm. specialize (Hz1 nm). specialize (Hz2 nm).
  destruct (P !! nm) as [a|].
  - destruct Hz1 as (a' & Ha' & Hs' & Hget'). rewrite Ha' in Hz2.
    destruct Hz2 as (a'' & Ha'' & Hs'' & Hget''). exists a''.
    split_and!; [done|congruence|].
    intros r c. rewrite Hget'', Hget', (Hinv nm a' a r c Hs').
    destruct (h1 nm a r c), (h2 nm a r c); simpl; try done.
    by destruct (arr_get a r c).
  - by rewrite Hz1 in Hz2.
Qed.

Lemma shape_conns_hit (mx : bool) (j : nat) (conns : list (Connection R))
    (nm : string) (a a' : ndarray R) (r c : nat) :
  shape a = shape a' ->
  existsb (fun conn => conn_hit mx j conn nm a r c) conns
  = existsb (fun conn => conn_hit mx j conn nm a' r c) conns.
Proof.
  intros Hs. induction conns as [|conn conns IH]; simpl; [done|].
  by rewrite IH, (shape_conn_hit mx j conn nm a a' r c Hs).
Qed.

Lemma shape_zeroed_by (mx : bool) (conns : list (Connection R)) (js : list nat)
    (nm : string) (a a' : ndarray R) (r c : nat) :
  shape a = shape a' ->
  zeroed_by mx conns js nm a r c = zeroed_by mx conns js nm a' r c.
Proof.
  intros Hs. unfold zeroed_by. induction js as [|j js IH]; simpl; [done|].
  by rewrite IH, (shape_conns_hit mx j conns nm a a' r c Hs).
Qed.

(** One step of the compensation zeroes what [conn_hit] says. *)
Lemma compensate_conn_spec (mx : bool) (j : nat) (conn : Connection R)
    (P P' : gmap string (ndarray R)) :
  compensate_conn mx j P conn = Ok P' -> zeroed_store (conn_hit mx j conn) P P'.
Proof.
  unfold compensate_conn. intros Hc.
  apply bind_Ok in Hc as (mat & Hmat%or_raise_Ok & Hc).
  apply bind_Ok in Hc as (off & Hoff & Hc).
  apply bind_Ok in Hc as (mat' & Hmat' & Hc). injection Hc as <-.
  assert (Hspec : shape mat' = shape mat /\
            forall r c, arr_get mat' r c
              = if existsb (fun t => target_hit mat (dim conn) t r c)
                     (targets mx conn (Z.of_nat j + off))
                then (fun _ => s_zero) <$> arr_get mat r c else arr_get mat r c).
  { unfold targets. destruct (maxout_in mx conn).
    - apply bind_Ok in Hmat' as (mat1 & Hmat1 & Hmat').
      apply set_zero_in_mat_spec in Hmat1 as (Hs1 & _ & Hg1).
      apply set_zero_in_mat_spec in Hmat' as (Hs2 & _ & Hg2).
      split; [congruence|]. intros r c. simpl.
      rewrite Hg2, Hg1, (shape_target_hit mat1 mat _ _ r c Hs1).
      destruct (target_hit mat _ (_ * 2) r c), (target_hit mat _ (_ * 2 + 1) r c);
        simpl; try done.
      by destruct (arr_get mat r c).
    - apply set_zero_in_mat_spec in Hmat' as (Hs1 & _ & Hg1).
      split; [done|]. intros r c. simpl. rewrite Hg1.
      by destruct (target_hit _ _ _ _ _). }
  destruct Hspec as [Hs Hget]. intros nm. unfold conn_hit.
  destruct (decide (mat_name conn = nm)) as [<-|Hne].
  - rewrite Hmat, lookup_insert_eq. exists mat'. split_and!; try done.
    intros r c. by rewrite String.eqb_refl, Hoff.
  - rewrite lookup_insert_ne by done.
    apply String.eqb_neq in Hne. rewrite Hne. simpl.
    destruct (P !! nm) as [a|]; [|done]. by exists a.
Qed.

Lemma compensate_conns_spec (mx : bool) (j : nat) (conns : list (Connection R)) :
  forall P P' : gmap string (ndarray R),
  foldlM (compensate_conn mx j) P conns = Ok P' ->
  zeroed_store (fun nm a r c => existsb (fun conn => conn_hit mx j conn nm a r c) conns)
    P P'.
Proof.
  induction conns as [|conn conns IH]; intros P P' Hf; simpl in *.
  - injection Hf as <-. apply zeroed_store_refl.
  - apply bind_Ok in Hf as (P1 & Hstep & Hf).
    apply (zeroed_store_trans _ _ P P1 P'); [|by apply compensate_conn_spec|by apply IH].
    intros nm a a' r c Hs. by apply shape_conns_hit.
Qed.

(** The sum compensation zeroes the entries that [zeroed_by] picks, and
    changes nothing else: no shape, no other entry, no other matrix. *)
Lemma compensate_spec (td : list (nat * nat)) (l : PrunableLayer R)
    (P P' : gmap string (ndarray R)) :
  compensate_for_pruning td l P = Ok P' ->
  zeroed_store (zeroed_by (maxout l) (connections l) (td.*2)) P P'.
Proof.
  unfold compensate_for_pruning, _compensate_for_pruning_sum, zeroed_by.
  revert P P'. induction td as [|ij td IH]; intros P P' Hf; simpl in *.
  - injection Hf as <-. apply zeroed_store_refl.
  - apply bind_Ok in Hf as (P1 & Hstep & Hf).
    apply (zeroed_store_trans _ _ P P1 P'); [|by apply compensate_conns_spec|by apply IH].
    intros nm a a' r c Hs. by apply shape_zeroed_by.
Qed.

End StoreFacts.

Section CompensationClaims.
Context {R : Type} `{Scalar R}.

Lemma existsb_elem_of {A : Type} (f : A -> bool) (xs : list A) :
  existsb f xs = true <-> exists x, x ∈ xs /\ f x = true.
Proof.
  rewrite existsb_exists. split; intros (x & Hx & Hf); exists x;
    (split; [by apply list_elem_of_In|done]).
Qed.

(** A step that returns has found its matrix, its offset, and a slice
    for each of its subscripts. *)
Lemma compensate_conn_resolves (mx : bool) (j : nat) (conn : Connection R)
    (P P' : gmap string (ndarray R)) :
  compensate_conn mx j P conn = Ok P' ->
  exists mat off,
    P !! mat_name conn = Some mat /\ conn_offset conn mat = Ok off /\
    forall len, axis_len mat (dim conn) = Some len ->
      forall t, t ∈ targets mx conn (Z.of_nat j + off) ->
        exists k, py_index len t = Ok k.
Proof.
  unfold compensate_conn. intros Hc.
  apply bind_Ok in Hc as (mat & Hmat%or_raise_Ok & Hc).
  apply bind_Ok in Hc as (off & Hoff & Hc).
  apply bind_Ok in Hc as (mat' & Hmat' & _).
  exists mat, off. split_and!; try done. intros len Hlen t. unfold targets.
  destruct (maxout_in mx conn).
  - apply bind_Ok in Hmat' as (mat1 & Hmat1 & Hmat').
    apply set_zero_in_mat_spec in Hmat1 as (Hs1 & Hk1 & _).
    apply set_zero_in_mat_spec in Hmat' as (_ & Hk2 & _).
    rewrite (shape_axis_len mat1 mat _ Hs1) in Hk2.
    intros [-> | [-> | []%elem_of_nil]%elem_of_cons]%elem_of_cons; eauto.
  - apply set_zero_in_mat_spec in Hmat' as (_ & Hk1 & _).
    intros [-> | []%elem_of_nil]%elem_of_cons. eauto.
Qed.

Lemma zeroed_same_shapes (hit : string -> ndarray R -> nat -> nat -> bool)
    (P P' : gmap string (ndarray R)) :
  zeroed_store hit P P' -> same_shapes P P'.
Proof.
  intros Hz nm. specialize (Hz nm). destruct (P !! nm); [|done].
  destruct Hz as (a' & ? & ? & _). eauto.
Qed.

Lemma same_shapes_refl (P : gmap string (ndarray R)) : same_shapes P P.
Proof. intros nm. destruct (P !! nm) eqn:E; eauto. Qed.

Lemma same_shapes_trans (P P' P'' : gmap string (ndarray R)) :
  same_shapes P P' -> same_shapes P' P'' -> same_shapes P P''.
Proof.
  intros H1 H2 nm. specialize (H1 nm). specialize (H2 nm).
  destruct (P !! nm) as [a|].
  - destruct H1 as (a' & Ha' & Hs'). rewrite Ha' in H2.
    destruct H2 as (a'' & Ha'' & Hs''). exists a''. split; [done|congruence].
  - by rewrite H1 in H2.
Qed.

Lemma same_shapes_resolves (mx : bool) (j : nat) (conn : Connection R)
    (P P1 P2 : gmap string (ndarray R)) :
  same_shapes P P1 -> compensate_conn mx j P1 conn = Ok P2 ->
  exists mat off,
    P !! mat_name conn = Some mat /\ conn_offset conn mat = Ok off /\
    forall len, axis_len mat (dim conn) = Some len ->
      forall t, t ∈ targets mx conn (Z.of_nat j + off) ->
        exists k, py_index len t = Ok k.
Proof.
  intros Hs Hc.
  destruct (compensate_conn_resolves _ _ _ _ _ Hc) as (mat1 & off & Hm1 & Hoff & Hk).
  specialize (Hs (mat_name conn)). destruct (P !! mat_name conn) as [mat|].
  - destruct Hs as (mat1' & Hm1' & Hshape). rewrite Hm1 in Hm1'. injection Hm1' as <-.
    exists mat, off. split_and!; try done.
    + by rewrite <- (shape_conn_offset conn mat1 mat).
    + intros len Hlen. apply Hk. by rewrite (shape_axis_len mat1 mat).
  - congruence.
Qed.

(** Every step of a compensation that returns has resolved, on a store
    with the shapes of the first one. *)
Lemma compensate_resolves (td : list (nat * nat)) (l : PrunableLayer R)
    (P P' : gmap string (ndarray R)) (ij : nat * nat) (conn : Connection R) :
  compensate_for_pruning td l P = Ok P' ->
  ij ∈ td -> conn ∈ connections l ->
  exists mat off,
    P !! mat_name conn = Some mat /\ conn_offset conn mat = Ok off /\
    forall len, axis_len mat (dim conn) = Some len ->
      forall t, t ∈ targets (maxout l) conn (Z.of_nat ij.2 + off) ->
        exists k, py_index len t = Ok k.
Proof.
  unfold compensate_for_pruning, _compensate_for_pruning_sum.
  intros Hf Hij Hconn.
  assert (Hinner : forall conns (Q Q' : gmap string (ndarray R)),
    foldlM (compensate_conn (maxout l) ij.2) Q conns = Ok Q' -> conn ∈ conns ->
    exists Q1 Q2, same_shapes Q Q1 /\
      compensate_conn (maxout l) ij.2 Q1 conn = Ok Q2).
  { induction conns as [|c0 conns IH]; intros Q Q' HQ Hin.
    - by apply elem_of_nil in Hin.
    - simpl in HQ. apply bind_Ok in HQ as (Q1 & Hstep & HQ).
      apply elem_of_cons in Hin as [-> | Hin].
      + exists Q, Q1. split; [apply same_shapes_refl|done].
      + destruct (IH _ _ HQ Hin) as (Q2 & Q3 & Hz & Hc).
        exists Q2, Q3. split; [|done].
        eapply same_shapes_trans; [|exact Hz].
        eapply zeroed_same_shapes. by apply compensate_conn_spec. }
  revert P Hf. induction td as [|ij0 td IH]; intros P Hf.
  - by apply elem_of_nil in Hij.
  - simpl in Hf. apply bind_Ok in Hf as (P1 & Hstep & Hf).
    apply elem_of_cons in Hij as [-> | Hij].
    + destruct (Hinner _ _ _ Hstep Hconn) as (Q1 & Q2 & Hs & Hc).
      by apply (same_shapes_resolves _ _ _ P Q1 Q2).
    + destruct (IH Hij P1 Hf) as (mat1 & off & Hm1 & Hoff & Hk).
      assert (Hs : same_shapes P P1).
      { eapply zeroed_same_shapes. by apply compensate_conns_spec. }
      specialize (Hs (mat_name conn)). destruct (P !! mat_name conn) as [mat|].
      * destruct Hs as (mat1' & Hm1' & Hshape). rewrite Hm1 in Hm1'. injection Hm1' as <-.
        exists mat, off. split_and!; try done.
        -- by rewrite <- (shape_conn_offset conn mat1 mat).
        -- intros len Hlen. apply Hk. by rewrite (shape_axis_len mat1 mat).
      * congruence.
Qed.

End CompensationClaims.

Section SumCompensation.
Context {R : Type} `{Scalar R}.

Lemma zeroed_by_hit (mx : bool) (conns : list (Connection R)) (js : list nat)
    (j : nat) (conn : Connection R) (a : ndarray R) (off : Z) (t : Z) (r c : nat) :
  j ∈ js -> conn ∈ conns -> conn_offset conn a = Ok off ->
  t ∈ targets mx conn (Z.of_nat j + off) ->
  target_hit a (dim conn) t r c = true ->
  zeroed_by mx conns js (mat_name conn) a r c = true.
Proof.
  intros Hj Hconn Hoff Ht Hhit. unfold zeroed_by.
  apply existsb_elem_of. exists j. split; [done|].
  apply existsb_elem_of. exists conn. split; [done|].
  unfold conn_hit. rewrite String.eqb_refl, Hoff. simpl.
  apply existsb_elem_of. by exists t.
Qed.

Lemma zeroed_by_inv (mx : bool) (conns : list (Connection R)) (js : list nat)
    (nm : string) (a : ndarray R) (r c : nat) :
  zeroed_by mx conns js nm a r c = true ->
  exists j conn off t,
    j ∈ js /\ conn ∈ conns /\ mat_name conn = nm /\ conn_offset conn a = Ok off /\
    t ∈ targets mx conn (Z.of_nat j + off) /\ target_hit a (dim conn) t r c = true.
Proof.
  unfold zeroed_by. intros (j & Hj & Hc)%existsb_elem_of.
  apply existsb_elem_of in Hc as (conn & Hconn & Hhit).
  unfold conn_hit in Hhit. apply andb_true_iff in Hhit as [Hnm%String.eqb_eq Hhit].
  destruct (conn_offset conn a) as [off|] eqn:Hoff; [|done].
  apply existsb_elem_of in Hhit as (t & Ht & Hhit).
  exists j, conn, off, t. done.
Qed.

(** A subscript that is not negative names the slice of that number. *)
Lemma target_hit_slice (a : ndarray R) (d t : Z) (r c : nat) :
  0 <= t -> target_hit a d t r c = true ->
  in_slice a d (Z.to_nat t) r c = true.
Proof.
  unfold target_hit. intros Ht Hhit.
  destruct (axis_len a d) as [len|]; [|done].
  destruct (py_index len t) as [k|] eqn:Hk; [|done].
  apply py_index_nonneg in Hk as [<- _]; [|done]. by rewrite Nat2Z.id.
Qed.

(** Two slices along one axis that share a position are one slice. *)
Lemma in_slice_inj (a : ndarray R) (d : Z) (k k' r c : nat) :
  in_slice a d k r c = true -> in_slice a d k' r c = true -> k = k'.
Proof.
  unfold in_slice. destruct a as [v|m].
  - intros [->%Nat.eqb_eq _]%andb_true_iff [->%Nat.eqb_eq _]%andb_true_iff. done.
  - destruct (d =? 0); [|destruct (d =? 1); [|done]].
    + by intros ->%Nat.eqb_eq ->%Nat.eqb_eq.
    + by intros ->%Nat.eqb_eq ->%Nat.eqb_eq.
Qed.

Lemma elem_of_halves (m t : Z) :
  t ∈ [m * 2; m * 2 + 1] <-> t = m * 2 \/ t = m * 2 + 1.
Proof. rewrite elem_of_cons, list_elem_of_singleton. done. Qed.

Lemma set_zero_in_mat_total (a : ndarray R) (d idx : Z) :
  (forall len, axis_len a d = Some len -> exists k, py_index len idx = Ok k) ->
  exists a', set_zero_in_mat a d idx = Ok a'.
Proof.
  unfold set_zero_in_mat, axis_len. destruct a as [v|m].
  - intros Hk. destruct (Hk _ eq_refl) as [k ->]. cbn. eauto.
  - destruct (d =? 0); [|destruct (d =? 1)].
    + intros Hk. destruct (Hk _ eq_refl) as [k Hkk].
      unfold mat_set_row. rewrite Hkk. cbn. eauto.
    + intros Hk. destruct (Hk _ eq_refl) as [k Hkk].
      unfold mat_set_col. rewrite Hkk. cbn. eauto.
    + eauto.
Qed.

Lemma compensate_conn_total (mx : bool) (j : nat) (conn : Connection R)
    (P : gmap string (ndarray R)) (mat : ndarray R) (off : Z) :
  P !! mat_name conn = Some mat -> conn_offset conn mat = Ok off ->
  (forall len, axis_len mat (dim conn) = Some len ->
     forall t, t ∈ targets mx conn (Z.of_nat j + off) ->
       exists k, py_index len t = Ok k) ->
  exists P', compensate_conn mx j P conn = Ok P'.
Proof.
  intros Hmat Hoff Hk. unfold compensate_conn. rewrite Hmat. cbn.
  rewrite Hoff. cbn. unfold targets in Hk. destruct (maxout_in mx conn).
  - destruct (set_zero_in_mat_total mat (dim conn) ((Z.of_nat j + off) * 2))
      as [mat1 Hmat1].
    { intros len Hlen. apply (Hk len Hlen). apply elem_of_halves. lia. }
    rewrite Hmat1. cbn.
    destruct (set_zero_in_mat_total mat1 (dim conn) ((Z.of_nat j + off) * 2 + 1))
      as [mat2 Hmat2].
    { intros len Hlen. apply set_zero_in_mat_spec in Hmat1 as (Hs & _ & _).
      rewrite (shape_axis_len mat1 mat _ Hs) in Hlen.
      apply (Hk len Hlen). apply elem_of_halves. lia. }
    rewrite Hmat2. cbn. eauto.
  - destruct (set_zero_in_mat_total mat (dim conn) (Z.of_nat j + off)) as [mat1 Hmat1].
    { intros len Hlen. apply (Hk len Hlen). by apply list_elem_of_singleton. }
    rewrite Hmat1. cbn. eauto.
Qed.

Lemma steps_resolve_shapes (mx : bool) (conns : list (Connection R)) (js : list nat)
    (P P1 : gmap string (ndarray R)) :
  same_shapes P P1 -> steps_resolve mx conns js P -> steps_resolve mx conns js P1.
Proof.
  intros Hs Hres j conn Hj Hconn.
  destruct (Hres j conn Hj Hconn) as (mat & off & Hmat & Hoff & Hk).
  specialize (Hs (mat_name conn)). rewrite Hmat in Hs.
  destruct Hs as (mat1 & Hmat1 & Hshape). exists mat1, off. split_and!; try done.
  - by rewrite (shape_conn_offset conn mat1 mat).
  - intros len Hlen. apply Hk. by rewrite <- (shape_axis_len mat1 mat).
Qed.

(** The compensation returns when every step resolves in the store it
    is given. *)
Lemma compensate_returns (td : list (nat * nat)) (l : PrunableLayer R)
    (P : gmap string (ndarray R)) :
  steps_resolve (maxout l) (connections l) (td.*2) P ->
  exists P', compensate_for_pruning td l P = Ok P'.
Proof.
  unfold compensate_for_pruning, _compensate_for_pruning_sum.
  assert (Hinner : forall j conns (Q : gmap string (ndarray R)),
    steps_resolve (maxout l) conns [j] Q ->
    exists Q', foldlM (compensate_conn (maxout l) j) Q conns = Ok Q').
  { intros j. induction conns as [|c0 conns IH]; intros Q Hres; cbn [foldlM]; [eauto|].
    destruct (Hres j c0) as (mat & off & Hmat & Hoff & Hk);
      [by apply list_elem_of_singleton|by apply elem_of_cons; left|].
    destruct (compensate_conn_total _ _ _ _ _ _ Hmat Hoff Hk) as [Q1 HQ1].
    rewrite HQ1. cbn. apply IH.
    apply (steps_resolve_shapes _ _ _ Q).
    { eapply zeroed_same_shapes. by apply compensate_conn_spec. }
    intros j' conn Hj' Hconn. apply Hres; [done|]. by apply elem_of_cons; right. }
  revert P. induction td as [|ij td IH]; intros P Hres; cbn [foldlM]; [eauto|].
  destruct (Hinner ij.2 (connections l) P) as [P1 HP1].
  { intros j conn ->%list_elem_of_singleton Hconn. apply Hres; [|done].
    rewrite fmap_cons. by apply elem_of_cons; left. }
  rewrite HP1. cbn. apply IH.
  apply (steps_resolve_shapes _ _ _ P).
  { eapply zeroed_same_shapes. by apply compensate_conns_spec. }
  intros j conn Hj Hconn. apply Hres; [|done].
  rewrite fmap_cons. by apply elem_of_cons; right.
Qed.

(** For every pair and every connection, the slices the compensation
    aims at are zero in the store it returns. *)
Lemma compensate_slices_zero (td : list (nat * nat)) (l : PrunableLayer R)
    (P P' : gmap string (ndarray R)) (ij : nat * nat) (conn : Connection R) :
  compensate_for_pruning td l P = Ok P' ->
  ij ∈ td -> conn ∈ connections l ->
  exists mat mat' off,
    P !! mat_name conn = Some mat /\ P' !! mat_name conn = Some mat' /\
    shape mat' = shape mat /\ conn_offset conn mat = Ok off /\
    (is_Some (axis_len mat (dim conn)) ->
     forall t, t ∈ targets (maxout l) conn (Z.of_nat ij.2 + off) ->
       slice_zero mat' (dim conn) t).
Proof.
  intros Hcomp Hij Hconn. pose proof (compensate_spec _ _ _ _ Hcomp) as Hz.
  destruct (compensate_resolves _ _ _ _ _ _ Hcomp Hij Hconn)
    as (mat & off & Hmat & Hoff & Hk).
  pose proof (Hz (mat_name conn)) as Hnm. rewrite Hmat in Hnm.
  destruct Hnm as (mat' & Hmat' & Hs & Hget).
  exists mat, mat', off. split_and!; try done.
  intros [len Hlen] t Ht. destruct (Hk len Hlen t Ht) as [k Hkt].
  exists len, k. split_and!; [by rewrite (shape_axis_len mat' mat)|done|].
  intros r c Hin Hsome. rewrite (shape_in_slice mat' mat) in Hin by done.
  rewrite Hget in Hsome |- *.
  rewrite (zeroed_by_hit _ _ _ ij.2 conn mat off t) in Hsome |- *; try done.
  - by destruct (arr_get mat r c); [|destruct Hsome].
  - apply list_elem_of_fmap. by exists ij.
  - unfold target_hit. by rewrite Hlen, Hkt.
  - apply list_elem_of_fmap. by exists ij.
  - unfold target_hit. by rewrite Hlen, Hkt.
Qed.

Lemma existsb_delete {A : Type} (f : A -> bool) (xs : list A) (p : nat) (x : A) :
  xs !! p = Some x -> existsb f xs = f x || existsb f (delete p xs).
Proof.
  revert p. induction xs as [|y ys IH]; intros [|p] Hp; simpl in *; try done.
  - by injection Hp as ->.
  - rewrite (IH p Hp). by destruct (f y), (f x).
Qed.

(** Along an inbound connection of a maxout layer whose offset is not
    negative, no position of the two slices of a neuron is zeroed for
    another neuron. *)
Lemma conn_hit_other (mx : bool) (conn : Connection R) (mat : ndarray R) (off : Z)
    (j k : nat) (t : Z) (r c : nat) :
  maxout_in mx conn = true -> conn_offset conn mat = Ok off -> 0 <= off ->
  j <> k ->
  t = (Z.of_nat k + off) * 2 \/ t = (Z.of_nat k + off) * 2 + 1 ->
  target_hit mat (dim conn) t r c = true ->
  conn_hit mx j conn (mat_name conn) mat r c = false.
Proof.
  intros Hmx Hoff Hnn Hjk Ht Hhit. unfold conn_hit.
  rewrite String.eqb_refl, Hoff. cbn [andb]. unfold targets. rewrite Hmx.
  destruct (existsb _ _) eqn:E; [exfalso|done].
  apply existsb_elem_of in E as (t' & Ht' & Hhit').
  apply elem_of_halves in Ht'.
  apply target_hit_slice in Hhit, Hhit'; try lia.
  pose proof (in_slice_inj _ _ _ _ _ _ Hhit Hhit') as Heq. lia.
Qed.

(** So on these slices the compensation zeroes what it zeroes along the
    other connections of the layer. *)
Lemma zeroed_by_others (mx : bool) (conns : list (Connection R)) (js : list nat)
    (p : nat) (conn : Connection R) (mat : ndarray R) (off : Z)
    (k : nat) (t : Z) (r c : nat) :
  conns !! p = Some conn -> maxout_in mx conn = true ->
  conn_offset conn mat = Ok off -> 0 <= off -> k ∉ js ->
  t = (Z.of_nat k + off) * 2 \/ t = (Z.of_nat k + off) * 2 + 1 ->
  target_hit mat (dim conn) t r c = true ->
  zeroed_by mx conns js (mat_name conn) mat r c
  = zeroed_by mx (delete p conns) js (mat_name conn) mat r c.
Proof.
  intros Hp Hmx Hoff Hnn Hk Ht Hhit. unfold zeroed_by.
  induction js as [|j js IH]; [done|]. cbn [existsb].
  apply not_elem_of_cons in Hk as [Hkj Hk].
  rewrite (IH Hk). f_equal.
  rewrite (existsb_delete _ _ p conn Hp).
  by rewrite (conn_hit_other mx conn mat off j k t r c).
Qed.

End SumCompensation.

(** The offset of a connection in exact arithmetic: the integer part of
    the size of the axis times the start fraction when that is positive,
    and 0 otherwise; it is never negative. *)
Lemma shape_at_nonneg {R : Type} (a : ndarray R) (d x : Z) :
  shape_at a d = Ok x -> 0 <= x.
Proof.
  unfold shape_at. intros Hs.
  apply bind_Ok in Hs as (k & _ & Hx%or_raise_Ok).
  destruct a as [v|m]; destruct k as [|[|k]]; simpl in Hx; try done;
    injection Hx as <-; lia.
Qed.

Lemma conn_offset_exact (conn : Connection Q) (mat : ndarray Q) (off : Z) :
  conn_offset conn mat = Ok off ->
  ((0 < start_idx conn)%Q ->
   exists d, shape_at mat (dim conn) = Ok d /\
     (inject_Z off <= inject_Z d * start_idx conn)%Q /\
     (inject_Z d * start_idx conn < inject_Z (off + 1))%Q) /\
  (~ (0 < start_idx conn)%Q -> off = 0) /\
  0 <= off.
Proof.
  unfold conn_offset. cbn [s_ltb s_zero s_trunc s_mul s_of_Z Q_scalar].
  destruct (Qle_bool (start_idx conn) 0) eqn:E; cbn [negb].
  - apply Qle_bool_iff in E. intros [= <-]. split_and!; [|done|lia].
    intros Hlt. exfalso. by apply (Qlt_not_le _ _ Hlt).
  - assert (Hpos : (0 < start_idx conn)%Q).
    { apply Qnot_le_lt. intros Hle. apply Qle_bool_iff in Hle. congruence. }
    intros Hb. apply bind_Ok in Hb as (d & Hd & Ht). injection Ht as Ht.
    pose proof (shape_at_nonneg _ _ _ Hd) as Hd0.
    set (q := (inject_Z d * start_idx conn)%Q).
    assert (Hq : (0 <= q)%Q).
    { apply Qmult_le_0_compat; [|by apply Qlt_le_weak].
      change 0%Q with (inject_Z 0). by rewrite <- Zle_Qle. }
    assert (Hfl : off = Qfloor q).
    { rewrite <- Ht.
      transitivity (Z.quot (Qnum q) (Z.pos (Qden q))); [reflexivity|].
      clearbody q. destruct q as [n dn]. unfold Qle in Hq. cbn in Hq.
      unfold Qfloor. apply Z.quot_div_nonneg; lia. }
    rewrite Hfl. split_and!.
    + intros _. exists d. split_and!; [done|apply Qfloor_le|apply Qlt_floor].
    + done.
    + change 0 with (Qfloor 0). by apply Qfloor_resp_le.
Qed.


(** ** The sanity check *)

Section SanityFacts.
Context {R : Type} `{ScalarZero R}.

Lemma mapM_result_Ok {A B : Type} (f : A -> result B) (xs : list A) :
  (forall x, x ∈ xs -> exists y, f x = Ok y) ->
  exists ys, mapM_result f xs = Ok ys /\ Forall2 (fun x y => f x = Ok y) xs ys.
Proof.
  induction xs as [|x xs IH]; intros Hf; simpl.
  - exists []. split; [done|constructor].
  - destruct (Hf x) as [y Hy]; [by apply elem_of_cons; left|].
    destruct IH as (ys & Hys & Hall).
    { intros x' Hx'. apply Hf. by apply elem_of_cons; right. }
    exists (y :: ys). rewrite Hy, Hys. simpl. split; [done|by constructor].
Qed.

Lemma np_max_zeros (xs : list R) :
  xs <> [] -> Forall (fun x => x = s_zero) xs -> np_max (s_abs <$> xs) = Ok s_zero.
Proof.
  destruct xs as [|x xs]; [done|]. intros _ Hall.
  apply Forall_cons in Hall as [-> Hall]. simpl. rewrite s_abs_zero. f_equal.
  induction Hall as [|y ys -> _ IH]; simpl; [done|].
  rewrite s_abs_zero. unfold np_maximum at 2. by rewrite s_nan_zero, s_ltb_zero.
Qed.

Lemma py_max_zero : py_max s_zero s_zero = s_zero.
Proof. unfold py_max. by rewrite s_ltb_zero. Qed.

(** The entries read for one connection are zeros, and there are some,
    when the slices of the pruned neurons are zero. *)
Lemma select_entries_zero (a : ndarray R) (d : Z) (idxs : list Z) :
  arr_proper a -> is_Some (axis_len a d) -> idxs <> [] ->
  (forall t, t ∈ idxs -> slice_zero a d t) ->
  exists xs, select_entries a d idxs = Ok (Some xs) /\
    xs <> [] /\ Forall (fun x => x = s_zero) xs.
Proof.
  intros Hprop [len Hlen] Hne Hzero.
  assert (Hres : forall t, t ∈ idxs -> exists k, py_index len t = Ok k).
  { intros t Ht. destruct (Hzero t Ht) as (len' & k & Hlen' & Hk & _).
    rewrite Hlen in Hlen'. injection Hlen' as <-. eauto. }
  destruct (mapM_result_Ok (py_index len) idxs Hres) as (ks & Hks & Hall).
  assert (Hksne : ks <> []).
  { intros ->. apply Forall2_nil_inv_r in Hall. done. }
  assert (Hkz : forall k, k ∈ ks -> (k < len)%nat /\
            forall r c, in_slice a d k r c = true -> is_Some (arr_get a r c) ->
                        arr_get a r c = Some s_zero).
  { intros k Hk. apply list_elem_of_lookup in Hk as [i Hi].
    destruct (Forall2_lookup_r _ _ _ _ _ Hall Hi) as (t & Ht & Hkt).
    split; [by apply py_index_Ok in Hkt as [? _]|].
    destruct (Hzero t) as (len' & k' & Hlen' & Hk' & Hz).
    { by eapply list_elem_of_lookup_2. }
    rewrite Hlen in Hlen'. injection Hlen' as <-. rewrite Hkt in Hk'.
    by injection Hk' as <-. }
  clear Hall Hres Hzero Hne.
  unfold select_entries. destruct a as [v|m]; simpl in *.
  - injection Hlen as <-. rewrite Hks. simpl. eexists. split; [done|]. split.
    + destruct ks; [done|]. done.
    + apply Forall_fmap, Forall_forall. intros k Hk. simpl.
      destruct (Hkz k Hk) as [Hlt Hz].
      destruct (lookup_lt_is_Some_2 v k Hlt) as [x Hx]. rewrite Hx. simpl.
      specialize (Hz k 0%nat). rewrite !Nat.eqb_refl, Hx in Hz.
      by injection (Hz eq_refl (mk_is_Some _ _ eq_refl)).
  - destruct Hprop as (Hwf & Hcols & Hrows).
    destruct (d =? 0) eqn:Hd0; [|destruct (d =? 1) eqn:Hd1; [|done]].
    + injection Hlen as <-. rewrite Hks. simpl. eexists. split; [done|].
      assert (Hrow : forall k, k ∈ ks -> exists row,
                m_rows m !! k = Some row /\ length row = m_cols m /\
                Forall (fun x => x = s_zero) row).
      { intros k Hk. destruct (Hkz k Hk) as [Hlt Hz].
        destruct (lookup_lt_is_Some_2 (m_rows m) k Hlt) as [row Hrow].
        exists row. split; [done|]. split.
        - by apply (Forall_lookup_1 _ _ _ _ Hwf Hrow).
        - apply Forall_lookup. intros c x Hx.
          specialize (Hz k c). rewrite Nat.eqb_refl, Hrow in Hz. simpl in Hz.
          rewrite Hx in Hz. by injection (Hz eq_refl (mk_is_Some _ _ eq_refl)). }
      split.
      * destruct ks as [|k ks']; [done|]. simpl.
        destruct (Hrow k) as (row & -> & Hl & _); [by apply elem_of_cons; left|].
        simpl. destruct row; [simpl in Hl; lia|done].
      * apply Forall_concat, Forall_fmap, Forall_forall. intros k Hk. simpl.
        by destruct (Hrow k Hk) as (row & -> & _ & Hz).
    + injection Hlen as <-. rewrite Hks. simpl. eexists. split; [done|]. split.
      * unfold m_nrows in Hrows. destruct (m_rows m) as [|row rows]; [simpl in Hrows; lia|].
        simpl. destruct ks; [done|]. done.
      * apply Forall_concat, Forall_fmap, Forall_forall. intros row Hrow. simpl.
        apply Forall_fmap, Forall_forall. intros k Hk. simpl.
        destruct (Hkz k Hk) as [Hlt Hz].
        apply list_elem_of_lookup in Hrow as [r Hr].
        pose proof (Forall_lookup_1 _ _ _ _ Hwf Hr) as Hl. simpl in Hl.
        destruct (lookup_lt_is_Some_2 row k) as [x Hx]; [lia|]. rewrite Hx. simpl.
        specialize (Hz r k). rewrite Nat.eqb_refl, Hr in Hz. simpl in Hz.
        rewrite Hx in Hz. by injection (Hz eq_refl (mk_is_Some _ _ eq_refl)).
Qed.

End SanityFacts.

Section SanityCheck.
Context {R : Type} `{ScalarZero R}.

Lemma sanity_check_conn_zero (pruned : list nat) (P : gmap string (ndarray R))
    (eps0 : option R) (conn : Connection R) (a : ndarray R) (off : Z) :
  pruned <> [] ->
  P !! mat_name conn = Some a -> conn_offset conn a = Ok off ->
  arr_proper a -> is_Some (axis_len a (dim conn)) ->
  (forall j, j ∈ pruned -> slice_zero a (dim conn) (Z.of_nat j + off)) ->
  sanity_check_conn pruned P (eps0, s_zero) conn = Ok (Some s_zero, s_zero).
Proof.
  intros Hne Ha Hoff Hprop Hax Hz.
  unfold sanity_check_conn. rewrite Ha. simpl. rewrite Hoff. simpl.
  destruct (select_entries_zero a (dim conn)
              ((fun idx => Z.of_nat idx + off) <$> pruned))
    as (xs & -> & Hxs & Hzeros); try done.
  { by destruct pruned. }
  { intros t (j & -> & Hj)%list_elem_of_fmap. by apply Hz. }
  simpl. rewrite np_max_zeros by done. simpl. by rewrite py_max_zero.
Qed.

(** The sanity check reports 0.0 when, in every matrix of a connection,
    the slices of all pruned neurons are zero. *)
Lemma sanity_check_zero (l : PrunableLayer R) (P : gmap string (ndarray R)) :
  pruned_neurons l <> [] ->
  (forall conn, conn ∈ connections l ->
     exists a off,
       P !! mat_name conn = Some a /\ conn_offset conn a = Ok off /\
       arr_proper a /\ is_Some (axis_len a (dim conn)) /\
       forall j, j ∈ pruned_neurons l -> slice_zero a (dim conn) (Z.of_nat j + off)) ->
  sanity_check l P = Ok s_zero.
Proof.
  intros Hne Hconns. unfold sanity_check.
  assert (Hfold : forall conns eps0,
    (forall conn, conn ∈ conns -> conn ∈ connections l) ->
    exists eps, foldlM (sanity_check_conn (pruned_neurons l) P) (eps0, s_zero) conns
                = Ok (eps, s_zero)).
  { induction conns as [|conn conns IH]; intros eps0 Hsub; cbn [foldlM]; [eauto|].
    destruct (Hconns conn) as (a & off & Ha & Hoff & Hprop & Hax & Hz).
    { apply Hsub. by apply elem_of_cons; left. }
    rewrite (sanity_check_conn_zero _ P eps0 conn a off); try done.
    apply IH. intros c Hc. apply Hsub. by apply elem_of_cons; right. }
  destruct (Hfold (connections l) None) as [eps ->]; done.
Qed.

Lemma zeroed_slice_zero (hit : nat -> nat -> bool) (a a' : ndarray R) (d t : Z) :
  shape a' = shape a ->
  (forall r c, arr_get a' r c
               = if hit r c then (fun _ => s_zero) <$> arr_get a r c
                 else arr_get a r c) ->
  slice_zero a d t -> slice_zero a' d t.
Proof.
  intros Hs Hget (len & k & Hlen & Hk & Hz). exists len, k.
  split_and!; [by rewrite (shape_axis_len a' a)|done|].
  intros r c Hin Hsome. rewrite (shape_in_slice a' a) in Hin by done.
  rewrite Hget in Hsome |- *. destruct (hit r c).
  - by destruct (arr_get a r c); [|destruct Hsome].
  - by apply Hz.
Qed.

Lemma zeroed_proper (hit : nat -> nat -> bool) (a a' : ndarray R) :
  shape a' = shape a ->
  (forall r c, arr_get a' r c
               = if hit r c then (fun _ => s_zero) <$> arr_get a r c
                 else arr_get a r c) ->
  arr_proper a -> arr_proper a'.
Proof.
  destruct a as [v|m], a' as [v'|m']; simpl; intros Hs Hget; try done.
  injection Hs as Hr Hc. apply Nat2Z.inj in Hr, Hc.
  intros (Hwf & Hcols & Hrows). rewrite Hr, Hc. split_and!; try done.
  apply Forall_lookup. intros r row' Hrow'.
  assert (Hlt : (r < m_nrows m)%nat).
  { rewrite <- Hr. by apply lookup_lt_Some in Hrow'. }
  destruct (lookup_lt_is_Some_2 (m_rows m) r Hlt) as [row Hrow].
  pose proof (Forall_lookup_1 _ _ _ _ Hwf Hrow) as Hl. simpl in Hl.
  assert (Hiff : forall c, is_Some (row' !! c) <-> is_Some (row !! c)).
  { intros c. specialize (Hget r c). rewrite Hrow', Hrow in Hget. simpl in Hget.
    rewrite Hget. destruct (hit r c); [|done]. by rewrite fmap_is_Some. }
  simpl. rewrite Hc, <- Hl.
  destruct (Nat.lt_trichotomy (length row') (length row)) as [Hlt'|[Heq|Hgt]]; [|done|].
  - destruct (proj2 (Hiff (length row'))) as [x Hx]; [by apply lookup_lt_is_Some_2|].
    apply lookup_lt_Some in Hx. lia.
  - destruct (proj1 (Hiff (length row))) as [x Hx]; [by apply lookup_lt_is_Some_2|].
    apply lookup_lt_Some in Hx. lia.
Qed.

(** C2 (amended).  After a [prune] call that pruned with the sum
    compensation, [sanity_check] reports 0.0, provided that no connection
    of the layer is an inbound connection of a maxout layer, that the
    matrices of the connections have no empty dimension and the axes of
    the connections are axes of them, and that the slices of the neurons
    pruned by earlier calls are still zero in the weight store. *)
Theorem sanity_check_after_prune (l l' : PrunableLayer R)
    (P P' : gmap string (ndarray R)) (lg : PruneLog R) :
  prune l P = Ok (l', P', Some lg) ->
  (forall conn, conn ∈ connections l -> maxout_in (maxout l) conn = false) ->
  (forall conn a, conn ∈ connections l -> P !! mat_name conn = Some a ->
     arr_proper a /\ is_Some (axis_len a (dim conn))) ->
  (forall conn a off j, conn ∈ connections l -> P !! mat_name conn = Some a ->
     conn_offset conn a = Ok off -> j ∈ pruned_neurons l ->
     slice_zero a (dim conn) (Z.of_nat j + off)) ->
  sanity_check l' P' = Ok s_zero.
Proof.
  intros Hprune Hnomax Hprop Hstale.
  destruct (prune_Ok_pruned _ _ _ _ _ Hprune)
    as (l1 & n & td & mn & mx & Hi & Hn & Hpos & Hsel & Hcomp & _).
  destruct (prune_init_frame _ _ Hi)
    as (_ & _ & _ & _ & _ & _ & Hc1 & Hp1 & _ & _ & Hm1).
  destruct (prune_select_spec _ _ _ _ _ _ Hsel)
    as (l0 & sm & Hnorm & _ & Hf & _ & Hp & _ & _ & _ & Htd & _).
  destruct (normalize_Ok _ _ Hnorm) as (d0 & a0 & _ & _ & ->).
  destruct Hf as (_ & _ & _ & _ & _ & _ & _ & Hc' & _ & _ & Hm'). simpl in Hc', Hm'.
  rewrite Hc1 in Hc'. rewrite Hm1 in Hm'. rewrite Hp1 in Hp.
  assert (Htdne : td <> []) by (intros ->; by specialize (Htd eq_refl)).
  pose proof (compensate_spec _ _ _ _ Hcomp) as Hz.
  pose proof (compensate_slices_zero td l' P P') as Hnew.
  apply sanity_check_zero.
  - rewrite Hp. destruct td; [done|]. by destruct (pruned_neurons l).
  - intros conn Hconn. rewrite Hc' in Hconn.
    pose proof (Hz (mat_name conn)) as Hnm.
    destruct (P !! mat_name conn) as [a|] eqn:Ha.
    2:{ destruct td as [|ij td']; [done|].
        destruct (Hnew ij conn) as (? & ? & ? & ? & _);
          [done|by apply elem_of_cons; left|by rewrite Hc'|congruence]. }
    destruct Hnm as (a' & Ha' & Hs & Hget).
    destruct (Hprop conn a Hconn Ha) as [Hpr [len Hlen]].
    assert (Hoff : exists off, conn_offset conn a = Ok off).
    { destruct td as [|ij td']; [done|].
      destruct (Hnew ij conn) as (m1 & ? & off & Hm1' & _ & _ & Hoff & _);
        [done|by apply elem_of_cons; left|by rewrite Hc'|].
      rewrite Ha in Hm1'. injection Hm1' as <-. eauto. }
    destruct Hoff as [off Hoff].
    exists a', off. split_and!.
    + done.
    + by rewrite (shape_conn_offset conn a' a).
    + by apply (zeroed_proper _ a a' Hs Hget).
    + rewrite (shape_axis_len a' a) by done. by rewrite Hlen.
    + intros j Hj. rewrite Hp in Hj. apply elem_of_app in Hj as [Hj | Hj].
      * apply (zeroed_slice_zero _ a a' _ _ Hs Hget). by apply (Hstale conn a off j).
      * apply list_elem_of_fmap in Hj as (ij & -> & Hij).
        destruct (Hnew ij conn Hcomp Hij) as (m1 & m1' & off1 & Hm1' & Hm1'' & _ & Hoff1 & Hsl);
          [by rewrite Hc'|].
        rewrite Ha in Hm1'. injection Hm1' as <-.
        rewrite Ha' in Hm1''. injection Hm1'' as <-.
        rewrite Hoff in Hoff1. injection Hoff1 as <-.
        apply (Hsl (mk_is_Some _ _ Hlen)). unfold targets.
        rewrite Hm', (Hnomax conn Hconn). by apply list_elem_of_singleton.
Qed.

End SanityCheck.


(** C2, as stated, fails.  For a maxout layer the check reads row 1 of
    the inbound matrix where the compensation has zeroed rows 2 and 3;
    and for a layer pruned before, it reads the rows of the neurons
    pruned then, which the optimiser has updated since. *)
Lemma sanity_check_after_prune_counterexample :
  (prune ex_maxout_layer ex_maxout_store = Ok ex_maxout_pruned /\
   is_Some ex_maxout_pruned.2 /\
   sanity_check ex_maxout_pruned.1.1 ex_maxout_pruned.1.2 = Ok 1%Q /\
   sanity_check ex_maxout_pruned.1.1 ex_maxout_pruned.1.2 <> Ok 0%Q) /\
  (prune ex_layer4_second ex_store4 = Ok ex_second_pruned /\
   is_Some ex_second_pruned.2 /\
   sanity_check ex_second_pruned.1.1 ex_second_pruned.1.2 = Ok 1%Q /\
   sanity_check ex_second_pruned.1.1 ex_second_pruned.1.2 <> Ok 0%Q).
Proof.
  split; (split; [vm_compute; reflexivity|]);
    (split; [vm_compute; by eexists|]);
    (split; [vm_compute; reflexivity|]); vm_compute; intros [=].
Qed.

Lemma sanity_check_after_prune_witness :
  prune ex_layer3 ex_store = Ok (ex_pruned3.1.1, ex_pruned3.1.2, Some ex_log3) /\
  sanity_check ex_pruned3.1.1 ex_pruned3.1.2 = Ok 0%Q.
Proof.
  assert (Hprune : prune ex_layer3 ex_store
                   = Ok (ex_pruned3.1.1, ex_pruned3.1.2, Some ex_log3)).
  { vm_compute. reflexivity. }
  split; [exact Hprune|].
  apply (sanity_check_after_prune ex_layer3 ex_pruned3.1.1 ex_store ex_pruned3.1.2
           ex_log3 Hprune).
  - intros conn _. unfold maxout_in. apply andb_false_r.
  - intros conn a Hconn Ha.
    change (connections ex_layer3) with ex_conns in Hconn. unfold ex_conns in Hconn.
    apply elem_of_cons in Hconn as [Heq | Hconn];
      [|apply list_elem_of_singleton in Hconn as Heq]; subst conn.
    + vm_compute in Ha. injection Ha as <-. split; [|by eexists].
      split; [|split; unfold m_nrows; simpl; lia].
      repeat first [apply List.Forall_nil | apply List.Forall_cons; [reflexivity|]].
    + vm_compute in Ha. injection Ha as <-. split; [|by eexists].
      split; [|split; unfold m_nrows; simpl; lia].
      repeat first [apply List.Forall_nil | apply List.Forall_cons; [reflexivity|]].
  - intros conn a off j _ _ _ Hj. vm_compute in Hj. inversion Hj.
Defined.

(** ** The accumulated distances in exact arithmetic *)

Local Open Scope Q_scope.

Lemma qsum_cons (x : Q) (xs : list Q) : qsum (x :: xs) = x + qsum xs.
Proof. reflexivity. Qed.

Lemma fold_left_Qplus (xs : list Q) (x : Q) : fold_left Qplus xs x == x + qsum xs.
Proof.
  revert x. induction xs as [|y ys IH]; intros x; cbn [fold_left].
  - unfold qsum. cbn [foldr]. ring.
  - rewrite IH, qsum_cons. ring.
Qed.

Lemma np_sum_qsum (xs : list Q) : np_sum xs == qsum xs.
Proof.
  destruct xs as [|x xs]; [reflexivity|].
  unfold np_sum. change (@s_add Q Q_scalar) with Qplus.
  rewrite fold_left_Qplus, qsum_cons. reflexivity.
Qed.

Lemma qsum_nonneg (xs : list Q) : Forall (fun x => 0 <= x) xs -> 0 <= qsum xs.
Proof.
  induction 1 as [|x xs Hx _ IH]; [apply Qle_refl|].
  rewrite qsum_cons. replace 0 with (0 + 0) by reflexivity.
  by apply Qplus_le_compat.
Qed.

(** The identity behind the Gram matrix: for two rows read off the same
    observations, norms minus twice the dot product is the sum of the
    squared differences. *)
Lemma gram_identity {A : Type} (f g : A -> Q) (ks : list A) :
  dot (f <$> ks) (g <$> ks) * inject_Z (-2)
    + np_sum ((fun v => v * v) <$> (f <$> ks))
    + np_sum ((fun v => v * v) <$> (g <$> ks))
  == qsum ((fun k => (f k - g k) * (f k - g k)) <$> ks).
Proof.
  unfold dot. rewrite !np_sum_qsum.
  change (@s_mul Q Q_scalar) with Qmult.
  induction ks as [|k ks IH]; cbn [fmap list_fmap zip_with].
  - unfold qsum. cbn [foldr]. ring.
  - rewrite !qsum_cons, <- IH. change (inject_Z (-2)) with (-2 # 1). ring.
Qed.

Lemma sq_diff_nonneg (a b : Q) : 0 <= (a - b) * (a - b).
Proof.
  set (c := a - b). destruct (Qlt_le_dec c 0) as [Hneg | Hpos].
  - assert (Heq : c * c == (- c) * (- c)) by ring. rewrite Heq.
    apply Qmult_le_0_compat; apply (Qopp_le_compat c 0), Qlt_le_weak, Hneg.
  - by apply Qmult_le_0_compat.
Qed.

Lemma transpose_row (batch : matrix Q) (i : nat) :
  (i < m_cols batch)%nat ->
  m_rows (transpose batch) !! i
  = Some ((fun k => mat_at batch k i) <$> seq 0 (m_nrows batch)).
Proof.
  intros Hi. unfold transpose, mat_init. cbn [m_rows].
  by rewrite list_lookup_fmap, lookup_seq_lt.
Qed.

(** The squared distances of one batch are symmetric and not negative. *)
Lemma batch_dists_sq_sym_nonneg (batch : matrix Q) :
  exists g,
    batch_dists_sq (transpose batch) = mat_init (m_cols batch) (m_cols batch) g /\
    forall i j, (i < m_cols batch)%nat -> (j < m_cols batch)%nat ->
      g i j == g j i /\ 0 <= g i j.
Proof.
  unfold batch_dists_sq.
  assert (Hn : m_nrows (transpose batch) = m_cols batch) by apply mat_init_nrows.
  rewrite Hn. eexists. split; [reflexivity|].
  intros i j Hi Hj. cbv beta.
  unfold row_sq_norms. rewrite !list_lookup_fmap, !transpose_row by done.
  cbn [fmap option_fmap option_map default].
  change (@s_add Q Q_scalar) with Qplus. change (@s_mul Q Q_scalar) with Qmult.
  change (@s_of_Z Q Q_scalar) with inject_Z.
  set (fi := fun k => mat_at batch k i). set (fj := fun k => mat_at batch k j).
  set (ks := seq 0 (m_nrows batch)).
  pose proof (gram_identity fi fj ks) as Hij.
  pose proof (gram_identity fj fi ks) as Hji.
  change (@s_mul Q Q_scalar) with Qmult in Hij, Hji.
  split.
  - rewrite Hij, Hji. clear. induction ks as [|k ks IH]; [reflexivity|].
    cbn [fmap list_fmap]. rewrite !qsum_cons, IH. ring.
  - rewrite Hij. apply qsum_nonneg, Forall_fmap, Forall_forall.
    intros k _. apply sq_diff_nonneg.
Qed.

Lemma mat_iadd_init (n : nat) (g1 g2 : nat -> nat -> Q) :
  exists g,
    mat_iadd (mat_init n n g1) (mat_init n n g2) = Ok (mat_init n n g) /\
    forall i j, (i < n)%nat -> (j < n)%nat -> g i j = g1 i j + g2 i j.
Proof.
  unfold mat_iadd, mat_binop. rewrite !mat_init_nrows. cbn [m_cols mat_init].
  rewrite broadcast_dim_same. cbn [mbind result_bind].
  rewrite mat_init_nrows, !Nat.eqb_refl. cbn [andb].
  eexists. split; [reflexivity|].
  intros i j Hi Hj. cbv beta.
  assert (Hpi : (if (n =? 1)%nat then 0%nat else i) = i).
  { destruct (Nat.eqb_spec n 1); [lia|done]. }
  assert (Hpj : (if (n =? 1)%nat then 0%nat else j) = j).
  { destruct (Nat.eqb_spec n 1); [lia|done]. }
  fold (mat_init n n g1). fold (mat_init n n g2).
  rewrite Hpi, Hpj, !mat_at_init by done. reflexivity.
Qed.

Lemma vec_iadd_same (a b : list Q) :
  length a = length b -> exists c, vec_iadd a b = Ok c /\ length c = length a.
Proof.
  intros Hl. unfold vec_iadd. rewrite Hl, broadcast_dim_same.
  cbn [mbind result_bind]. rewrite Nat.eqb_refl. eexists. split; [reflexivity|].
  by rewrite length_fmap, length_seq.
Qed.

Lemma row_sq_norms_length (x : matrix Q) : length (row_sq_norms x) = m_nrows x.
Proof. unfold row_sq_norms. by rewrite length_fmap. Qed.

(** One batch more keeps the accumulators as [dists_inv] says. *)
Lemma register_activities_inv (n : nat) (l : PrunableLayer Q) (batch : matrix Q) :
  dists_inv n l -> m_cols batch = n ->
  exists l', register_activities l batch = Ok l' /\ dists_inv n l' /\
    is_Some (dists l').
Proof.
  intros [Hobs Hd] Hn. unfold register_activities.
  destruct (batch_dists_sq_sym_nonneg batch) as (g2 & Hg2 & Hsym2).
  rewrite Hn in Hg2, Hsym2. rewrite Hg2.
  assert (Hobs' : 0 <= s_add (n_obs l)
            (s_of_Z (Z.of_nat (m_cols (transpose batch))))).
  { change (@s_add Q Q_scalar) with Qplus. change (@s_of_Z Q Q_scalar) with inject_Z.
    replace 0 with (0 + 0) by reflexivity. apply Qplus_le_compat; [done|].
    change 0 with (inject_Z 0). rewrite <- Zle_Qle. lia. }
  assert (Hlen : length (row_sq_norms (transpose batch)) = n).
  { rewrite row_sq_norms_length. unfold transpose. by rewrite mat_init_nrows. }
  destruct (dists l) as [d|] eqn:Hdl.
  - destruct Hd as (g1 & a & -> & Ha & Hla & Hsym1).
    destruct (mat_iadd_init n g1 g2) as (g & -> & Hg). rewrite Ha.
    cbn [mbind result_bind or_raise].
    destruct (vec_iadd_same a (row_sq_norms (transpose batch))) as (c & -> & Hc);
      [congruence|].
    cbn [mbind result_bind]. eexists. split; [reflexivity|].
    split; [|by eexists].
    split; [exact Hobs'|]. cbn [dists set_accumulators fst snd activities].
    exists g, c. split_and!; [done|done|congruence|].
    intros i j Hi Hj. rewrite !Hg by done.
    destruct (Hsym1 i j Hi Hj) as [Hs1 Hp1]. destruct (Hsym2 i j Hi Hj) as [Hs2 Hp2].
    split.
    + by rewrite Hs1, Hs2.
    + replace 0 with (0 + 0) by reflexivity. by apply Qplus_le_compat.
  - cbn [mbind result_bind]. eexists. split; [reflexivity|].
    split; [|by eexists].
    split; [exact Hobs'|]. cbn [dists set_accumulators fst snd activities].
    exists g2, (row_sq_norms (transpose batch)). done.
Qed.

Lemma sym_nonneg_init (n : nat) (g : nat -> nat -> Q) :
  (forall i j, (i < n)%nat -> (j < n)%nat -> g i j == g j i /\ 0 <= g i j) ->
  sym_nonneg (mat_init n n g).
Proof.
  intros Hg i j.
  destruct (decide (i < n)%nat) as [Hi|Hi], (decide (j < n)%nat) as [Hj|Hj].
  - rewrite !mat_at_init by done. by apply Hg.
  - unfold mat_at, mat_init. cbn [m_rows].
    rewrite !list_lookup_fmap, (lookup_seq_lt _ _ _ Hi), (lookup_seq_ge 0 n j) by lia.
    cbn [fmap option_fmap option_map mbind option_bind default].
    rewrite list_lookup_fmap, lookup_seq_ge by lia. done.
  - unfold mat_at, mat_init. cbn [m_rows].
    rewrite !list_lookup_fmap, (lookup_seq_lt _ _ _ Hj), (lookup_seq_ge 0 n i) by lia.
    cbn [fmap option_fmap option_map mbind option_bind default].
    rewrite list_lookup_fmap, lookup_seq_ge by lia. done.
  - unfold mat_at, mat_init. cbn [m_rows].
    rewrite !list_lookup_fmap, (lookup_seq_ge 0 n i), (lookup_seq_ge 0 n j) by lia.
    done.
Qed.

Lemma mat_map_init (f : Q -> Q) (n : nat) (g : nat -> nat -> Q) :
  mat_map f (mat_init n n g) = mat_init n n (fun i j => f (g i j)).
Proof.
  unfold mat_map, mat_init. cbn [m_cols m_rows]. f_equal.
  rewrite <- list_fmap_compose. apply list_fmap_ext. intros _ i _. cbn.
  by rewrite <- list_fmap_compose.
Qed.

Lemma register_all_inv (n : nat) (batches : list (matrix Q)) :
  forall l : PrunableLayer Q,
  dists_inv n l -> Forall (fun b => m_cols b = n) batches ->
  exists l', register_all l batches = Ok l' /\ dists_inv n l' /\
    (batches <> [] -> is_Some (dists l')).
Proof.
  unfold register_all.
  induction batches as [|b bs IH]; intros l Hinv Hall; cbn [foldlM].
  - exists l. done.
  - apply Forall_cons in Hall as [Hb Hbs].
    destruct (register_activities_inv n l b Hinv Hb) as (l1 & -> & Hinv1 & Hsome).
    cbn [mbind result_bind].
    destruct (IH l1 Hinv1 Hbs) as (l' & Hl' & Hinv' & Hs'). exists l'.
    split_and!; [done|done|]. intros _. destruct bs as [|b' bs'].
    + cbn [foldlM] in Hl'. by injection Hl' as <-.
    + by apply Hs'.
Qed.


Local Close Scope Q_scope.



(** * Further properties of the pruning pass *)

Section PruneFrame.
Context {R : Type} `{Scalar R}.

(** A call of [prune] that returns without pruning. *)
Lemma prune_Ok_none (l l' : PrunableLayer R) (params params' : gmap string (ndarray R)) :
  prune l params = Ok (l', params', None) ->
  exists l1 n,
    prune_init l = Ok l1 /\ n_to_delete_of l1 = Ok n /\ n <= 0 /\
    l' = reset l1 /\ params' = params.
Proof.
  unfold prune. intros Hp.
  apply bind_Ok in Hp as (l1 & Hinit & Hp).
  apply bind_Ok in Hp as (n & Hn & Hp).
  destruct (n <=? 0) eqn:Hle.
  - injection Hp as <- <-. exists l1, n. split_and!; try done. lia.
  - apply bind_Ok in Hp as ([[[l2 td] mn] mx] & Hsel & Hp).
    apply bind_Ok in Hp as (p & Hcomp & Hp).
    apply bind_Ok in Hp as (s & Hs & Hp). discriminate.
Qed.

(** What no call of [prune] changes. *)
Lemma prune_frame (l l' : PrunableLayer R) (params params' : gmap string (ndarray R)) lg :
  prune l params = Ok (l', params', lg) ->
  name l' = name l /\ trg_size l' = trg_size l /\ n_steps l' = n_steps l /\
  connections l' = connections l /\ maxout l' = maxout l /\
  store_obs l' = store_obs l.
Proof.
  intros Hp. destruct lg as [lg|].
  - apply prune_Ok_pruned in Hp as (l1 & n & td & mn & mx & Hi & _ & _ & Hsel & _ & _).
    apply prune_init_frame in Hi.
    apply prune_select_spec in Hsel as (l0 & sm & Hnorm & _ & Hf & _).
    apply normalize_Ok in Hnorm as (d & a & _ & _ & ->).
    unfold init_frame in Hi. unfold scan_frame in Hf. simpl in Hf.
    destruct Hi as (? & ? & ? & ? & ? & ? & ? & ? & ? & ? & ?).
    destruct Hf as (? & ? & ? & ? & ? & ? & ? & ? & ? & ? & ?).
    split_and!; congruence.
  - apply prune_Ok_none in Hp as (l1 & n & Hi & _ & _ & -> & _).
    apply prune_init_frame in Hi. unfold init_frame in Hi. simpl. tauto.
Qed.

(** The first lines of [prune] on a layer of [n] neurons. *)
Lemma prune_init_square (n : nat) (l l1 : PrunableLayer R) :
  prune_init l = Ok l1 -> accumulated n l ->
  mask l = None \/ mask_shape l = Some (n, n) ->
  accumulated n l1 /\ mask_shape l1 = Some (n, n).
Proof.
  intros Hi Hacc Hm.
  assert (Hacc1 : accumulated n l1).
  { apply prune_init_frame in Hi. unfold init_frame in Hi.
    destruct Hacc as (d & a & Hd & Ha & ?). exists d, a.
    destruct Hi as (_ & -> & -> & _). done. }
  split; [done|].
  destruct (mask l) as [m|] eqn:Hmask.
  - unfold prune_init in Hi. rewrite Hmask in Hi. injection Hi as <-.
    destruct Hm as [Hm|Hm]; [done|]. done.
  - destruct Hacc as (d & a & Hd & Ha & Hr & Hc & _).
    unfold prune_init in Hi. rewrite Hmask in Hi.
    unfold initialize_mask in Hi. rewrite Hd in Hi. simpl in Hi.
    unfold derive_step_size in Hi. simpl in Hi.
    destruct (n_steps l =? 0); [discriminate|]. injection Hi as <-.
    unfold mask_shape, np_triu. simpl.
    by rewrite mat_init_nrows, mat_map_nrows, Hr, Hc.
Qed.

End PruneFrame.

Section ScanPairs.
Context {R : Type} `{Scalar R}.

(** Every pair the scan chooses is a scanned position or its mirror
    image, and its second neuron, the deleted one, is not the more active
    of the two. *)
Lemma prune_scan_pairs (sm : matrix R) (ntd : Z) (idxs : list (nat * nat)) :
  forall (l : PrunableLayer R) td ms l' td' ms',
  prune_scan sm ntd idxs l td ms = Ok (l', td', ms') ->
  exists new : list (nat * nat),
    td' = td ++ new /\
    forall ij, ij ∈ new ->
      (ij ∈ idxs \/ (ij.2, ij.1) ∈ idxs) /\
      exists acts a1 a2,
        activities l = Some acts /\
        acts !! ij.1 = Some a1 /\ acts !! ij.2 = Some a2 /\
        (s_ltb a2 a1 = true \/ s_ltb a1 a2 = false).
Proof.
  induction idxs as [|[i j] rest IH]; intros l td ms l' td' ms' Hscan.
  - simpl in Hscan. injection Hscan as <- <- <-. exists [].
    rewrite app_nil_r. split; [done|]. intros ij Hij. by apply elem_of_nil in Hij.
  - simpl in Hscan.
    destruct (bool_decide (i ∈ pruned_neurons l) || bool_decide (j ∈ pruned_neurons l)).
    + destruct (IH _ _ _ _ _ _ Hscan) as (new & -> & Hnew).
      exists new. split; [done|]. intros ij Hij.
      destruct (Hnew ij Hij) as [Hpos Hact]. split; [|done].
      destruct Hpos as [Hpos|Hpos]; [left|right]; by apply elem_of_cons; right.
    + apply bind_Ok in Hscan as (score & Hscore & Hscan).
      apply bind_Ok in Hscan as (acts & Hacts%or_raise_Ok & Hscan).
      apply bind_Ok in Hscan as (ai & Hai%or_raise_Ok & Hscan).
      apply bind_Ok in Hscan as (aj & Haj%or_raise_Ok & Hscan).
      apply bind_Ok in Hscan as (m0 & Hm0 & Hscan).
      apply bind_Ok in Hscan as (m1 & Hm1 & Hscan).
      apply bind_Ok in Hscan as (m2 & Hm2 & Hscan).
      set (ij := if s_ltb ai aj then (j, i) else (i, j)) in *.
      assert (Hhere : (ij ∈ (i, j) :: rest \/ (ij.2, ij.1) ∈ (i, j) :: rest) /\
                exists acts a1 a2,
                  activities l = Some acts /\
                  acts !! ij.1 = Some a1 /\ acts !! ij.2 = Some a2 /\
                  (s_ltb a2 a1 = true \/ s_ltb a1 a2 = false)).
      { unfold ij. destruct (s_ltb ai aj) eqn:Hlt; simpl.
        - split; [right; by apply elem_of_cons; left|].
          exists acts, aj, ai. split_and!; try done. by left.
        - split; [left; by apply elem_of_cons; left|].
          exists acts, ai, aj. split_and!; try done. by right. }
      destruct (Z.of_nat (length (td ++ [ij])) >=? ntd).
      * injection Hscan as <- <- <-. exists [ij]. split; [done|].
        intros ij' ->%list_elem_of_singleton. exact Hhere.
      * destruct (IH _ _ _ _ _ _ Hscan) as (new & -> & Hnew).
        exists (ij :: new). split; [by rewrite <- app_assoc|].
        intros ij' [-> | Hij']%elem_of_cons; [exact Hhere|].
        destruct (Hnew ij' Hij') as [Hpos Hact]. split; [|exact Hact].
        destruct Hpos as [Hpos|Hpos]; [left|right]; by apply elem_of_cons; right.
Qed.

(** The same for the selection as a whole. *)
Lemma prune_select_pairs (l l' : PrunableLayer R) (n : Z) td mn mx :
  prune_select l n = Ok (l', td, mn, mx) ->
  exists l0 sm acts,
    normalize l = Ok l0 /\ search_matrix l0 = Ok sm /\
    activities l' = Some acts /\ activities l0 = Some acts /\
    forall ij, ij ∈ td ->
      (ij ∈ scan_order sm \/ (ij.2, ij.1) ∈ scan_order sm) /\
      exists a1 a2,
        acts !! ij.1 = Some a1 /\ acts !! ij.2 = Some a2 /\
        (s_ltb a2 a1 = true \/ s_ltb a1 a2 = false).
Proof.
  unfold prune_select. intros Hsel.
  apply bind_Ok in Hsel as (l0 & Hnorm & Hsel).
  apply bind_Ok in Hsel as (sm & Hsm & Hsel).
  apply bind_Ok in Hsel as (mn' & Hmin & Hsel).
  apply bind_Ok in Hsel as ([[l2 td2] mx2] & Hscan & Hsel).
  simpl in Hsel. injection Hsel as -> -> -> ->.
  pose proof (prune_scan_spec _ _ _ _ _ _ _ _ _ Hscan)
    as (new0 & _ & _ & Hf & _).
  apply prune_scan_pairs in Hscan as (new & Htd & Hnew).
  simpl in Htd. subst new.
  destruct (normalize_Ok _ _ Hnorm) as (d & a & Hd & Ha & Hl0).
  assert (Hacts0 : activities l0 = Some ((fun x => s_div x (n_obs l)) <$> a)).
  { by rewrite Hl0. }
  exists l0, sm, ((fun x => s_div x (n_obs l)) <$> a). split_and!; try done.
  - unfold scan_frame in Hf. destruct Hf as (_ & _ & -> & _). done.
  - intros ij Hij. destruct (Hnew ij Hij) as [Hpos (acts & a1 & a2 & Hacts & H1 & H2 & Hlt)].
    split; [done|]. rewrite Hacts0 in Hacts. injection Hacts as <-. eauto.
Qed.

(** Every pair the scan chooses comes from a scanned position (i, j): it
    is (i, j), and (j, i) when neuron i is the less active of the two. *)
Lemma prune_scan_positions (sm : matrix R) (ntd : Z) (idxs : list (nat * nat)) :
  forall (l : PrunableLayer R) td ms l' td' ms',
  prune_scan sm ntd idxs l td ms = Ok (l', td', ms') ->
  exists new : list (nat * nat),
    td' = td ++ new /\
    forall ij, ij ∈ new ->
      exists acts i j ai aj,
        (i, j) ∈ idxs /\ activities l = Some acts /\
        acts !! i = Some ai /\ acts !! j = Some aj /\
        ij = if s_ltb ai aj then (j, i) else (i, j).
Proof.
  induction idxs as [|[i j] rest IH]; intros l td ms l' td' ms' Hscan.
  - simpl in Hscan. injection Hscan as <- <- <-. exists [].
    rewrite app_nil_r. split; [done|]. intros ij Hij. by apply elem_of_nil in Hij.
  - simpl in Hscan.
    destruct (bool_decide (i ∈ pruned_neurons l) || bool_decide (j ∈ pruned_neurons l)).
    + destruct (IH _ _ _ _ _ _ Hscan) as (new & -> & Hnew).
      exists new. split; [done|]. intros ij Hij.
      destruct (Hnew ij Hij) as (acts & i' & j' & ai & aj & Hpos & Hrest).
      exists acts, i', j', ai, aj. split; [by apply elem_of_cons; right|done].
    + apply bind_Ok in Hscan as (score & Hscore & Hscan).
      apply bind_Ok in Hscan as (acts & Hacts%or_raise_Ok & Hscan).
      apply bind_Ok in Hscan as (ai & Hai%or_raise_Ok & Hscan).
      apply bind_Ok in Hscan as (aj & Haj%or_raise_Ok & Hscan).
      apply bind_Ok in Hscan as (m0 & Hm0 & Hscan).
      apply bind_Ok in Hscan as (m1 & Hm1 & Hscan).
      apply bind_Ok in Hscan as (m2 & Hm2 & Hscan).
      set (ij := if s_ltb ai aj then (j, i) else (i, j)) in *.
      assert (Hhere : exists acts i' j' ai' aj',
                (i', j') ∈ (i, j) :: rest /\ activities l = Some acts /\
                acts !! i' = Some ai' /\ acts !! j' = Some aj' /\
                ij = if s_ltb ai' aj' then (j', i') else (i', j')).
      { exists acts, i, j, ai, aj. split_and!; try done. by apply elem_of_cons; left. }
      destruct (Z.of_nat (length (td ++ [ij])) >=? ntd).
      * injection Hscan as <- <- <-. exists [ij]. split; [done|].
        intros ij' ->%list_elem_of_singleton. exact Hhere.
      * destruct (IH _ _ _ _ _ _ Hscan) as (new & -> & Hnew).
        exists (ij :: new). split; [by rewrite <- app_assoc|].
        intros ij' [-> | Hij']%elem_of_cons; [exact Hhere|].
        destruct (Hnew ij' Hij') as (acts' & i' & j' & ai' & aj' & Hpos & Hrest).
        exists acts', i', j', ai', aj'. split; [by apply elem_of_cons; right|done].
Qed.

(** The same for the selection as a whole: the positions are those of
    the search matrix, and the activities the means that the selection
    leaves in the layer. *)
Lemma prune_select_positions (l l' : PrunableLayer R) (n : Z) td mn mx :
  prune_select l n = Ok (l', td, mn, mx) ->
  exists l0 sm acts,
    normalize l = Ok l0 /\ search_matrix l0 = Ok sm /\
    activities l' = Some acts /\
    forall ij, ij ∈ td ->
      exists i j ai aj,
        (i, j) ∈ scan_order sm /\
        acts !! i = Some ai /\ acts !! j = Some aj /\
        ij = if s_ltb ai aj then (j, i) else (i, j).
Proof.
  unfold prune_select. intros Hsel.
  apply bind_Ok in Hsel as (l0 & Hnorm & Hsel).
  apply bind_Ok in Hsel as (sm & Hsm & Hsel).
  apply bind_Ok in Hsel as (mn' & Hmin & Hsel).
  apply bind_Ok in Hsel as ([[l2 td2] mx2] & Hscan & Hsel).
  simpl in Hsel. injection Hsel as -> -> -> ->.
  pose proof (prune_scan_spec _ _ _ _ _ _ _ _ _ Hscan)
    as (new0 & _ & _ & Hf & _).
  apply prune_scan_positions in Hscan as (new & Htd & Hnew).
  simpl in Htd. subst new.
  destruct (normalize_Ok _ _ Hnorm) as (d & a & Hd & Ha & Hl0).
  assert (Hacts0 : activities l0 = Some ((fun x => s_div x (n_obs l)) <$> a)).
  { by rewrite Hl0. }
  exists l0, sm, ((fun x => s_div x (n_obs l)) <$> a). split_and!; try done.
  - unfold scan_frame in Hf. destruct Hf as (_ & _ & -> & _). done.
  - intros ij Hij.
    destruct (Hnew ij Hij) as (acts & i & j & ai & aj & Hpos & Hacts & Hi & Hj & Hij').
    rewrite Hacts0 in Hacts. injection Hacts as <-. by exists i, j, ai, aj.
Qed.


(** [prune] never goes below the target and never brings a neuron back:
    the number of unpruned neurons after the call is at most the number
    before it, and at least the target size or, for a layer that was
    below its target already, that number. *)
Theorem prune_respects_target (l l' : PrunableLayer R)
    (params params' : gmap string (ndarray R)) (lg : option (PruneLog R)) :
  prune l params = Ok (l', params', lg) ->
  exists l1 c c',
    prune_init l = Ok l1 /\
    count_unpruned_neurons l1 = Ok c /\ count_unpruned_neurons l' = Ok c' /\
    c' <= c /\ Z.min c (trg_size l) <= c'.
Proof.
  intros Hp. destruct lg as [lg|].
  - apply prune_Ok_pruned in Hp as (l1 & n & td & mn & mx & Hi & Hn & Hpos & Hsel & _ & _).
    apply n_to_delete_count in Hn as (c & step & Hc & _ & ->).
    apply prune_select_spec in Hsel
      as (l0 & sm & _ & _ & _ & Hm & Hpr & _ & _ & _ & _ & Hk).
    exists l1, c, (c - Z.of_nat (length td.*2)). split_and!; try done.
    + by apply (count_unpruned_shape l1).
    + lia.
    + rewrite length_fmap.
      apply prune_init_frame in Hi. unfold init_frame in Hi.
      destruct Hi as (_ & _ & _ & _ & Ht & _). rewrite <- Ht.
      destruct (Hk Hpos) as [Heq | [Hlt _]]; lia.
  - apply prune_Ok_none in Hp as (l1 & n & Hi & Hn & _ & -> & _).
    apply n_to_delete_count in Hn as (c & step & Hc & _ & _).
    exists l1, c, c. split_and!; try done; lia.
Qed.

(** The list of pruned neurons stays a list of distinct neurons of the
    layer over any call of [prune] that returns, and the mask keeps its
    shape. *)
Theorem prune_keeps_pruned_distinct (n : nat) (l l' : PrunableLayer R)
    (params params' : gmap string (ndarray R)) (lg : option (PruneLog R)) :
  prune l params = Ok (l', params', lg) ->
  accumulated n l ->
  mask l = None \/ mask_shape l = Some (n, n) ->
  NoDup (pruned_neurons l) ->
  (forall j, j ∈ pruned_neurons l -> (j < n)%nat) ->
  NoDup (pruned_neurons l') /\
  (forall j, j ∈ pruned_neurons l' -> (j < n)%nat) /\
  mask_shape l' = Some (n, n).
Proof.
  intros Hp Hacc Hm Hnd Hrange. destruct lg as [lg|].
  - apply prune_Ok_pruned in Hp as (l1 & k & td & mn & mx & Hi & Hn & Hpos & Hsel & _ & _).
    destruct (prune_init_square n _ _ Hi Hacc Hm) as [Hacc1 Hm1].
    apply prune_init_frame in Hi. unfold init_frame in Hi.
    destruct Hi as (_ & _ & _ & _ & _ & _ & _ & Hpr1 & _).
    pose proof (prune_select_spec _ _ _ _ _ _ Hsel)
      as (l0 & sm & Hnorm & Hsm & _ & Hms & Hpr & Hndn & Hfresh & _).
    apply prune_select_pairs in Hsel as (l0' & sm' & acts & Hnorm' & Hsm' & _ & _ & Hpairs).
    rewrite Hnorm in Hnorm'. injection Hnorm' as <-.
    rewrite Hsm in Hsm'. injection Hsm' as <-.
    destruct (normalize_accumulated n l1 Hacc1) as (l0' & Hnorm' & Hacc0 & Hm0 & _).
    rewrite Hnorm in Hnorm'. injection Hnorm' as <-.
    assert (Hms0 : mask_shape l0 = Some (n, n)) by (unfold mask_shape; by rewrite Hm0).
    destruct (search_matrix_square n l0 Hacc0 Hms0) as [g Hsq].
    rewrite Hsm in Hsq. injection Hsq as ->.
    rewrite Hpr, Hpr1. split_and!.
    + apply NoDup_app. split_and!; [done| |done].
      intros j Hj Hj'. apply (Hfresh j Hj'). by rewrite Hpr1.
    + intros j [Hj | Hj]%elem_of_app; [by apply Hrange|].
      apply list_elem_of_fmap in Hj as (ij & -> & Hij).
      destruct (Hpairs ij Hij) as [[Hin|Hin] _].
      * eapply (scan_order_range _ n) in Hin;
          [tauto|apply mat_init_wf|apply mat_init_nrows|done].
      * eapply (scan_order_range _ n) in Hin;
          [simpl in Hin; tauto|apply mat_init_wf|apply mat_init_nrows|done].
    + by rewrite Hms.
  - apply prune_Ok_none in Hp as (l1 & k & Hi & _ & _ & -> & _).
    destruct (prune_init_square n _ _ Hi Hacc Hm) as [_ Hm1].
    apply prune_init_frame in Hi. unfold init_frame in Hi.
    destruct Hi as (_ & _ & _ & _ & _ & _ & _ & Hpr1 & _).
    simpl. rewrite Hpr1. split_and!; done.
Qed.

End ScanPairs.

(** ** The mask *)

Section MaskFacts.
Context {R : Type} `{Scalar R}.

Lemma mat_set_row_at (v : R) (j : nat) (m m' : matrix R) :
  mat_wf m -> mat_set_row v (Z.of_nat j) m = Ok m' ->
  mat_wf m' /\
  forall i k, (i < m_nrows m)%nat -> (k < m_cols m)%nat ->
    mat_at m' i k = if bool_decide (i = j) then v else mat_at m i k.
Proof.
  intros Hwf Hs. unfold mat_set_row in Hs.
  apply bind_Ok in Hs as (i0 & Hi0 & Hs). injection Hs as <-.
  apply py_index_nonneg in Hi0 as [Hi0 Hlt]; [|lia]. apply Nat2Z.inj in Hi0. subst i0.
  split.
  - unfold mat_wf in *. simpl. apply Forall_alter; [done|].
    intros r _ Hr. by rewrite length_fmap.
  - intros i k Hi Hk. unfold mat_at. simpl. rewrite list_lookup_alter.
    case_bool_decide as Hij.
    + subst i. rewrite decide_True by done.
      destruct (lookup_lt_is_Some_2 (m_rows m) j) as [r Hr]; [done|].
      rewrite Hr. simpl. rewrite list_lookup_fmap.
      assert (Hlen : length r = m_cols m).
      { unfold mat_wf in Hwf. rewrite Forall_lookup in Hwf. by apply (Hwf j). }
      destruct (lookup_lt_is_Some_2 r k) as [x ->]; [lia|]. done.
    + rewrite decide_False by done. done.
Qed.

Lemma mat_set_col_at (v : R) (j : nat) (m m' : matrix R) :
  mat_wf m -> mat_set_col v (Z.of_nat j) m = Ok m' ->
  mat_wf m' /\
  forall i k, (i < m_nrows m)%nat -> (k < m_cols m)%nat ->
    mat_at m' i k = if bool_decide (k = j) then v else mat_at m i k.
Proof.
  intros Hwf Hs. unfold mat_set_col in Hs.
  apply bind_Ok in Hs as (j0 & Hj0 & Hs). injection Hs as <-.
  apply py_index_nonneg in Hj0 as [Hj0 Hlt]; [|lia]. apply Nat2Z.inj in Hj0. subst j0.
  split.
  - unfold mat_wf in *. simpl. apply Forall_fmap. eapply Forall_impl; [exact Hwf|].
    intros r Hr. simpl. by rewrite length_insert.
  - intros i k Hi Hk. unfold mat_at. simpl. rewrite list_lookup_fmap.
    destruct (lookup_lt_is_Some_2 (m_rows m) i) as [r Hr]; [done|].
    rewrite Hr. simpl.
    assert (Hlen : length r = m_cols m).
    { unfold mat_wf in Hwf. rewrite Forall_lookup in Hwf. by apply (Hwf i). }
    case_bool_decide as Hkj.
    + subst k. rewrite list_lookup_insert_eq by lia. done.
    + rewrite list_lookup_insert_ne by done. done.
Qed.

Lemma bool_decide_elem_cons (x y : nat) (ys : list nat) :
  bool_decide (x ∈ y :: ys) = bool_decide (x = y) || bool_decide (x ∈ ys).
Proof.
  destruct (bool_decide (x = y)) eqn:Hxy; simpl.
  - apply bool_decide_eq_true in Hxy. apply bool_decide_eq_true.
    apply elem_of_cons. by left.
  - apply bool_decide_eq_false in Hxy. apply bool_decide_ext.
    rewrite elem_of_cons. tauto.
Qed.

(** The scan sets the rows and the columns of the neurons it prunes to
    [INF_DIST] and leaves the other entries of the mask alone. *)
Lemma prune_scan_mask (sm : matrix R) (ntd : Z) (idxs : list (nat * nat)) :
  forall (l : PrunableLayer R) td ms l' td' ms' m,
  prune_scan sm ntd idxs l td ms = Ok (l', td', ms') ->
  mask l = Some m -> mat_wf m ->
  exists (new : list (nat * nat)) m',
    td' = td ++ new /\ mask l' = Some m' /\ mat_wf m' /\
    m_nrows m' = m_nrows m /\ m_cols m' = m_cols m /\
    forall i k, (i < m_nrows m)%nat -> (k < m_cols m)%nat ->
      mat_at m' i k
      = if bool_decide (i ∈ new.*2) || bool_decide (k ∈ new.*2)
        then INF_DIST else mat_at m i k.
Proof.
  induction idxs as [|[i j] rest IH]; intros l td ms l' td' ms' m Hscan Hm Hwf.
  - simpl in Hscan. injection Hscan as <- <- <-. exists [], m.
    rewrite app_nil_r. split_and!; try done.
  - simpl in Hscan.
    destruct (bool_decide (i ∈ pruned_neurons l) || bool_decide (j ∈ pruned_neurons l)).
    { by eapply IH. }
    apply bind_Ok in Hscan as (score & Hscore & Hscan).
    apply bind_Ok in Hscan as (acts & Hacts%or_raise_Ok & Hscan).
    apply bind_Ok in Hscan as (ai & Hai%or_raise_Ok & Hscan).
    apply bind_Ok in Hscan as (aj & Haj%or_raise_Ok & Hscan).
    apply bind_Ok in Hscan as (m0 & Hm0%or_raise_Ok & Hscan).
    apply bind_Ok in Hscan as (m1 & Hm1 & Hscan).
    apply bind_Ok in Hscan as (m2 & Hm2 & Hscan).
    set (ij := if s_ltb ai aj then (j, i) else (i, j)) in *.
    simpl in Hm0. rewrite Hm in Hm0. injection Hm0 as <-.
    destruct (mat_set_row_shape _ _ _ _ Hm1) as [Hr1 Hc1].
    destruct (mat_set_col_shape _ _ _ _ Hm2) as [Hr2 Hc2].
    destruct (mat_set_row_at _ _ _ _ Hwf Hm1) as [Hwf1 Hat1].
    destruct (mat_set_col_at _ _ _ _ Hwf1 Hm2) as [Hwf2 Hat2].
    assert (Hone : forall i' k, (i' < m_nrows m)%nat -> (k < m_cols m)%nat ->
              mat_at m2 i' k
              = if bool_decide (i' = ij.2) || bool_decide (k = ij.2)
                then INF_DIST else mat_at m i' k).
    { intros i' k Hi' Hk. rewrite Hat2 by lia. rewrite Hat1 by lia.
      repeat case_bool_decide; done. }
    destruct (Z.of_nat (length (td ++ [ij])) >=? ntd).
    + injection Hscan as <- <- <-. exists [ij], m2.
      split_and!; try done; try congruence.
      intros i' k Hi' Hk. rewrite Hone by done. simpl.
      rewrite !bool_decide_elem_cons.
      replace (bool_decide (i' ∈ [])) with false
        by (symmetry; apply bool_decide_eq_false, not_elem_of_nil).
      replace (bool_decide (k ∈ [])) with false
        by (symmetry; apply bool_decide_eq_false, not_elem_of_nil).
      by rewrite !orb_false_r.
    + destruct (IH _ _ _ _ _ _ m2 Hscan) as (new & m' & -> & Hm' & Hwf' & Hr' & Hc' & Hat');
        [done|done|].
      exists (ij :: new), m'. split_and!; try done; try congruence.
      { by rewrite <- app_assoc. }
      intros i' k Hi' Hk. rewrite Hat' by lia. rewrite Hone by done.
      rewrite fmap_cons, !bool_decide_elem_cons.
      destruct (bool_decide (i' = ij.2)), (bool_decide (k = ij.2)),
        (bool_decide (i' ∈ new.*2)), (bool_decide (k ∈ new.*2)); done.
Qed.

(** The mask after a call of [prune] that pruned: the rows and the
    columns of the neurons pruned by this call hold [INF_DIST], every
    other entry is what it was before the scan; and on the first call the
    mask before the scan holds [INF_DIST * 1.0] on and above the diagonal
    and 0.0 below it. *)
Theorem prune_mask_update (l l' : PrunableLayer R)
    (params params' : gmap string (ndarray R)) (lg : PruneLog R) :
  prune l params = Ok (l', params', Some lg) ->
  (forall m, mask l = Some m -> mat_wf m) ->
  (forall d, dists l = Some d -> mat_wf d) ->
  exists l1 m m' (td : list (nat * nat)),
    prune_init l = Ok l1 /\ mask l1 = Some m /\ mask l' = Some m' /\ mat_wf m' /\
    pruned_neurons l' = pruned_neurons l ++ td.*2 /\
    (forall i k, (i < m_nrows m)%nat -> (k < m_cols m)%nat ->
       mat_at m' i k
       = if bool_decide (i ∈ td.*2) || bool_decide (k ∈ td.*2)
         then INF_DIST else mat_at m i k) /\
    (mask l = None ->
     forall i k, (i < m_nrows m)%nat -> (k < m_cols m)%nat ->
       mat_at m i k
       = if (i <=? k)%nat then s_mul INF_DIST (s_of_Z 1) else s_zero).
Proof.
  intros Hp Hwf Hwfd.
  apply prune_Ok_pruned in Hp as (l1 & n & td & mn & mx & Hi & Hn & Hpos & Hsel & _ & _).
  pose proof (prune_init_frame _ _ Hi) as Hfr.
  assert (Hm1 : exists m, mask l1 = Some m /\ mat_wf m /\
            (mask l = None ->
             forall i k, (i < m_nrows m)%nat -> (k < m_cols m)%nat ->
               mat_at m i k
               = if (i <=? k)%nat then s_mul INF_DIST (s_of_Z 1) else s_zero)).
  { unfold prune_init in Hi. destruct (mask l) as [m|] eqn:Hmask.
    - injection Hi as <-. exists m. rewrite Hmask. split_and!; [done|by apply Hwf|done].
    - apply bind_Ok in Hi as (l0 & Hl0 & Hi).
      unfold initialize_mask in Hl0.
      apply bind_Ok in Hl0 as (d & Hd%or_raise_Ok & Hl0). injection Hl0 as <-.
      unfold derive_step_size in Hi.
      apply bind_Ok in Hi as (sz & _ & Hi).
      destruct (n_steps _ =? 0); [discriminate|]. injection Hi as <-.
      eexists. simpl. split_and!; [done|apply mat_init_wf|].
      intros _ i k Hik Hk. unfold np_triu in *.
      rewrite mat_init_nrows in Hik. simpl in Hk.
      rewrite mat_at_init by done.
      destruct (i <=? k)%nat; [|done].
      unfold mat_at, mat_map. simpl. rewrite list_lookup_fmap.
      rewrite mat_map_nrows in Hik.
      destruct (lookup_lt_is_Some_2 (m_rows d) i) as [r Hr]; [done|].
      rewrite Hr. simpl. rewrite list_lookup_fmap.
      assert (Hlen : length r = m_cols d).
      { specialize (Hwfd d Hd). unfold mat_wf in Hwfd.
        rewrite Forall_lookup in Hwfd. by apply (Hwfd i). }
      destruct (lookup_lt_is_Some_2 r k) as [x ->]; [lia|]. done. }
  destruct Hm1 as (m & Hm & Hwfm & Hfirst).
  unfold prune_select in Hsel.
  apply bind_Ok in Hsel as (l0 & Hnorm & Hsel).
  apply bind_Ok in Hsel as (sm & Hsm & Hsel).
  apply bind_Ok in Hsel as (mn' & Hmin & Hsel).
  apply bind_Ok in Hsel as ([[l2 td2] mx2] & Hscan & Hsel).
  simpl in Hsel. injection Hsel as -> -> -> ->.
  apply normalize_Ok in Hnorm as (d & a & Hd & Ha & ->).
  pose proof (prune_scan_spec _ _ _ _ _ _ _ _ _ Hscan)
    as (new0 & Htd0 & Hpr & _).
  apply (prune_scan_mask _ _ _ _ _ _ _ _ _ m) in Hscan
    as (new & m' & Htd & Hm' & Hwf' & _ & _ & Hat); [|done..].
  simpl in Htd, Htd0, Hpr. subst new new0.
  exists l1, m, m', td. split_and!; try done.
  rewrite Hpr. unfold init_frame in Hfr.
  destruct Hfr as (_ & _ & _ & _ & _ & _ & _ & -> & _). done.
Qed.

End MaskFacts.

(** ** Edge cases of [register_activities], [prune] and [sanity_check] *)

Section EdgeCases.
Context {R : Type} `{Scalar R}.

Lemma broadcast_dim_raise (a b : nat) (e : exn) :
  broadcast_dim a b = Raise e -> e = ValueError.
Proof.
  unfold broadcast_dim. destruct (a =? b)%nat; [done|].
  destruct (a =? 1)%nat; [done|]. destruct (b =? 1)%nat; [done|]. congruence.
Qed.

Lemma broadcast_dim_mismatch (a b : nat) :
  a <> b -> b <> 1%nat ->
  broadcast_dim a b = Raise ValueError \/ (a = 1%nat /\ broadcast_dim a b = Ok b).
Proof.
  intros Hab Hb. unfold broadcast_dim.
  destruct (a =? b)%nat eqn:E1; [apply Nat.eqb_eq in E1; lia|].
  destruct (a =? 1)%nat eqn:E2; [apply Nat.eqb_eq in E2; by right|].
  destruct (b =? 1)%nat eqn:E3; [apply Nat.eqb_eq in E3; lia|]. by left.
Qed.

Lemma mat_iadd_mismatch (d s : matrix R) (k : nat) :
  m_nrows s = k -> k <> m_nrows d -> k <> 1%nat ->
  mat_iadd d s = Raise ValueError.
Proof.
  intros Hs Hne H1. unfold mat_iadd, mat_binop. rewrite Hs.
  destruct (broadcast_dim_mismatch (m_nrows d) k) as [-> | [Hd1 ->]]; [lia|done|done|].
  cbn [mbind result_bind].
  destruct (broadcast_dim (m_cols d) (m_cols s)) as [c|e] eqn:Hc.
  - cbn [mbind result_bind]. rewrite mat_init_nrows.
    replace (k =? m_nrows d)%nat with false; [done|].
    symmetry. apply Nat.eqb_neq. lia.
  - apply broadcast_dim_raise in Hc as ->. done.
Qed.

(** A batch of another width than the accumulated one is refused: with
    distances of [n] neurons accumulated, [register_activities] on a
    batch of [k] neurons raises [ValueError] at [self.dists += dists_sq]
    (a batch of one neuron is left out: numpy broadcasts it). *)
Theorem register_width_mismatch (l : PrunableLayer R) (d batch : matrix R) :
  dists l = Some d -> m_cols batch <> m_nrows d -> m_cols batch <> 1%nat ->
  register_activities l batch = Raise ValueError.
Proof.
  intros Hd Hne H1. unfold register_activities. rewrite Hd.
  rewrite (mat_iadd_mismatch d _ (m_cols batch)); [done| |done..].
  unfold batch_dists_sq, transpose. by rewrite !mat_init_nrows.
Qed.

Lemma sanity_check_conn_empty (P : gmap string (ndarray R)) (st : option R * R)
    (conn : Connection R) (a : ndarray R) (off : Z) :
  P !! mat_name conn = Some a -> conn_offset conn a = Ok off ->
  is_Some (axis_len a (dim conn)) ->
  sanity_check_conn [] P st conn = Raise ValueError.
Proof.
  intros Ha Hoff Hax. unfold sanity_check_conn. rewrite Ha.
  cbn [or_raise mbind result_bind]. rewrite Hoff.
  cbn [mbind result_bind fmap list_fmap].
  assert (Hsel : select_entries a (dim conn) [] = Ok (Some [])).
  { destruct a as [v|m]; simpl; [done|].
    unfold axis_len in Hax. destruct (dim conn =? 0); [done|].
    destruct (dim conn =? 1); [|by destruct Hax].
    simpl. f_equal. f_equal. induction (m_rows m) as [|r rs IH]; [done|]. simpl. done. }
  rewrite Hsel. done.
Qed.

(** [sanity_check] on a layer with a connection and no pruned neuron:
    the selection [mat[[]]] is empty and [np.max] raises. *)
Lemma sanity_check_empty_raises (l : PrunableLayer R) (P : gmap string (ndarray R))
    (conn : Connection R) (rest : list (Connection R)) (a : ndarray R) (off : Z) :
  pruned_neurons l = [] -> connections l = conn :: rest ->
  P !! mat_name conn = Some a -> conn_offset conn a = Ok off ->
  is_Some (axis_len a (dim conn)) ->
  sanity_check l P = Raise ValueError.
Proof.
  intros Hp Hc Ha Hoff Hax. unfold sanity_check. rewrite Hp, Hc.
  cbn [foldlM]. by rewrite (sanity_check_conn_empty P _ conn a off).
Qed.

(** A first call of [prune] that finds nothing to prune makes the sanity
    check that follows it in [process_batch] fail: when the layer has a
    connection and no pruned neuron, [prune] resets the accumulators and
    returns, and [sanity_check] raises [ValueError]. *)
Theorem sanity_check_after_idle_prune (l l' : PrunableLayer R)
    (P P' : gmap string (ndarray R)) (conn : Connection R)
    (rest : list (Connection R)) (a : ndarray R) (off : Z) :
  prune l P = Ok (l', P', None) ->
  pruned_neurons l = [] -> connections l = conn :: rest ->
  P !! mat_name conn = Some a -> conn_offset conn a = Ok off ->
  is_Some (axis_len a (dim conn)) ->
  P' = P /\ dists l' = None /\ pruned_neurons l' = [] /\
  sanity_check l' P' = Raise ValueError.
Proof.
  intros Hp Hpr Hc Ha Hoff Hax.
  pose proof (prune_frame _ _ _ _ _ Hp) as (_ & _ & _ & Hc' & _).
  apply prune_Ok_none in Hp as (l1 & n & Hi & _ & _ & -> & ->).
  apply prune_init_frame in Hi. unfold init_frame in Hi.
  destruct Hi as (_ & _ & _ & _ & _ & _ & _ & Hpr1 & _).
  assert (Hpr' : pruned_neurons (reset l1) = []) by (simpl; congruence).
  split_and!; try done.
  eapply sanity_check_empty_raises; try done. by rewrite Hc'.
Qed.

(** What makes [prune] raise: no step to prune in ([n_steps] 0) on the
    first call gives [ZeroDivisionError]; and when there is something to
    prune, a layer that was reset and has seen no batch since gives
    [TypeError] at [self.activities /= self.n_obs]. *)
Theorem prune_raises (l : PrunableLayer R) (params : gmap string (ndarray R)) :
  (mask l = None -> is_Some (dists l) -> n_steps l = 0 ->
   prune l params = Raise ZeroDivisionError) /\
  (forall n, is_Some (mask l) -> n_to_delete_of l = Ok n -> 0 < n ->
     prune (reset l) params = Raise TypeError).
Proof.
  split.
  - intros Hm [d Hd] Hn. unfold prune, prune_init, initialize_mask.
    rewrite Hm, Hd. simpl. unfold derive_step_size. simpl. by rewrite Hn.
  - intros n [m Hm] Hn Hpos. unfold prune, prune_init. simpl. rewrite Hm.
    cbn [mbind result_bind].
    assert (Hn' : n_to_delete_of (reset l) = Ok n).
    { unfold n_to_delete_of, count_unpruned_neurons, get_size in *. simpl. exact Hn. }
    rewrite Hn'. cbn [mbind result_bind].
    replace (n <=? 0) with false by lia. done.
Qed.

(** A layer without connections (no line of the layout file names it) is
    pruned in the accounts only: [prune] changes no parameter, and the
    sanity check reports 0.0 whatever the parameters hold. *)
Theorem prune_without_connections (l l' : PrunableLayer R)
    (P P' : gmap string (ndarray R)) (lg : option (PruneLog R)) :
  prune l P = Ok (l', P', lg) -> connections l = [] ->
  P' = P /\ forall P'', sanity_check l' P'' = Ok s_zero.
Proof.
  intros Hp Hc.
  pose proof (prune_frame _ _ _ _ _ Hp) as (_ & _ & _ & Hc' & _).
  rewrite Hc in Hc'. split.
  - destruct lg as [lg|].
    + apply prune_Ok_pruned in Hp as (l1 & n & td & mn & mx & _ & _ & _ & _ & Hcomp & _).
      unfold compensate_for_pruning, _compensate_for_pruning_sum in Hcomp.
      rewrite Hc' in Hcomp. clear -Hcomp.
      induction td as [|ij td IH]; simpl in Hcomp; [congruence|]. by apply IH.
    + by apply prune_Ok_none in Hp as (l1 & n & _ & _ & _ & _ & ->).
  - intros P''. unfold sanity_check. by rewrite Hc'.
Qed.

End EdgeCases.


Lemma prune_respects_target_witness :
  exists l1 c c',
    prune_init ex_layer10 = Ok l1 /\
    count_unpruned_neurons l1 = Ok c /\
    count_unpruned_neurons ex_pruned10.1.1 = Ok c' /\
    c' <= c /\ Z.min c (trg_size ex_layer10) <= c'.
Proof.
  apply (prune_respects_target ex_layer10 ex_pruned10.1.1 ∅ ex_pruned10.1.2 ex_pruned10.2).
  vm_compute. reflexivity.
Defined.

Lemma prune_keeps_pruned_distinct_witness :
  NoDup (pruned_neurons ex_pruned10.1.1) /\
  (forall j, j ∈ pruned_neurons ex_pruned10.1.1 -> (j < 10)%nat) /\
  mask_shape ex_pruned10.1.1 = Some (10, 10)%nat.
Proof.
  apply (prune_keeps_pruned_distinct 10 ex_layer10 ex_pruned10.1.1 ∅ ex_pruned10.1.2
           ex_pruned10.2).
  - vm_compute. reflexivity.
  - exists ex_dists10, ex_acts10. repeat split.
  - left. reflexivity.
  - vm_compute. constructor.
  - intros j Hj. vm_compute in Hj. inversion Hj.
Defined.

Lemma prune_mask_update_witness :
  exists l1 m m' (td : list (nat * nat)),
    prune_init ex_layer10 = Ok l1 /\ mask l1 = Some m /\
    mask ex_pruned10.1.1 = Some m' /\ mat_wf m' /\
    pruned_neurons ex_pruned10.1.1 = pruned_neurons ex_layer10 ++ td.*2 /\
    (forall i k, (i < m_nrows m)%nat -> (k < m_cols m)%nat ->
       mat_at m' i k
       = if bool_decide (i ∈ td.*2) || bool_decide (k ∈ td.*2)
         then INF_DIST else mat_at m i k) /\
    (mask ex_layer10 = None ->
     forall i k, (i < m_nrows m)%nat -> (k < m_cols m)%nat ->
       mat_at m i k
       = if (i <=? k)%nat then s_mul INF_DIST (s_of_Z 1) else s_zero).
Proof.
  apply (prune_mask_update ex_layer10 ex_pruned10.1.1 ∅ ex_pruned10.1.2 ex_log10).
  - vm_compute. reflexivity.
  - intros m Hm. vm_compute in Hm. inversion Hm.
  - intros d Hd. vm_compute in Hd. injection Hd as <-.
    repeat first [apply List.Forall_nil | apply List.Forall_cons; [reflexivity|]].
Defined.

Lemma register_width_mismatch_witness :
  register_activities ex_layer10 (Mat 3 [[1; 2; 3]]%Q) = Raise ValueError.
Proof.
  apply (register_width_mismatch ex_layer10 ex_dists10 (Mat 3 [[1; 2; 3]]%Q)).
  - reflexivity.
  - vm_compute. lia.
  - vm_compute. lia.
Defined.

Lemma sanity_check_after_idle_prune_witness :
  exists l',
    prune ex_layer3_full ex_store = Ok (l', ex_store, None) /\
    dists l' = None /\ pruned_neurons l' = [] /\
    sanity_check l' ex_store = Raise ValueError.
Proof.
  assert (Hprune : exists l', prune ex_layer3_full ex_store = Ok (l', ex_store, None)).
  { eexists. vm_compute. reflexivity. }
  destruct Hprune as [l' Hprune]. exists l'. split; [exact Hprune|].
  apply (sanity_check_after_idle_prune ex_layer3_full l' ex_store ex_store
           (mkConnection "in" "W" 0 0%Q) [mkConnection "out" "U" 1 (1 # 2)%Q]
           (Arr2 (Mat 2 [[1; 1]; [2; 2]; [3; 3]]%Q)) 0 Hprune).
  - vm_compute. reflexivity.
  - vm_compute. reflexivity.
  - vm_compute. reflexivity.
  - vm_compute. reflexivity.
  - vm_compute. by eexists.
Defined.

Lemma prune_raises_witness :
  prune ex_layer_nosteps ∅ = Raise ZeroDivisionError /\
  prune (reset ex_layer10_init) ∅ = Raise TypeError.
Proof.
  split.
  - apply (prune_raises ex_layer_nosteps ∅).
    + vm_compute. reflexivity.
    + vm_compute. by eexists.
    + vm_compute. reflexivity.
  - apply (proj2 (prune_raises ex_layer10_init ∅) 2).
    + vm_compute. by eexists.
    + vm_compute. reflexivity.
    + lia.
Defined.

Lemma prune_without_connections_witness :
  ex_pruned10.1.2 = ∅ /\ forall P'', sanity_check ex_pruned10.1.1 P'' = Ok s_zero.
Proof.
  apply (prune_without_connections ex_layer10 ex_pruned10.1.1 ∅ ex_pruned10.1.2
           ex_pruned10.2).
  - vm_compute. reflexivity.
  - vm_compute. reflexivity.
Defined.

(** ** What the accumulators stand for, in exact arithmetic *)

Local Open Scope Q_scope.

Lemma batch_dists_sq_value (batch : matrix Q) :
  exists g,
    batch_dists_sq (transpose batch) = mat_init (m_cols batch) (m_cols batch) g /\
    forall i j, (i < m_cols batch)%nat -> (j < m_cols batch)%nat ->
      g i j == batch_sq_dist batch i j.
Proof.
  unfold batch_dists_sq.
  assert (Hn : m_nrows (transpose batch) = m_cols batch) by apply mat_init_nrows.
  rewrite Hn. eexists. split; [reflexivity|].
  intros i j Hi Hj. cbv beta.
  unfold row_sq_norms. rewrite !list_lookup_fmap, !transpose_row by done.
  cbn [fmap option_fmap option_map default].
  change (@s_add Q Q_scalar) with Qplus. change (@s_mul Q Q_scalar) with Qmult.
  change (@s_of_Z Q Q_scalar) with inject_Z.
  set (fi := fun k => mat_at batch k i). set (fj := fun k => mat_at batch k j).
  pose proof (gram_identity fi fj (seq 0 (m_nrows batch))) as Hij.
  change (@s_mul Q Q_scalar) with Qmult in Hij.
  rewrite Hij. reflexivity.
Qed.

Lemma row_sq_norms_value (batch : matrix Q) (i : nat) :
  (i < m_cols batch)%nat ->
  exists v, row_sq_norms (transpose batch) !! i = Some v /\ v == batch_sq_act batch i.
Proof.
  intros Hi. unfold row_sq_norms. rewrite list_lookup_fmap, transpose_row by done.
  cbn [fmap option_fmap option_map]. eexists. split; [reflexivity|].
  rewrite np_sum_qsum. unfold batch_sq_act.
  change (@s_mul Q Q_scalar) with Qmult.
  rewrite <- list_fmap_compose. reflexivity.
Qed.

Lemma vec_iadd_value (n : nat) (a b : list Q) :
  length a = n -> length b = n ->
  exists c, vec_iadd a b = Ok c /\ length c = n /\
    forall i, (i < n)%nat ->
      default 0 (c !! i) = default 0 (a !! i) + default 0 (b !! i).
Proof.
  intros Ha Hb. unfold vec_iadd. rewrite Ha, Hb, broadcast_dim_same.
  cbn [mbind result_bind]. rewrite Nat.eqb_refl. eexists. split; [reflexivity|].
  split; [by rewrite length_fmap, length_seq|].
  intros i Hi. rewrite list_lookup_fmap, lookup_seq_lt by done.
  cbn [fmap option_fmap option_map default id Nat.add].
  assert (Hp : (if (n =? 1)%nat then 0%nat else i) = i).
  { destruct (Nat.eqb_spec n 1); [lia|done]. }
  rewrite Hp. reflexivity.
Qed.

Lemma sums_inv_ext (n : nat) (l : PrunableLayer Q) (D D' : nat -> nat -> Q)
    (A A' : nat -> Q) (N N' : Q) :
  (forall i j, D i j == D' i j) -> (forall i, A i == A' i) -> N == N' ->
  sums_inv n l D A N -> sums_inv n l D' A' N'.
Proof.
  intros HD HA HN (g & a & Hd & Ha & Hlen & Hg & Hact & Hobs).
  exists g, a. split_and!; try done.
  - intros i j Hi Hj. by rewrite <- HD, Hg.
  - intros i Hi. by rewrite <- HA, Hact.
  - by rewrite <- HN.
Qed.

(** The first batch after a reset. *)
Lemma register_first_sums (n : nat) (l : PrunableLayer Q) (batch : matrix Q) :
  dists l = None -> m_cols batch = n ->
  exists l', register_activities l batch = Ok l' /\
    sums_inv n l' (batch_sq_dist batch) (batch_sq_act batch)
      (n_obs l + inject_Z (Z.of_nat (m_nrows batch))).
Proof.
  intros Hd Hn. unfold register_activities. rewrite Hd.
  cbn [mbind result_bind]. eexists. split; [reflexivity|].
  destruct (batch_dists_sq_value batch) as (g & Hg & Hval).
  rewrite Hn in Hg, Hval.
  exists g, (row_sq_norms (transpose batch)).
  cbn [dists activities n_obs set_accumulators fst snd]. split_and!.
  - by rewrite Hg.
  - done.
  - rewrite row_sq_norms_length. unfold transpose. by rewrite mat_init_nrows.
  - done.
  - intros i Hi. destruct (row_sq_norms_value batch i) as (v & -> & Hv); [lia|]. done.
  - unfold transpose. cbn [m_cols mat_init]. reflexivity.
Qed.

(** One batch more. *)
Lemma register_next_sums (n : nat) (l : PrunableLayer Q) (batch : matrix Q)
    (D : nat -> nat -> Q) (A : nat -> Q) (N : Q) :
  sums_inv n l D A N -> m_cols batch = n ->
  exists l', register_activities l batch = Ok l' /\
    sums_inv n l' (fun i j => D i j + batch_sq_dist batch i j)
      (fun i => A i + batch_sq_act batch i)
      (N + inject_Z (Z.of_nat (m_nrows batch))).
Proof.
  intros (g1 & a & Hd & Ha & Hlen & Hg1 & Hact & Hobs) Hn.
  unfold register_activities. rewrite Hd.
  destruct (batch_dists_sq_value batch) as (g2 & Hg2 & Hval).
  rewrite Hn in Hg2, Hval. rewrite Hg2.
  destruct (mat_iadd_init n g1 g2) as (g & -> & Hg). rewrite Ha.
  cbn [mbind result_bind or_raise].
  destruct (vec_iadd_value n a (row_sq_norms (transpose batch))) as (c & -> & Hc & Hcv).
  { done. }
  { rewrite row_sq_norms_length. unfold transpose. by rewrite mat_init_nrows. }
  cbn [mbind result_bind]. eexists. split; [reflexivity|].
  exists g, c. cbn [dists activities n_obs set_accumulators fst snd]. split_and!.
  - done.
  - done.
  - done.
  - intros i j Hi Hj. rewrite Hg by done. by rewrite Hg1, Hval.
  - intros i Hi. rewrite Hcv by done. rewrite Hact by done.
    destruct (row_sq_norms_value batch i) as (v & -> & Hv); [lia|].
    cbn [default]. by rewrite Hv.
  - change (@s_add Q Q_scalar) with Qplus. change (@s_of_Z Q Q_scalar) with inject_Z.
    unfold transpose. cbn [m_cols mat_init]. by rewrite Hobs.
Qed.

Lemma register_all_sums (n : nat) (batches : list (matrix Q)) :
  forall (l : PrunableLayer Q) D A N,
  sums_inv n l D A N -> Forall (fun b => m_cols b = n) batches ->
  exists l', register_all l batches = Ok l' /\
    sums_inv n l' (fun i j => D i j + total_sq_dist batches i j)
      (fun i => A i + total_sq_act batches i)
      (N + inject_Z (total_obs batches)).
Proof.
  unfold register_all.
  induction batches as [|b bs IH]; intros l D A N Hinv Hall; cbn [foldlM].
  - exists l. split; [done|]. eapply sums_inv_ext; [| | |exact Hinv].
    + intros i j. unfold total_sq_dist, qsum. cbn. ring.
    + intros i. unfold total_sq_act, qsum. cbn. ring.
    + unfold total_obs. cbn. ring.
  - apply Forall_cons in Hall as [Hb Hbs].
    destruct (register_next_sums n l b D A N Hinv Hb) as (l1 & -> & Hinv1).
    cbn [mbind result_bind].
    destruct (IH l1 _ _ _ Hinv1 Hbs) as (l' & Hl' & Hinv'). exists l'.
    split; [done|]. eapply sums_inv_ext; [| | |exact Hinv'].
    + intros i j. unfold total_sq_dist. cbn [fmap list_fmap]. rewrite qsum_cons. ring.
    + intros i. unfold total_sq_act. cbn [fmap list_fmap]. rewrite qsum_cons. ring.
    + unfold total_obs. cbn [foldr]. rewrite inject_Z_plus. ring.
Qed.

(** In exact arithmetic the accumulators are the sums they are meant to
    be.  After batches of [n] neurons are registered into empty
    accumulators, entry (i, j) of [dists] is the sum, over all the
    observations of all the batches, of the squared difference of the
    activations of the neurons [i] and [j]; entry [i] of [activities] is
    the sum of the squared activations of neuron [i]; and [n_obs] has
    grown by the number of observations. *)
Theorem registered_dists_are_sums (n : nat) (l : PrunableLayer Q)
    (batches : list (matrix Q)) :
  dists l = None -> batches <> [] ->
  Forall (fun b => m_cols b = n) batches ->
  exists l' d a,
    register_all l batches = Ok l' /\
    dists l' = Some d /\ activities l' = Some a /\
    m_nrows d = n /\ m_cols d = n /\ length a = n /\
    (forall i j, (i < n)%nat -> (j < n)%nat ->
       mat_at d i j == total_sq_dist batches i j) /\
    (forall i, (i < n)%nat -> default 0 (a !! i) == total_sq_act batches i) /\
    n_obs l' == n_obs l + inject_Z (total_obs batches).
Proof.
  intros Hd Hne Hall. destruct batches as [|b bs]; [done|].
  apply Forall_cons in Hall as [Hb Hbs].
  destruct (register_first_sums n l b Hd Hb) as (l1 & Hl1 & Hinv1).
  destruct (register_all_sums n bs l1 _ _ _ Hinv1 Hbs)
    as (l' & Hl' & g & a & Hdl & Hal & Hlen & Hg & Hact & Hobs).
  exists l', (mat_init n n g), a. split_and!.
  - unfold register_all in *. cbn [foldlM]. rewrite Hl1. done.
  - done.
  - done.
  - apply mat_init_nrows.
  - done.
  - done.
  - intros i j Hi Hj. rewrite mat_at_init by done. rewrite Hg by done.
    unfold total_sq_dist. cbn [fmap list_fmap]. by rewrite qsum_cons.
  - intros i Hi. rewrite Hact by done.
    unfold total_sq_act. cbn [fmap list_fmap]. by rewrite qsum_cons.
  - rewrite Hobs. unfold total_obs. cbn [foldr]. rewrite inject_Z_plus. ring.
Qed.

Local Close Scope Q_scope.

Lemma registered_dists_are_sums_witness :
  exists l' d a,
    register_all (new_layer "decgru" 8 1 false false) [ex_batch10; ex_batch10] = Ok l' /\
    dists l' = Some d /\ activities l' = Some a /\
    m_nrows d = 10%nat /\ m_cols d = 10%nat /\ length a = 10%nat /\
    (forall i j, (i < 10)%nat -> (j < 10)%nat ->
       (mat_at d i j == total_sq_dist [ex_batch10; ex_batch10] i j)%Q) /\
    (forall i, (i < 10)%nat ->
       (default 0%Q (a !! i) == total_sq_act [ex_batch10; ex_batch10] i)%Q) /\
    (n_obs l' == n_obs (new_layer "decgru" 8 1 false false)
                 + inject_Z (total_obs [ex_batch10; ex_batch10]))%Q.
Proof.
  apply (registered_dists_are_sums 10 (new_layer "decgru" 8 1 false false)
           [ex_batch10; ex_batch10]).
  - reflexivity.
  - intros Hnil. inversion Hnil.
  - repeat constructor.
Defined.

(** ** The order of the scan, in exact arithmetic *)

Local Open Scope Q_scope.

Lemma sort_lt_Q (a b : Q) : sort_lt a b = false -> b <= a.
Proof.
  unfold sort_lt. cbn [s_ltb s_is_nan Q_scalar andb]. rewrite orb_false_r.
  intros Hle%negb_false_iff. by apply Qle_bool_iff.
Qed.

Lemma sort_lt_Q_true (a b : Q) : sort_lt a b = true -> a <= b.
Proof.
  unfold sort_lt. cbn [s_ltb s_is_nan Q_scalar andb]. rewrite orb_false_r.
  intros Hlt%negb_true_iff. apply Qlt_le_weak, Qnot_le_lt.
  intros Hle%Qle_bool_iff. congruence.
Qed.

Lemma ascending_cons (x : nat * Q) (L : list (nat * Q)) :
  (forall y, y ∈ L -> x.2 <= y.2) -> ascending L -> ascending (x :: L).
Proof.
  intros Hx HL p q u v Hpq Hp Hq.
  destruct p as [|p], q as [|q]; cbn in Hp, Hq.
  - injection Hp as <-. injection Hq as <-. apply Qle_refl.
  - injection Hp as <-. apply Hx. by eapply list_elem_of_lookup_2.
  - lia.
  - eapply (HL p q); [lia|done..].
Qed.

Lemma ascending_inv (x : nat * Q) (L : list (nat * Q)) :
  ascending (x :: L) -> (forall y, y ∈ L -> x.2 <= y.2) /\ ascending L.
Proof.
  intros H. split.
  - intros y [i Hi]%list_elem_of_lookup_1. apply (H 0%nat (S i)); [lia|done..].
  - intros p q u v Hpq Hp Hq. apply (H (S p) (S q)); [lia|done..].
Qed.

Lemma argsort_insert_ascending (k : nat * Q) (L : list (nat * Q)) :
  ascending L -> ascending (argsort_insert k L).
Proof.
  induction L as [|h t IH]; intros HL; cbn [argsort_insert].
  - apply ascending_cons; [|done]. intros y Hy. by apply elem_of_nil in Hy.
  - apply ascending_inv in HL as [Hh Ht].
    destruct (sort_lt h.2 k.2) eqn:Hlt.
    + apply ascending_cons; [|by apply IH].
      intros y Hy. rewrite argsort_insert_perm in Hy.
      apply elem_of_cons in Hy as [-> | Hy]; [by apply sort_lt_Q_true|by apply Hh].
    + apply sort_lt_Q in Hlt. apply ascending_cons.
      * intros y [-> | Hy]%elem_of_cons; [done|].
        eapply Qle_trans; [exact Hlt|by apply Hh].
      * apply ascending_cons; done.
Qed.

Lemma argsort_foldr_ascending (L : list (nat * Q)) :
  ascending (foldr argsort_insert [] L).
Proof.
  induction L as [|h t IH]; cbn [foldr].
  - intros p q x y _ Hp. by rewrite lookup_nil in Hp.
  - by apply argsort_insert_ascending.
Qed.

(** [np.argsort] lists the positions by ascending entry. *)
Lemma np_argsort_ascending (xs : list Q) (p q kp kq : nat) :
  (p <= q)%nat -> np_argsort xs !! p = Some kp -> np_argsort xs !! q = Some kq ->
  default 0 (xs !! kp) <= default 0 (xs !! kq).
Proof.
  unfold np_argsort. intros Hpq Hp Hq.
  rewrite list_lookup_fmap in Hp, Hq.
  destruct (foldr argsort_insert [] (zip (seq 0 (length xs)) xs) !! p)
    as [[kp' vp]|] eqn:Ep; [|done].
  destruct (foldr argsort_insert [] (zip (seq 0 (length xs)) xs) !! q)
    as [[kq' vq]|] eqn:Eq; [|done].
  cbn in Hp, Hq. injection Hp as ->. injection Hq as ->.
  assert (Hval : forall k v, (k, v) ∈ foldr argsort_insert [] (zip (seq 0 (length xs)) xs) ->
            xs !! k = Some v).
  { intros k v Hin. rewrite argsort_foldr_perm in Hin.
    apply elem_of_lookup_zip_with in Hin as (i & k' & v' & [= -> ->] & Hk & Hv).
    apply lookup_seq in Hk as [-> _]. done. }
  rewrite (Hval kp vp) by (by eapply list_elem_of_lookup_2).
  rewrite (Hval kq vq) by (by eapply list_elem_of_lookup_2).
  cbn [default].
  apply (argsort_foldr_ascending _ p q (kp, vp) (kq, vq) Hpq Ep Eq).
Qed.

(** The entry at a flat position of a matrix. *)
Lemma concat_lookup_wf {A : Type} (c : nat) (rows : list (list A)) (k : nat) :
  (0 < c)%nat -> Forall (fun r => length r = c) rows ->
  concat rows !! k = rows !! (k / c)%nat ≫= (.!! (k mod c)%nat).
Proof.
  intros Hc. revert k. induction rows as [|r rs IH]; intros k Hall.
  - done.
  - apply Forall_cons in Hall as [Hr Hrs]. cbn [concat].
    destruct (decide (k < c)%nat) as [Hk|Hk].
    + rewrite lookup_app_l by lia.
      rewrite Nat.div_small, Nat.mod_small by done. done.
    + rewrite lookup_app_r by lia. rewrite Hr, IH by done.
      replace k with ((k - c) + 1 * c)%nat at 3 4 by lia.
      rewrite Nat.div_add, Nat.Div0.mod_add by lia.
      by rewrite Nat.add_1_r.
Qed.

(** The entry at a scanned position is the entry at its flat position. *)
Lemma scan_order_entry (sm : matrix Q) (p : nat) (ij : nat * nat) :
  mat_wf sm -> scan_order sm !! p = Some ij ->
  exists k, np_argsort (concat (m_rows sm)) !! p = Some k /\
    mat_at sm ij.1 ij.2 = default 0 (concat (m_rows sm) !! k).
Proof.
  intros Hwf Hp. unfold scan_order, np_unravel in Hp.
  rewrite list_lookup_fmap in Hp.
  destruct (np_argsort (concat (m_rows sm)) !! p) as [k|] eqn:Ep; [|done].
  cbn in Hp. injection Hp as <-. cbn [fst snd]. exists k. split; [done|].
  destruct (decide (m_cols sm = 0)%nat) as [Hz|Hnz].
  { assert (Hin : k ∈ np_argsort (concat (m_rows sm))) by (by eapply list_elem_of_lookup_2).
    rewrite np_argsort_perm in Hin. apply elem_of_seq in Hin.
    rewrite (concat_length_const (m_cols sm)) in Hin by done. rewrite Hz in Hin. lia. }
  rewrite (concat_lookup_wf (m_cols sm)) by (done || lia). done.
Qed.

(** The first scanned position holds the least entry scanned. *)
Lemma scan_order_first_least (sm : matrix Q) (first ij : nat * nat)
    (rest : list (nat * nat)) (q : nat) :
  mat_wf sm -> scan_order sm = first :: rest -> scan_order sm !! q = Some ij ->
  mat_at sm first.1 first.2 <= mat_at sm ij.1 ij.2.
Proof.
  intros Hwf Hord Hq.
  assert (H0 : scan_order sm !! 0%nat = Some first) by (by rewrite Hord).
  destruct (scan_order_entry sm 0 first Hwf H0) as (k0 & Hk0 & ->).
  destruct (scan_order_entry sm q ij Hwf Hq) as (kq & Hkq & ->).
  apply (np_argsort_ascending _ 0 q); [lia|done..].
Qed.

(** The scan reads the positions of the search matrix by ascending
    entry: of two positions, the one scanned first holds the entry that
    is not the greater one.  So the pairs are chosen greedily, the most
    similar ones with the least active partner first. *)
Theorem scan_order_ascending (sm : matrix Q) (p q : nat) (ij ij' : nat * nat) :
  mat_wf sm -> (p <= q)%nat ->
  scan_order sm !! p = Some ij -> scan_order sm !! q = Some ij' ->
  mat_at sm ij.1 ij.2 <= mat_at sm ij'.1 ij'.2.
Proof.
  intros Hwf Hpq Hp Hq.
  destruct (scan_order_entry sm p ij Hwf Hp) as (kp & Hkp & ->).
  destruct (scan_order_entry sm q ij' Hwf Hq) as (kq & Hkq & ->).
  by apply (np_argsort_ascending _ p q).
Qed.

Local Close Scope Q_scope.

Lemma scan_order_ascending_witness :
  (mat_at (Mat 2 [[3; 1]; [2; 4]]%Q) 0 1 <= mat_at (Mat 2 [[3; 1]; [2; 4]]%Q) 1 0)%Q.
Proof.
  apply (scan_order_ascending (Mat 2 [[3; 1]; [2; 4]]%Q) 0 1 (0, 1)%nat (1, 0)%nat).
  - repeat first [apply List.Forall_nil | apply List.Forall_cons; [reflexivity|]].
  - lia.
  - vm_compute. reflexivity.
  - vm_compute. reflexivity.
Defined.

Section ScanScores.
Context {R : Type} `{Scalar R}.

(** Every position of a matrix is scanned. *)
Lemma scan_order_all (sm : matrix R) (i j : nat) :
  mat_wf sm -> (i < m_nrows sm)%nat -> (j < m_cols sm)%nat ->
  (i, j) ∈ scan_order sm.
Proof.
  intros Hwf Hi Hj. unfold scan_order, np_unravel.
  apply list_elem_of_fmap. exists (i * m_cols sm + j)%nat. split.
  - f_equal.
    + rewrite Nat.div_add_l by lia. rewrite Nat.div_small by done. lia.
    + rewrite Nat.add_comm, Nat.Div0.mod_add. by rewrite Nat.mod_small.
  - rewrite np_argsort_perm. apply elem_of_seq.
    rewrite (concat_length_const (m_cols sm)) by done.
    fold (m_nrows sm). nia.
Qed.

Lemma mat_index_at (sm : matrix R) (i j : nat) (s : R) :
  mat_index sm i j = Ok s -> mat_at sm i j = s.
Proof.
  unfold mat_index, mat_at. destruct (m_rows sm !! i ≫= (.!! j)); [|done].
  by intros [= ->].
Qed.

Lemma mat_binop_wf (f : R -> R -> R) (a b s : matrix R) :
  mat_binop f a b = Ok s -> mat_wf s.
Proof.
  unfold mat_binop. intros Hb.
  apply bind_Ok in Hb as (r & _ & Hb). apply bind_Ok in Hb as (c & _ & Hb).
  injection Hb as <-. apply mat_init_wf.
Qed.

Lemma search_matrix_wf (l : PrunableLayer R) (sm : matrix R) :
  search_matrix l = Ok sm -> mat_wf sm.
Proof.
  unfold search_matrix. intros Hs.
  apply bind_Ok in Hs as (acts & _ & Hs). apply bind_Ok in Hs as (d & _ & Hs).
  apply bind_Ok in Hs as (m & _ & Hs). apply bind_Ok in Hs as (prod & _ & Hs).
  by apply mat_binop_wf in Hs.
Qed.

(** When the scan has chosen a pair, the score it returns is the entry
    at the scanned position of the last pair it chose. *)
Lemma prune_scan_last (sm : matrix R) (ntd : Z) (idxs : list (nat * nat)) :
  forall (l : PrunableLayer R) td ms l' td' s,
  prune_scan sm ntd idxs l td ms = Ok (l', td', Some s) ->
  (td' = td /\ ms = Some s) \/
  exists front last i j,
    td' = front ++ [last] /\ (i, j) ∈ idxs /\
    (last = (i, j) \/ last = (j, i)) /\ mat_index sm i j = Ok s.
Proof.
  induction idxs as [|[i j] rest IH]; intros l td ms l' td' s Hscan.
  - simpl in Hscan. injection Hscan as <- <- <-. by left.
  - simpl in Hscan.
    destruct (bool_decide (i ∈ pruned_neurons l) || bool_decide (j ∈ pruned_neurons l)).
    + destruct (IH _ _ _ _ _ _ Hscan)
        as [Hsame | (front & last & i' & j' & Htd & Hin & Hlast & Hs)]; [by left|right].
      exists front, last, i', j'. split_and!; try done. by apply elem_of_cons; right.
    + apply bind_Ok in Hscan as (score & Hscore & Hscan).
      apply bind_Ok in Hscan as (acts & Hacts & Hscan).
      apply bind_Ok in Hscan as (ai & Hai & Hscan).
      apply bind_Ok in Hscan as (aj & Haj & Hscan).
      apply bind_Ok in Hscan as (m0 & Hm0 & Hscan).
      apply bind_Ok in Hscan as (m1 & Hm1 & Hscan).
      apply bind_Ok in Hscan as (m2 & Hm2 & Hscan).
      set (ij := if s_ltb ai aj then (j, i) else (i, j)) in *.
      assert (Hij : ij = (i, j) \/ ij = (j, i)).
      { unfold ij. destruct (s_ltb ai aj); [by right|by left]. }
      right. destruct (_ >=? _).
      * injection Hscan as <- <- <-. exists td, ij, i, j.
        split_and!; try done. by apply elem_of_cons; left.
      * destruct (IH _ _ _ _ _ _ Hscan)
          as [[-> [= ->]] | (front & last & i' & j' & Htd & Hin & Hlast & Hs)].
        -- exists td, ij, i, j. split_and!; try done. by apply elem_of_cons; left.
        -- exists front, last, i', j'. split_and!; try done. by apply elem_of_cons; right.
Qed.

(** The two scores that [prune] logs are entries of the search matrix:
    [min_score] at the first scanned position, [max_score] at the
    scanned position of the last pair chosen. *)
Lemma prune_scores (l l' : PrunableLayer R) (n : Z) td mn mx :
  prune_select l n = Ok (l', td, mn, Some mx) ->
  exists l0 sm first rest front last i j,
    normalize l = Ok l0 /\ search_matrix l0 = Ok sm /\
    scan_order sm = first :: rest /\ mat_index sm first.1 first.2 = Ok mn /\
    td = front ++ [last] /\ (i, j) ∈ scan_order sm /\
    (last = (i, j) \/ last = (j, i)) /\ mat_index sm i j = Ok mx.
Proof.
  unfold prune_select. intros Hsel.
  apply bind_Ok in Hsel as (l0 & Hnorm & Hsel).
  apply bind_Ok in Hsel as (sm & Hsm & Hsel).
  apply bind_Ok in Hsel as (mn' & Hmin & Hsel).
  apply bind_Ok in Hsel as ([[l2 td2] mx2] & Hscan & Hsel).
  simpl in Hsel. injection Hsel as -> -> -> ->.
  destruct (scan_order sm) as [|[i0 j0] rest] eqn:Hord; [done|].
  apply prune_scan_last in Hscan
    as [[_ [=]] | (front & last & i & j & Htd & Hin & Hlast & Hs)].
  exists l0, sm, (i0, j0), rest, front, last, i, j.
  split_and!; try done. by rewrite Hord.
Qed.

End ScanScores.



(** * The layout file and the layer configuration *)

Section LayoutFacts.
Context {R : Type} `{Scalar R}.
Variable py_int : string -> result Z.
Variable py_float : string -> result R.

Lemma add_connection_lookup (n n' : string) (c : Connection R)
    (m : gmap string (list (Connection R))) :
  default [] (add_connection n c m !! n')
  = default [] (m !! n') ++ (if String.eqb n n' then [c] else []).
Proof.
  unfold add_connection. destruct (String.eqb_spec n n') as [<- | Hne].
  - destruct (m !! n) as [cs|] eqn:Hm; rewrite lookup_insert_eq; done.
  - destruct (m !! n) as [cs|] eqn:Hm; rewrite lookup_insert_ne by done;
      by rewrite app_nil_r.
Qed.

Lemma add_connection_None (n n' : string) (c : Connection R)
    (m : gmap string (list (Connection R))) :
  add_connection n c m !! n' = None <-> m !! n' = None /\ n <> n'.
Proof.
  unfold add_connection. destruct (decide (n = n')) as [<- | Hne].
  - destruct (m !! n) as [cs|] eqn:Hm; rewrite lookup_insert_eq; split; try done;
      intros [? ?]; done.
  - destruct (m !! n) as [cs|] eqn:Hm; rewrite lookup_insert_ne by done; tauto.
Qed.

(** What the loop body does with a line depends on the state only in
    where it puts the connection. *)
Lemma initialize_layers_line_entry
    (st st' : gmap string (list (Connection R)) * list string) (line : string) :
  initialize_layers_line py_int py_float st line = Ok st' ->
  exists e, line_entry py_int py_float line e /\
    st' = (match e with LConn n c => add_connection n c st.1 | _ => st.1 end,
           st.2 ++ entry_warnings [e]).
Proof.
  unfold line_entry, initialize_layers_line.
  case_bool_decide as Hblank.
  { intros [= <-]. exists LBlank. split; [done|]. destruct st. simpl. by rewrite app_nil_r. }
  destruct (py_split (py_strip line)) as [|p0 [|p1 [|p2 [|p3 [|p4 [|p5 rest]]]]]];
    try (intros [= <-]; exists LSyntaxError; split; [done|]; done).
  - intros Hl. apply bind_Ok in Hl as (d & Hd & Hl). injection Hl as <-.
    exists (LConn p0 (mkConnection p1 p2 d s_zero)). rewrite Hd. split; [done|].
    simpl. by rewrite app_nil_r.
  - intros Hl. apply bind_Ok in Hl as (d & Hd & Hl).
    apply bind_Ok in Hl as (s & Hs & Hl). injection Hl as <-.
    exists (LConn p0 (mkConnection p1 p2 d s)). rewrite Hd. simpl. rewrite Hs.
    split; [done|]. simpl. by rewrite app_nil_r.
Qed.

Lemma initialize_layers_lines_entries (lines : list string) :
  forall st st' : gmap string (list (Connection R)) * list string,
  foldlM (initialize_layers_line py_int py_float) st lines = Ok st' ->
  exists es, Forall2 (line_entry py_int py_float) lines es /\
    (forall n, default [] (st'.1 !! n) = default [] (st.1 !! n) ++ entry_conns n es) /\
    (forall n, st'.1 !! n = None <-> st.1 !! n = None /\ entry_conns n es = []) /\
    st'.2 = st.2 ++ entry_warnings es.
Proof.
  induction lines as [|line lines IH]; intros st st' Hf; cbn [foldlM] in Hf.
  - injection Hf as <-. exists []. split_and!; [constructor| | |].
    + intros n. by rewrite app_nil_r.
    + intros n. tauto.
    + by rewrite app_nil_r.
  - apply bind_Ok in Hf as (st1 & Hline & Hf).
    apply initialize_layers_line_entry in Hline as (e & He & ->).
    destruct (IH _ _ Hf) as (es & Hes & Hconns & Hnone & Hlog).
    exists (e :: es). split_and!.
    + by constructor.
    + intros n. rewrite Hconns. cbn [fst]. destruct e as [| |n' c]; try done.
      rewrite add_connection_lookup, <- app_assoc. f_equal.
      unfold entry_conns. cbn [omap list_omap]. by destruct (String.eqb n' n).
    + intros n. rewrite Hnone. cbn [fst]. destruct e as [| |n' c]; try done.
      rewrite add_connection_None. unfold entry_conns. cbn [omap list_omap].
      destruct (String.eqb_spec n' n) as [-> | Hne]; [|tauto].
      split; [tauto|]. intros [_ Hnil]. done.
    + rewrite Hlog. cbn [snd]. rewrite <- app_assoc. f_equal.
      unfold entry_warnings. cbn [omap list_omap]. by destruct e.
Qed.


End LayoutFacts.


Section LayerConfigs.
Context {R : Type} `{Scalar R}.
Variable py_int : string -> result Z.
Variable py_float : string -> result R.

(** The layer that a configuration entry [n:s] stands for. *)
Lemma initialize_layers_confs (conns : gmap string (list (Connection R))) (k : Z)
    (configs : list string) :
  forall st st' : list (PrunableLayer R) * list string,
  foldlM (initialize_layers_conf py_int conns k) st configs = Ok st' ->
  exists new,
    st'.1 = st.1 ++ new /\
    (length new + length st'.2 = length configs + length st.2)%nat /\
    name <$> new `sublist_of` (fun conf => default "" (head (py_split_on ":" conf)))
                               <$> configs /\
    Forall (fun l =>
      exists mx s conf,
        conf ∈ configs /\ py_split_on ":" conf = [name l; s] /\
        known_layer (name l) = Some mx /\ py_int s = Ok (trg_size l) /\
        l = set_connections (new_layer (name l) (trg_size l) k false mx)
              (default [] (conns !! name l))) new.
Proof.
  induction configs as [|conf configs IH]; intros st st' Hf; cbn [foldlM] in Hf.
  - injection Hf as <-. exists []. rewrite app_nil_r.
    split_and!; [done|done|apply sublist_nil|constructor].
  - apply bind_Ok in Hf as (st1 & Hconf & Hf).
    destruct (IH _ _ Hf) as (new & Hnew & Hlen & Hsub & Hall).
    assert (Hall' : Forall (fun l =>
      exists mx s conf0,
        conf0 ∈ conf :: configs /\ py_split_on ":" conf0 = [name l; s] /\
        known_layer (name l) = Some mx /\ py_int s = Ok (trg_size l) /\
        l = set_connections (new_layer (name l) (trg_size l) k false mx)
              (default [] (conns !! name l))) new).
    { eapply Forall_impl; [exact Hall|]. intros l (mx & s & c0 & Hin & Hrest).
      exists mx, s, c0. split; [by apply elem_of_cons; right|done]. }
    unfold initialize_layers_conf in Hconf.
    destruct (py_split_on ":" conf) as [|n [|s [|x rest]]] eqn:Hsplit; try discriminate.
    destruct (known_layer n) as [mx|] eqn:Hknown.
    + apply bind_Ok in Hconf as (trg & Htrg & Hconf). injection Hconf as <-.
      cbn [fst snd] in *.
      exists (set_connections (new_layer n trg k false mx) (default [] (conns !! n)) :: new).
      split_and!.
      * rewrite Hnew, <- app_assoc. done.
      * cbn [length]. lia.
      * cbn [fmap list_fmap]. rewrite Hsplit. cbn [head default name set_connections new_layer].
        by apply sublist_skip.
      * constructor; [|done]. exists mx, s, conf.
        cbn [name trg_size set_connections new_layer].
        split_and!; try done. by apply elem_of_cons; left.
    + injection Hconf as <-. cbn [fst snd] in *. exists new. split_and!; try done.
      * rewrite length_app in Hlen. cbn [length] in *. lia.
      * cbn [fmap list_fmap]. by apply sublist_cons.
Qed.


End LayerConfigs.


(** * The training algorithm *)

Lemma div_step_multiple (n p : Z) :
  0 < p -> (n + 1) mod p = 0 -> (n + 1) / p = n / p + 1.
Proof.
  intros Hp Hm.
  pose proof (Z.div_mod (n + 1) p ltac:(lia)) as Hd. rewrite Hm in Hd.
  assert (Hq : (n + 1) / p - 1 = n / p).
  { apply Z.div_unique with (r := p - 1); lia. }
  lia.
Qed.

Lemma div_step_other (n p : Z) :
  0 < p -> (n + 1) mod p <> 0 -> (n + 1) / p = n / p.
Proof.
  intros Hp Hm.
  pose proof (Z.div_mod (n + 1) p ltac:(lia)) as Hd.
  pose proof (Z.mod_pos_bound (n + 1) p Hp) as Hb.
  apply Z.div_unique with (r := (n + 1) mod p - 1); lia.
Qed.

(** One event moves a cursor of the round robin one place on. *)
Lemma cursor_after_step (len e : Z) :
  0 <= len -> 0 <= e ->
  let c := cursor_after len e + 1 in
  (c < 0 -> cursor_after len (e + 1) = c) /\
  (0 <= c -> len <> 0 /\ cursor_after len (e + 1) = c mod len \/ len = 0).
Proof.
  intros Hlen He. unfold cursor_after. cbv zeta.
  destruct (e <? len) eqn:Hlt.
  - apply Z.ltb_lt in Hlt. split.
    + intros Hc. replace (e + 1 <? len) with true by lia. lia.
    + intros Hc. left. split; [lia|].
      assert (e + 1 = len) as Heq by lia.
      replace (e + 1 <? len) with false by lia.
      rewrite Heq. replace (e - len + 1) with 0 by lia.
      rewrite Z.mod_same by lia. by rewrite Z.mod_0_l by lia.
  - apply Z.ltb_ge in Hlt. split.
    + intros Hc. destruct (decide (len = 0)) as [-> | Hne].
      * rewrite Z.mod_0_r in Hc. lia.
      * pose proof (Z.mod_pos_bound e len ltac:(lia)). lia.
    + intros Hc. destruct (decide (len = 0)) as [-> | Hne]; [by right|left].
      split; [done|]. replace (e + 1 <? len) with false by lia.
      by rewrite Zplus_mod_idemp_l.
Qed.

Section TrainingFacts.
Context {R : Type} `{Scalar R}.
Variable Batch : Type.
Variable validate_source_names : Batch -> result unit.
Variable train_function :
  Batch -> gmap string (ndarray R) ->
  result (list (matrix R) * gmap string (ndarray R)).

Lemma py_mod_Ok (n m r : Z) : py_mod n m = Ok r <-> m <> 0 /\ r = n mod m.
Proof.
  unfold py_mod. destruct (Z.eqb_spec m 0) as [-> | Hne].
  - split; [done|]. by intros [? _].
  - split; [by intros [= <-]|]. by intros [_ ->].
Qed.

(** What [register_activities] leaves alone. *)
Lemma register_activities_frame (l l' : PrunableLayer R) (batch : matrix R) :
  register_activities l batch = Ok l' ->
  name l' = name l /\ mask l' = mask l /\ trg_size l' = trg_size l /\
  n_steps l' = n_steps l /\ step_size l' = step_size l /\
  connections l' = connections l /\ pruned_neurons l' = pruned_neurons l /\
  maxout l' = maxout l /\ is_Some (dists l') /\ is_Some (activities l').
Proof.
  unfold register_activities. intros Hr.
  apply bind_Ok in Hr as (da & _ & Hr). injection Hr as <-.
  cbn. split_and!; try done; by eexists.
Qed.

Lemma register_each_frame (activities : list (matrix R)) :
  forall layers layers' : list (PrunableLayer R),
  register_each activities layers = Ok layers' ->
  length layers' = length layers /\
  forall k l', layers' !! k = Some l' ->
    exists l, layers !! k = Some l /\
      name l' = name l /\ pruned_neurons l' = pruned_neurons l /\
      connections l' = connections l.
Proof.
  induction activities as [|a activities IH]; intros layers layers' Hr.
  - destruct layers; injection Hr as <-; (split; [done|]); intros k l' Hk; eauto.
  - destruct layers as [|l layers].
    + injection Hr as <-. split; [done|]. intros k l' Hk. by rewrite lookup_nil in Hk.
    + cbn [register_each] in Hr.
      apply bind_Ok in Hr as (l1 & Hl1 & Hr).
      apply bind_Ok in Hr as (ls & Hls & Hr). injection Hr as <-.
      destruct (IH _ _ Hls) as [Hlen Hframe].
      apply register_activities_frame in Hl1
        as (Hn & _ & _ & _ & _ & Hc & Hp & _).
      split; [cbn [length]; lia|].
      intros [|k] l' Hk; cbn in Hk.
      * injection Hk as <-. exists l. done.
      * destruct (Hframe k l' Hk) as (l0 & Hl0 & Hrest). exists l0. done.
Qed.

(** The parts of a call of [process_batch] that returns. *)
Lemma process_batch_Ok (st st' : PruningGradientDescent R) (batch : Batch) :
  process_batch Batch validate_source_names train_function st batch = Ok st' ->
  exists acts P layers cp layers1 P1 cr layers2,
    train_function batch (params_dict st) = Ok (acts, P) /\
    register_each acts (prunable_layers st) = Ok layers /\
    prune_every st <> 0 /\ prune_reset_every st <> 0 /\
    (((n_batches st + 1) mod prune_every st = 0 /\
      0 <= next_layer_to_prune st + 1 /\ length layers <> 0%nat /\
      cp = (next_layer_to_prune st + 1) mod Z.of_nat (length layers) /\
      prune_scheduled layers P cp = Ok (layers1, P1)) \/
     ((n_batches st + 1) mod prune_every st = 0 /\
      next_layer_to_prune st + 1 < 0 /\
      cp = next_layer_to_prune st + 1 /\ layers1 = layers /\ P1 = P) \/
     ((n_batches st + 1) mod prune_every st <> 0 /\
      cp = next_layer_to_prune st /\ layers1 = layers /\ P1 = P)) /\
    (((n_batches st + 1) mod prune_reset_every st = 0 /\
      0 <= next_layer_to_reset st + 1 /\ length layers1 <> 0%nat /\
      cr = (next_layer_to_reset st + 1) mod Z.of_nat (length layers1) /\
      reset_scheduled layers1 cr = Ok layers2) \/
     ((n_batches st + 1) mod prune_reset_every st = 0 /\
      next_layer_to_reset st + 1 < 0 /\
      cr = next_layer_to_reset st + 1 /\ layers2 = layers1) \/
     ((n_batches st + 1) mod prune_reset_every st <> 0 /\
      cr = next_layer_to_reset st /\ layers2 = layers1)) /\
    st' = mkPGD (prune_every st) (prune_reset_every st) (n_batches st + 1)
            (prune_n_steps st) layers2 P1 cp cr.
Proof.
  unfold process_batch. intros Hp.
  apply bind_Ok in Hp as (u & _ & Hp).
  apply bind_Ok in Hp as ([acts P] & Htrain & Hp).
  apply bind_Ok in Hp as (layers & Hreg & Hp).
  apply bind_Ok in Hp as (rp & [Hpe ->]%py_mod_Ok & Hp).
  apply bind_Ok in Hp as ([[cp layers1] P1] & Hprune & Hp).
  apply bind_Ok in Hp as (rr & [Hpre ->]%py_mod_Ok & Hp).
  apply bind_Ok in Hp as ([cr layers2] & Hreset & Hp).
  injection Hp as <-. cbn [fst snd] in *.
  exists acts, P, layers, cp, layers1, P1, cr, layers2.
  split_and!; [done|done|done|done| | |done].
  - destruct (Z.eqb_spec ((n_batches st + 1) mod prune_every st) 0) as [Hz|Hnz].
    + destruct (next_layer_to_prune st + 1 >=? 0) eqn:Hc.
      * apply bind_Ok in Hprune as (c' & [Hlen ->]%py_mod_Ok & Hprune).
        apply bind_Ok in Hprune as ([ls Pp] & Hsched & Hprune).
        injection Hprune as <- <- <-. left. split_and!; try done; lia.
      * injection Hprune as <- <- <-. right. left. split_and!; try done; lia.
    + injection Hprune as <- <- <-. right. right. done.
  - destruct (Z.eqb_spec ((n_batches st + 1) mod prune_reset_every st) 0) as [Hz|Hnz].
    + destruct (next_layer_to_reset st + 1 >=? 0) eqn:Hc.
      * apply bind_Ok in Hreset as (c' & [Hlen ->]%py_mod_Ok & Hreset).
        apply bind_Ok in Hreset as (ls & Hsched & Hreset).
        injection Hreset as <- <-. left. split_and!; try done; lia.
      * injection Hreset as <- <-. right. left. split_and!; try done; lia.
    + injection Hreset as <- <-. right. right. done.
Qed.

Lemma prune_scheduled_Ok (layers layers1 : list (PrunableLayer R))
    (P P1 : gmap string (ndarray R)) (c : Z) :
  0 <= c -> prune_scheduled layers P c = Ok (layers1, P1) ->
  exists l l1 lg,
    layers !! Z.to_nat c = Some l /\ prune l P = Ok (l1, P1, lg) /\
    layers1 = <[Z.to_nat c := l1]> layers /\ (Z.to_nat c < length layers)%nat.
Proof.
  intros Hc Hs. unfold prune_scheduled in Hs.
  apply bind_Ok in Hs as (k & Hk & Hs).
  apply py_index_nonneg in Hk as [Hk Hlt]; [|done].
  assert (k = Z.to_nat c) as -> by lia.
  apply bind_Ok in Hs as (l & Hl%or_raise_Ok & Hs).
  apply bind_Ok in Hs as ([[l1 P1'] lg] & Hprune & Hs).
  apply bind_Ok in Hs as (geps & _ & Hs). injection Hs as <- <-.
  exists l, l1, lg. done.
Qed.

Lemma reset_scheduled_Ok (layers layers2 : list (PrunableLayer R)) (c : Z) :
  0 <= c -> reset_scheduled layers c = Ok layers2 ->
  exists l,
    layers !! Z.to_nat c = Some l /\
    layers2 = <[Z.to_nat c := reset l]> layers /\ (Z.to_nat c < length layers)%nat.
Proof.
  intros Hc Hs. unfold reset_scheduled in Hs.
  apply bind_Ok in Hs as (k & Hk & Hs).
  apply py_index_nonneg in Hk as [Hk Hlt]; [|done].
  assert (k = Z.to_nat c) as -> by lia.
  apply bind_Ok in Hs as (l & Hl%or_raise_Ok & Hs). injection Hs as <-.
  exists l. done.
Qed.

End TrainingFacts.

Section Schedule.
Context {R : Type} `{Scalar R}.
Variable py_int : string -> result Z.
Variable py_float : string -> result R.
Variable Batch : Type.
Variable validate_source_names : Batch -> result unit.
Variable train_function :
  Batch -> gmap string (ndarray R) ->
  result (list (matrix R) * gmap string (ndarray R)).

(** One batch keeps the two cursors where the number of batches says. *)
Lemma process_batch_schedule (st st' : PruningGradientDescent R) (batch : Batch) :
  process_batch Batch validate_source_names train_function st batch = Ok st' ->
  0 < prune_every st -> 0 < prune_reset_every st -> 0 <= n_batches st ->
  next_layer_to_prune st
  = cursor_after (Z.of_nat (length (prunable_layers st)))
      (n_batches st / prune_every st) ->
  next_layer_to_reset st
  = cursor_after (Z.of_nat (length (prunable_layers st)))
      (n_batches st / prune_reset_every st) ->
  n_batches st' = n_batches st + 1 /\
  prune_every st' = prune_every st /\
  prune_reset_every st' = prune_reset_every st /\
  length (prunable_layers st') = length (prunable_layers st) /\
  next_layer_to_prune st'
  = cursor_after (Z.of_nat (length (prunable_layers st)))
      (n_batches st' / prune_every st) /\
  next_layer_to_reset st'
  = cursor_after (Z.of_nat (length (prunable_layers st)))
      (n_batches st' / prune_reset_every st).
Proof.
  intros Hp Hpe Hpre Hnb Hcp Hcr.
  apply process_batch_Ok in Hp
    as (acts & P & layers & cp & layers1 & P1 & cr & layers2 & _ & Hreg & _ & _ &
        Hprune & Hreset & ->).
  apply register_each_frame in Hreg as [Hlen _].
  set (L := Z.of_nat (length (prunable_layers st))) in *.
  assert (Hlen1 : length layers1 = length layers /\
            cp = cursor_after L ((n_batches st + 1) / prune_every st)).
  { destruct Hprune as [(Hz & Hc & Hne & -> & Hs) | [(Hz & Hc & -> & -> & _) |
                        (Hnz & -> & -> & _)]].
    - apply prune_scheduled_Ok in Hs as (l & l1 & lg & _ & _ & -> & _).
      2:{ apply Z.mod_pos_bound. lia. }
      split; [by rewrite length_insert|].
      rewrite div_step_multiple by done. rewrite Hcp in Hc |- *.
      destruct (cursor_after_step L (n_batches st / prune_every st)) as [_ Hstep];
        [lia|by apply Z.div_pos|].
      destruct (Hstep Hc) as [[_ ->] | HL]; [|lia]. by rewrite Hlen.
    - split; [done|]. rewrite div_step_multiple by done. rewrite Hcp in Hc |- *.
      destruct (cursor_after_step L (n_batches st / prune_every st)) as [Hstep _];
        [lia|by apply Z.div_pos|].
      by rewrite (Hstep Hc).
    - split; [done|]. by rewrite div_step_other. }
  destruct Hlen1 as [Hlen1 Hcp'].
  assert (Hlen2 : length layers2 = length layers1 /\
            cr = cursor_after L ((n_batches st + 1) / prune_reset_every st)).
  { destruct Hreset as [(Hz & Hc & Hne & -> & Hs) | [(Hz & Hc & -> & ->) |
                        (Hnz & -> & ->)]].
    - apply reset_scheduled_Ok in Hs as (l & _ & -> & _).
      2:{ apply Z.mod_pos_bound. lia. }
      split; [by rewrite length_insert|].
      rewrite div_step_multiple by done. rewrite Hcr in Hc |- *.
      destruct (cursor_after_step L (n_batches st / prune_reset_every st)) as [_ Hstep];
        [lia|by apply Z.div_pos|].
      destruct (Hstep Hc) as [[_ ->] | HL]; [|lia]. by rewrite Hlen1, Hlen.
    - split; [done|]. rewrite div_step_multiple by done. rewrite Hcr in Hc |- *.
      destruct (cursor_after_step L (n_batches st / prune_reset_every st)) as [Hstep _];
        [lia|by apply Z.div_pos|].
      by rewrite (Hstep Hc).
    - split; [done|]. by rewrite div_step_other. }
  destruct Hlen2 as [Hlen2 Hcr'].
  cbn. split_and!; try done. congruence.
Qed.

Lemma process_batches_schedule (batches : list Batch) :
  forall st st' : PruningGradientDescent R,
  process_batches Batch validate_source_names train_function st batches = Ok st' ->
  0 < prune_every st -> 0 < prune_reset_every st -> 0 <= n_batches st ->
  next_layer_to_prune st
  = cursor_after (Z.of_nat (length (prunable_layers st)))
      (n_batches st / prune_every st) ->
  next_layer_to_reset st
  = cursor_after (Z.of_nat (length (prunable_layers st)))
      (n_batches st / prune_reset_every st) ->
  n_batches st' = n_batches st + Z.of_nat (length batches) /\
  prune_every st' = prune_every st /\
  prune_reset_every st' = prune_reset_every st /\
  length (prunable_layers st') = length (prunable_layers st) /\
  next_layer_to_prune st'
  = cursor_after (Z.of_nat (length (prunable_layers st)))
      (n_batches st' / prune_every st) /\
  next_layer_to_reset st'
  = cursor_after (Z.of_nat (length (prunable_layers st)))
      (n_batches st' / prune_reset_every st).
Proof.
  unfold process_batches.
  induction batches as [|b bs IH]; intros st st' Hrun Hpe Hpre Hnb Hcp Hcr;
    cbn [foldlM] in Hrun.
  - injection Hrun as <-. cbn [length]. split_and!; try done. lia.
  - apply bind_Ok in Hrun as (st1 & Hb & Hrun).
    destruct (process_batch_schedule _ _ _ Hb Hpe Hpre Hnb Hcp Hcr)
      as (Hn1 & Hpe1 & Hpre1 & Hlen1 & Hcp1 & Hcr1).
    destruct (IH _ _ Hrun) as (Hn' & Hpe' & Hpre' & Hlen' & Hcp' & Hcr').
    + lia.
    + lia.
    + lia.
    + by rewrite Hlen1, Hpe1.
    + by rewrite Hlen1, Hpre1.
    + rewrite Hlen1, Hpe1, Hpre1 in *. cbn [length].
      split_and!; try done; try congruence. lia.
Qed.

(** The round robin over the layers.  After [m] batches of a run that
    started with [__init__], the prune cursor stands where [m / prune_every]
    events put it, and the reset cursor where [m / prune_reset_every]
    events do: a cursor starts at minus the number [L] of layers, so the
    first [L - 1] events of its kind touch no layer, and from the [L]-th
    event on, event number [e] has the layer [e mod L] under the cursor.
    A reset period that is not positive is the prune period. *)
Theorem round_robin_schedule (configs lines : list string) (pe pre k : Z)
    (P : gmap string (ndarray R)) (st0 st : PruningGradientDescent R)
    (log : list string) (batches : list Batch) :
  PruningGradientDescent_init py_int py_float configs lines pe pre k P = Ok (st0, log) ->
  0 < pe ->
  process_batches Batch validate_source_names train_function st0 batches = Ok st ->
  prune_every st0 = pe /\
  prune_reset_every st0 = (if 0 <? pre then pre else pe) /\
  n_batches st = Z.of_nat (length batches) /\
  length (prunable_layers st) = length (prunable_layers st0) /\
  next_layer_to_prune st
  = cursor_after (Z.of_nat (length (prunable_layers st0)))
      (Z.of_nat (length batches) / prune_every st0) /\
  next_layer_to_reset st
  = cursor_after (Z.of_nat (length (prunable_layers st0)))
      (Z.of_nat (length batches) / prune_reset_every st0).
Proof.
  intros Hinit Hpe Hrun. unfold PruningGradientDescent_init in Hinit.
  apply bind_Ok in Hinit as ([layers log0] & _ & Hinit). injection Hinit as <- <-.
  cbn [fst snd] in *.
  assert (Hc0 : forall p, 0 < p ->
            - Z.of_nat (length layers) = cursor_after (Z.of_nat (length layers)) (0 / p)).
  { intros p Hp. rewrite Z.div_0_l by lia. unfold cursor_after.
    destruct (0 <? Z.of_nat (length layers)) eqn:Hl; [lia|].
    apply Z.ltb_ge in Hl. assert (Z.of_nat (length layers) = 0) as -> by lia. done. }
  assert (Hpre : 0 < (if 0 <? pre then pre else pe)).
  { destruct (0 <? pre) eqn:Hlt; lia. }
  apply process_batches_schedule in Hrun; cbn in *; try done; try lia; try by apply Hc0.
  destruct Hrun as (Hn & _ & _ & Hlen & Hcp & Hcr).
  rewrite Hn in Hcp, Hcr. split_and!; try done.
Qed.

(** Only the layer under the prune cursor can lose neurons: a batch
    changes the list of pruned neurons of a layer only when it is a
    batch of a prune event, and then only of the layer that the cursor
    points at afterwards. *)
Theorem process_batch_prunes_under_cursor (st st' : PruningGradientDescent R)
    (batch : Batch) (k : nat) (l l' : PrunableLayer R) :
  process_batch Batch validate_source_names train_function st batch = Ok st' ->
  prunable_layers st !! k = Some l -> prunable_layers st' !! k = Some l' ->
  pruned_neurons l' <> pruned_neurons l ->
  (n_batches st + 1) mod prune_every st = 0 /\ next_layer_to_prune st' = Z.of_nat k.
Proof.
  intros Hp Hl Hl' Hne.
  apply process_batch_Ok in Hp
    as (acts & P & layers & cp & layers1 & P1 & cr & layers2 & _ & Hreg & _ & _ &
        Hprune & Hreset & ->).
  cbn [prunable_layers next_layer_to_prune] in *.
  apply register_each_frame in Hreg as [Hlen Hframe].
  assert (Hreset' : exists l1, layers1 !! k = Some l1 /\
            pruned_neurons l' = pruned_neurons l1).
  { destruct Hreset as [(_ & _ & Hnz & -> & Hs) | [(_ & _ & _ & ->) | (_ & _ & ->)]];
      [|by exists l'..].
    apply reset_scheduled_Ok in Hs as (l0 & Hl0 & -> & Hlt).
    2:{ apply Z.mod_pos_bound. lia. }
    destruct (decide (Z.to_nat ((next_layer_to_reset st + 1)
                                  mod Z.of_nat (length layers1)) = k)) as [<- | Hk].
    - rewrite list_lookup_insert_eq in Hl' by done. injection Hl' as <-.
      exists l0. done.
    - rewrite list_lookup_insert_ne in Hl' by done. by exists l'. }
  destruct Hreset' as (l1 & Hl1 & Hpr1).
  assert (Hsame : layers1 !! k = layers !! k -> False).
  { intros Heq. rewrite Hl1 in Heq. symmetry in Heq.
    destruct (Hframe k l1 Heq) as (l0 & Hl0 & _ & Hpr0 & _).
    rewrite Hl in Hl0. injection Hl0 as <-. congruence. }
  destruct Hprune as [(Hz & Hc & Hnz & -> & Hs) | [(_ & _ & _ & -> & _) |
                      (_ & _ & -> & _)]]; [|by destruct Hsame..].
  pose proof (Z.mod_pos_bound (next_layer_to_prune st + 1) (Z.of_nat (length layers))
                ltac:(lia)) as Hb.
  apply prune_scheduled_Ok in Hs as (l0 & l2 & lg & _ & _ & -> & _); [|lia].
  split; [done|].
  destruct (decide (Z.to_nat ((next_layer_to_prune st + 1)
                                mod Z.of_nat (length layers)) = k)) as [<- | Hk]; [lia|].
  destruct Hsame. by rewrite list_lookup_insert_ne.
Qed.

(** Without a layer to prune, or with a period of 0, [process_batch]
    divides by zero: when the training step itself goes through, a batch
    raises [ZeroDivisionError] if [prune_every] is 0, and also if there
    is no prunable layer (no configuration entry with a known name) and
    the batch is one of a prune event. *)
Theorem process_batch_divides_by_zero (st : PruningGradientDescent R) (batch : Batch)
    (u : unit) (out : list (matrix R) * gmap string (ndarray R))
    (layers : list (PrunableLayer R)) :
  validate_source_names batch = Ok u ->
  train_function batch (params_dict st) = Ok out ->
  register_each out.1 (prunable_layers st) = Ok layers ->
  prune_every st = 0 \/
  (prunable_layers st = [] /\ (n_batches st + 1) mod prune_every st = 0 /\
   0 <= next_layer_to_prune st + 1) ->
  process_batch Batch validate_source_names train_function st batch = Raise ZeroDivisionError.
Proof.
  intros Hv Ht Hr Hcase. unfold process_batch. rewrite Hv. cbn [mbind result_bind].
  rewrite Ht. cbn [mbind result_bind]. rewrite Hr. cbn [mbind result_bind].
  assert (Hzero : forall n, py_mod n 0 = Raise ZeroDivisionError) by done.
  destruct Hcase as [Hz | (Hnil & Hmod & Hc)].
  - by rewrite Hz, Hzero.
  - destruct (decide (prune_every st = 0)) as [Hz | Hnz]; [by rewrite Hz, Hzero|].
    assert (Hm : py_mod (n_batches st + 1) (prune_every st) = Ok 0).
    { apply py_mod_Ok. done. }
    rewrite Hm. cbn [mbind result_bind Z.eqb].
    assert (Hge : (next_layer_to_prune st + 1 >=? 0) = true) by (apply Z.geb_le; lia).
    rewrite Hge.
    assert (layers = []) as ->.
    { rewrite Hnil in Hr. destruct out.1; by injection Hr as <-. }
    cbn [length Z.of_nat]. by rewrite Hzero.
Qed.

End Schedule.

Section DefaultReset.
Context {R : Type} `{Scalar R}.
Variable py_int : string -> result Z.
Variable py_float : string -> result R.
Variable Batch : Type.
Variable validate_source_names : Batch -> result unit.
Variable train_function :
  Batch -> gmap string (ndarray R) ->
  result (list (matrix R) * gmap string (ndarray R)).

(** With the reset period of the prune period and the two cursors
    together, a batch keeps them together, and the layer that a prune
    event has under its cursor is reset in the same batch. *)
Lemma process_batch_default (st st' : PruningGradientDescent R) (batch : Batch) :
  process_batch Batch validate_source_names train_function st batch = Ok st' ->
  prune_reset_every st = prune_every st ->
  next_layer_to_reset st = next_layer_to_prune st ->
  prune_reset_every st' = prune_every st' /\
  next_layer_to_reset st' = next_layer_to_prune st' /\
  ((n_batches st + 1) mod prune_every st = 0 -> 0 <= next_layer_to_prune st' ->
   exists l',
     prunable_layers st' !! Z.to_nat (next_layer_to_prune st') = Some l' /\
     dists l' = None /\ activities l' = None /\ n_obs l' = s_zero /\ obs l' = []).
Proof.
  intros Hp Hper Hcur.
  apply process_batch_Ok in Hp
    as (acts & P & layers & cp & layers1 & P1 & cr & layers2 & _ & Hreg & _ & _ &
        Hprune & Hreset & ->).
  cbn [prune_reset_every prune_every next_layer_to_reset next_layer_to_prune
       prunable_layers].
  rewrite Hper, Hcur in Hreset.
  destruct Hprune as [(Hz & Hc & Hnz & -> & Hs) | [(Hz & Hc & -> & -> & _) |
                      (Hnz & -> & -> & _)]].
  - pose proof (Z.mod_pos_bound (next_layer_to_prune st + 1) (Z.of_nat (length layers))
                  ltac:(lia)) as Hb.
    apply prune_scheduled_Ok in Hs as (l & l1 & lg & _ & _ & -> & Hlt); [|lia].
    rewrite length_insert in Hreset.
    destruct Hreset as [(_ & _ & _ & -> & Hs) | [(_ & Hc' & _) | (Hnz' & _)]];
      [|lia|done].
    apply reset_scheduled_Ok in Hs as (l0 & _ & -> & Hlt'); [|lia].
    split_and!; [done|done|]. intros _ _.
    exists (reset l0). split; [|done].
    rewrite list_lookup_insert_eq by exact Hlt'. done.
  - destruct Hreset as [(_ & Hc' & _) | [(_ & _ & -> & ->) | (Hnz' & _)]];
      [lia| |done].
    split_and!; [done|done|]. intros _ Hge. lia.
  - destruct Hreset as [(Hz' & _) | [(Hz' & _) | (_ & -> & ->)]]; [done|done|].
    split_and!; [done|done|]. intros Hz. done.
Qed.

Lemma process_batches_default (batches : list Batch) :
  forall st st' : PruningGradientDescent R,
  process_batches Batch validate_source_names train_function st batches = Ok st' ->
  prune_reset_every st = prune_every st ->
  next_layer_to_reset st = next_layer_to_prune st ->
  prune_reset_every st' = prune_every st' /\
  next_layer_to_reset st' = next_layer_to_prune st'.
Proof.
  unfold process_batches.
  induction batches as [|b bs IH]; intros st st' Hrun Hper Hcur; cbn [foldlM] in Hrun.
  - by injection Hrun as <-.
  - apply bind_Ok in Hrun as (st1 & Hb & Hrun).
    destruct (process_batch_default _ _ _ Hb Hper Hcur) as (Hper1 & Hcur1 & _).
    by apply (IH _ _ Hrun).
Qed.

(** With the default reset period ([prune_reset_every] not positive) the
    layer that a batch prunes leaves the batch with empty accumulators:
    all along a run that started with [__init__] the two cursors agree,
    and in the batch of a prune event that has a layer under its cursor,
    that layer is reset after it has been pruned and checked.  So in
    this configuration no call of [prune] finds the leftovers of an
    earlier one. *)
Theorem default_reset_follows_prune (configs lines : list string) (pe pre k : Z)
    (P : gmap string (ndarray R)) (st0 st st' : PruningGradientDescent R)
    (log : list string) (batches : list Batch) (batch : Batch) :
  PruningGradientDescent_init py_int py_float configs lines pe pre k P = Ok (st0, log) ->
  pre <= 0 ->
  process_batches Batch validate_source_names train_function st0 batches = Ok st ->
  process_batch Batch validate_source_names train_function st batch = Ok st' ->
  next_layer_to_reset st' = next_layer_to_prune st' /\
  ((n_batches st + 1) mod prune_every st = 0 -> 0 <= next_layer_to_prune st' ->
   exists l',
     prunable_layers st' !! Z.to_nat (next_layer_to_prune st') = Some l' /\
     dists l' = None /\ activities l' = None /\ n_obs l' = s_zero /\ obs l' = []).
Proof.
  intros Hinit Hpre Hrun Hb. unfold PruningGradientDescent_init in Hinit.
  apply bind_Ok in Hinit as ([layers log0] & _ & Hinit). injection Hinit as <- <-.
  apply process_batches_default in Hrun as [Hper Hcur].
  - destruct (process_batch_default _ _ _ Hb Hper Hcur) as (_ & Hcur' & Hreset).
    done.
  - cbn. by replace (0 <? pre) with false by lia.
  - done.
Qed.

End DefaultReset.

Lemma round_robin_schedule_witness :
  prune_every ex_pgd = 1 /\
  prune_reset_every ex_pgd = (if 0 <? 0 then 0 else 1) /\
  n_batches (ex_run 3) = Z.of_nat (length (replicate 3 tt)) /\
  length (prunable_layers (ex_run 3)) = length (prunable_layers ex_pgd) /\
  next_layer_to_prune (ex_run 3)
  = cursor_after (Z.of_nat (length (prunable_layers ex_pgd)))
      (Z.of_nat (length (replicate 3 tt)) / prune_every ex_pgd) /\
  next_layer_to_reset (ex_run 3)
  = cursor_after (Z.of_nat (length (prunable_layers ex_pgd)))
      (Z.of_nat (length (replicate 3 tt)) / prune_reset_every ex_pgd).
Proof.
  apply (round_robin_schedule dec_int dec_float unit ex_validate ex_train
           ["decgru:2"; "encfwdgru:2"]%string [] 1 0 1 ∅ ex_pgd (ex_run 3) []).
  - vm_compute. reflexivity.
  - lia.
  - vm_compute. reflexivity.
Defined.

Lemma process_batch_prunes_under_cursor_witness :
  (n_batches (ex_run 1) + 1) mod prune_every (ex_run 1) = 0 /\
  next_layer_to_prune (ex_run 2) = Z.of_nat 0.
Proof.
  apply (process_batch_prunes_under_cursor unit ex_validate ex_train
           (ex_run 1) (ex_run 2) tt 0 (ex_run_layer 1) (ex_run_layer 2)).
  - vm_compute. reflexivity.
  - vm_compute. reflexivity.
  - vm_compute. reflexivity.
  - vm_compute. intros Heq. inversion Heq.
Defined.

Lemma process_batch_divides_by_zero_witness :
  process_batch unit ex_validate ex_train ex_pgd_empty tt = Raise ZeroDivisionError.
Proof.
  apply (process_batch_divides_by_zero unit ex_validate ex_train ex_pgd_empty tt tt
           ([Mat 3 [[1; 2; 5]; [1; 3; 5]]%Q; Mat 3 [[1; 2; 5]; [1; 3; 5]]%Q], ∅) []).
  - reflexivity.
  - vm_compute. reflexivity.
  - vm_compute. reflexivity.
  - right. split; [vm_compute; reflexivity|]. split; [vm_compute; reflexivity|].
    vm_compute. intros Hlt. inversion Hlt.
Defined.

Lemma default_reset_follows_prune_witness :
  next_layer_to_reset (ex_run 2) = next_layer_to_prune (ex_run 2) /\
  ((n_batches (ex_run 1) + 1) mod prune_every (ex_run 1) = 0 ->
   0 <= next_layer_to_prune (ex_run 2) ->
   exists l',
     prunable_layers (ex_run 2) !! Z.to_nat (next_layer_to_prune (ex_run 2)) = Some l' /\
     dists l' = None /\ activities l' = None /\ n_obs l' = s_zero /\ obs l' = []).
Proof.
  apply (default_reset_follows_prune dec_int dec_float unit ex_validate ex_train
           ["decgru:2"; "encfwdgru:2"]%string [] 1 0 1 ∅ ex_pgd (ex_run 1) (ex_run 2)
           [] [tt] tt).
  - vm_compute. reflexivity.
  - lia.
  - vm_compute. reflexivity.
  - vm_compute. reflexivity.
Defined.

(** * The n-gram predictors *)

Lemma window_snoc_full {A : Type} (n : nat) (l : list A) (x : A) :
  (0 < n)%nat -> (n <= length (window n l))%nat ->
  drop 1 (window n l) ++ [x] = window n (l ++ [x]).
Proof.
  unfold window. intros Hn Hlen. rewrite length_drop in Hlen.
  rewrite drop_drop, length_app. cbn [length].
  replace (length l + 1 - n)%nat with (length l - n + 1)%nat by lia.
  rewrite drop_app_le by lia. done.
Qed.

Lemma window_snoc_short {A : Type} (n : nat) (l : list A) (x : A) :
  (length (window n l) < n)%nat -> window n l ++ [x] = window n (l ++ [x]).
Proof.
  unfold window. intros Hlen. rewrite length_drop in Hlen.
  rewrite length_app. cbn [length].
  replace (length l - n)%nat with 0%nat by lia.
  replace (length l + 1 - n)%nat with 0%nat by lia. done.
Qed.

Lemma window_one_snoc {A : Type} (l : list A) (x : A) :
  drop 1 (window 1 l) ++ [x] = window 1 (l ++ [x]).
Proof.
  unfold window. rewrite drop_drop, length_app. cbn [length].
  destruct l as [|y l].
  - done.
  - cbn [length]. replace (S (length l) - 1 + 1)%nat with (S (length l)) by lia.
    replace (S (length l) + 1 - 1)%nat with (S (length l)) by lia.
    rewrite drop_app_length'; [|done]. by rewrite drop_ge.
Qed.

Lemma window_length {A : Type} (n : nat) (l : list A) :
  (length (window n l) <= n)%nat.
Proof. unfold window. rewrite length_drop. lia. Qed.

Section SRILMFacts.
Context {R : Type} `{Scalar R}.
Variable howManyNgrams : Z -> Z.
Variable getNgramProb : string -> Z -> R.
Variable getIndexForWord : string -> Z.
Variable py_str : Z -> string.
Variable EOS_ID : Z.
Variable ln10 : R.

Import SRILMPredictor.

Lemma load_history_Ok (p : predictor) (h : heap) (a : nat) (v : list string) :
  history p = Some a -> h !! a = Some v -> load_history p h = Ok (a, v).
Proof. intros Ha Hv. unfold load_history. rewrite Ha. cbn. by rewrite Hv. Qed.

(** What [consume] does with the list that [self.history] names and with
    the one it names afterwards. *)
Lemma srilm_consume_Ok (p : predictor) (h : heap) (a : nat) (v : list string) (w : Z) :
  history p = Some a -> h !! a = Some v ->
  exists p' h' a',
    consume py_str p h w = Ok (p', h') /\
    history p' = Some a' /\ history_len p' = history_len p /\
    vocab_size p' = vocab_size p /\ convert_to_ln p' = convert_to_ln p /\
    h' !! a' = Some ((if Z.of_nat (length v) >=? history_len p then drop 1 v else v)
                       ++ [py_str w]) /\
    h' !! a = Some (if Z.of_nat (length v) >=? history_len p then v
                    else v ++ [py_str w]) /\
    (a' = a <-> Z.of_nat (length v) < history_len p).
Proof.
  intros Ha Hv. unfold consume. rewrite (load_history_Ok p h a v Ha Hv).
  cbn [mbind result_bind snd]. unfold heap in *.
  pose proof (lookup_lt_Some _ _ _ Hv) as Hlt.
  destruct (Z.of_nat (length v) >=? history_len p) eqn:Hfull.
  - cbn [fst snd].
    assert (Hnew : (h ++ [drop 1 v]) !! length h = Some (drop 1 v)).
    { rewrite lookup_app_r by lia. by rewrite Nat.sub_diag. }
    rewrite (load_history_Ok (set_history p (length h)) (h ++ [drop 1 v])
               (length h) (drop 1 v) eq_refl Hnew).
    cbn [mbind result_bind fst snd].
    exists (set_history p (length h)),
      (<[length h := drop 1 v ++ [py_str w]]> (h ++ [drop 1 v])), (length h).
    split_and!; [done|done|done|done|done| | |].
    + rewrite list_lookup_insert_eq; [done|]. rewrite length_app. cbn [length]. lia.
    + rewrite list_lookup_insert_ne by lia. by rewrite lookup_app_l.
    + split; [lia|]. intros Hshort. lia.
  - cbn [fst snd]. rewrite (load_history_Ok p h a v Ha Hv).
    cbn [mbind result_bind fst snd].
    exists p, (<[a := v ++ [py_str w]]> h), a.
    split_and!; [done|done|done|done|done| | |].
    + by rewrite list_lookup_insert_eq.
    + by rewrite list_lookup_insert_eq.
    + split; [|done]. intros _. lia.
Qed.

(** The history is a window over the words consumed. *)
Lemma srilm_consume_all_window (words : list Z) :
  forall (p : predictor) (h : heap) (a : nat) (full : list string),
  history p = Some a ->
  h !! a = Some (window (Z.to_nat (Z.max (history_len p) 1)) full) ->
  (0 < history_len p -> full <> []) ->
  exists p' h' a',
    consume_all py_str p h words = Ok (p', h') /\
    history p' = Some a' /\ history_len p' = history_len p /\
    vocab_size p' = vocab_size p /\ convert_to_ln p' = convert_to_ln p /\
    h' !! a' = Some (window (Z.to_nat (Z.max (history_len p) 1))
                       (full ++ (py_str <$> words))).
Proof.
  unfold consume_all.
  induction words as [|w words IH]; intros p h a full Ha Hv Hfull; cbn [foldlM].
  - exists p, h, a. rewrite app_nil_r. done.
  - cbn [fst snd].
    destruct (srilm_consume_Ok p h a _ w Ha Hv)
      as (p1 & h1 & a1 & -> & Ha1 & Hl1 & Hvs1 & Hc1 & Hv1 & _).
    cbn [mbind result_bind].
    set (n := Z.to_nat (Z.max (history_len p) 1)) in *.
    assert (Hn : Z.of_nat n = Z.max (history_len p) 1) by (unfold n; lia).
    assert (Hwin : (if Z.of_nat (length (window n full)) >=? history_len p
                    then drop 1 (window n full) else window n full) ++ [py_str w]
                   = window n (full ++ [py_str w])).
    { destruct (Z.of_nat (length (window n full)) >=? history_len p) eqn:Hge.
      - destruct (decide (0 < history_len p)) as [Hpos | Hneg].
        + apply window_snoc_full; lia.
        + replace n with 1%nat by lia. apply window_one_snoc.
      - apply window_snoc_short. lia. }
    rewrite Hwin in Hv1.
    destruct (IH p1 h1 a1 (full ++ [py_str w])) as (p' & h' & a' & Hrun & Ha' & Hl' & Hvs' & Hc' & Hv').
    + done.
    + by rewrite Hl1.
    + intros _. by destruct full.
    + exists p', h', a'. rewrite <- app_assoc in Hv'. cbn [app] in Hv'.
      rewrite Hl1 in Hv'. split_and!; try done; congruence.
Qed.

(** The history of the SRILM predictor is a window over the sentence.
    After [initialize] and any words [consume]d, the history holds the
    last [history_len] items of the start symbol followed by the words
    (as strings); for a unigram model ([history_len] 0 or less) there is
    no start symbol, and the history still holds the last word.  So
    [predict_next] and [get_unk_probability] ask the language model for
    an n-gram of the order [min(history_len, number of words + 1) + 1],
    which for a unigram model is 2 once a word has been consumed; and
    with [convert_to_ln] the scores of [predict_next] are scaled by
    [log(10)] while that of [get_unk_probability] is not. *)
Theorem srilm_history_window (p : predictor) (h : heap) (words scored : list Z) :
  let start := if 0 <? history_len p then ["<s>"%string] else [] in
  let hist := window (Z.to_nat (Z.max (history_len p) 1))
                (start ++ (py_str <$> words)) in
  exists p' h' a,
    consume_all py_str (initialize p h).1 (initialize p h).2 words = Ok (p', h') /\
    history p' = Some a /\ h' !! a = Some hist /\
    Z.of_nat (length hist) <= Z.max (history_len p) 1 /\
    predict_next getNgramProb py_str EOS_ID ln10 p' h' scored
    = Ok (list_to_map
            ((fun w => (w, s_mul (getNgramProb
                                    ((py_join " " hist ++ " ") ++ word_str py_str EOS_ID w)%string
                                    (Z.of_nat (length hist) + 1))
                                 (if convert_to_ln p then ln10 else s_of_Z 1)))
               <$> scored)) /\
    get_unk_probability getNgramProb p' h'
    = Ok (getNgramProb (py_join " " hist ++ " <unk>")%string
            (Z.of_nat (length hist) + 1)).
Proof.
  cbv zeta. unfold initialize. cbn [fst snd]. unfold heap in *.
  destruct (srilm_consume_all_window words (set_history p (length h))
              (h ++ [if 0 <? history_len p then ["<s>"%string] else []]) (length h)
              (if 0 <? history_len p then ["<s>"%string] else []))
    as (p' & h' & a & Hrun & Ha & Hl & _ & Hc & Hv).
  - done.
  - unfold heap. rewrite lookup_app_r by lia. rewrite Nat.sub_diag.
    cbn [lookup list_lookup].
    f_equal. cbn [history_len set_history]. unfold window.
    destruct (0 <? history_len p) eqn:Hpos; cbn [length]; [|done].
    replace (1 - Z.to_nat (Z.max (history_len p) 1))%nat with 0%nat by lia. done.
  - cbn [history_len set_history]. intros Hpos.
    replace (0 <? history_len p) with true by lia. done.
  - cbn [history_len set_history convert_to_ln] in *.
    exists p', h', a. split_and!; try done.
    + pose proof (window_length (Z.to_nat (Z.max (history_len p) 1))
                    ((if 0 <? history_len p then ["<s>"%string] else [])
                       ++ (py_str <$> words))). lia.
    + unfold predict_next. rewrite (load_history_Ok p' h' a _ Ha Hv).
      cbn [mbind result_bind fst snd]. by rewrite Hc.
    + unfold get_unk_probability. by rewrite (load_history_Ok p' h' a _ Ha Hv).
Qed.

(** [get_state] hands out the list that [consume] goes on to change.
    While the history is shorter than [history_len], the state that was
    returned before a call of [consume] holds the consumed word after
    it: it is the very list of the predictor.  Once the history is
    full, [consume] carries on with a new list and the state returned
    before stays as it was. *)
Theorem srilm_get_state_aliased (p p' : predictor) (h h' : heap) (state : nat)
    (v : list string) (w : Z) :
  get_state p = Ok state -> h !! state = Some v ->
  consume py_str p h w = Ok (p', h') ->
  exists state',
    get_state p' = Ok state' /\
    h' !! state' = Some ((if Z.of_nat (length v) >=? history_len p then drop 1 v else v)
                           ++ [py_str w]) /\
    h' !! state = Some (if Z.of_nat (length v) >=? history_len p then v
                        else v ++ [py_str w]) /\
    (state' = state <-> Z.of_nat (length v) < history_len p).
Proof.
  unfold get_state. intros Hs%or_raise_Ok Hv Hc.
  destruct (srilm_consume_Ok p h state v w Hs Hv)
    as (p1 & h1 & a1 & Hc1 & Ha1 & _ & _ & _ & Hv1 & Hvs & Hiff).
  rewrite Hc in Hc1. injection Hc1 as <- <-.
  exists a1. rewrite Ha1. done.
Qed.

(** [is_equal] of the SRILM predictor compares histories up to unknown
    words: two histories are equal when they are as long as each other
    and hold, position by position, either the same word of the
    vocabulary or two unknown words (words whose index is beyond
    [vocab_size], or the word [<unk>] itself). *)
Theorem srilm_is_equal_unks (p : predictor) (state1 state2 : list string) :
  let unknown w := vocab_size p < getIndexForWord w \/ w = "<unk>"%string in
  is_equal getIndexForWord p state1 state2 = true <->
  Forall2 (fun w1 w2 => (unknown w1 /\ unknown w2) \/
                        (~ unknown w1 /\ w1 = w2)) state1 state2.
Proof.
  cbv zeta. unfold is_equal. rewrite bool_decide_eq_true. unfold _replace_unks.
  revert state2. induction state1 as [|w1 s1 IH]; intros [|w2 s2]; cbn [fmap list_fmap].
  - split; [constructor|done].
  - split; [done|]. intros Hf. inversion Hf.
  - split; [done|]. intros Hf. inversion Hf.
  - split.
    + intros [= Hw Hs]. constructor; [|by apply IH].
      destruct (Z.ltb_spec (vocab_size p) (getIndexForWord w1)) as [H1|H1],
               (Z.ltb_spec (vocab_size p) (getIndexForWord w2)) as [H2|H2].
      * left. split; by left.
      * left. split; [by left|by right].
      * left. split; [by right|by left].
      * destruct (decide (w1 = "<unk>"%string)) as [E1|E1].
        -- left. split; right; congruence.
        -- right. split; [|done]. intros [?|?]; [lia|done].
    + intros Hf. apply Forall2_cons in Hf as [Hw Hs]. f_equal; [|by apply IH].
      destruct (Z.ltb_spec (vocab_size p) (getIndexForWord w1)) as [H1|H1],
               (Z.ltb_spec (vocab_size p) (getIndexForWord w2)) as [H2|H2]; try done.
      * destruct Hw as [[_ [?|?]] | [Hn _]]; [lia|done|]. destruct Hn. by left.
      * destruct Hw as [[[?|?] _] | [_ ?]]; [lia|done|]. subst. lia.
      * destruct Hw as [[[?|?] [?|?]] | [_ ?]]; try lia; congruence.
Qed.

End SRILMFacts.

Lemma srilm_get_state_aliased_witness :
  exists state',
    SRILMPredictor.get_state ex_srilm_consumed.1 = Ok state' /\
    ex_srilm_consumed.2 !! state'
    = Some ((if Z.of_nat (length ["<s>"%string]) >=? SRILMPredictor.history_len ex_srilm.1
             then drop 1 ["<s>"%string] else ["<s>"%string]) ++ ["7"%string]) /\
    ex_srilm_consumed.2 !! 0%nat
    = Some (if Z.of_nat (length ["<s>"%string]) >=? SRILMPredictor.history_len ex_srilm.1
            then ["<s>"%string] else ["<s>"%string] ++ ["7"%string]) /\
    (state' = 0%nat
     <-> Z.of_nat (length ["<s>"%string]) < SRILMPredictor.history_len ex_srilm.1).
Proof.
  apply (srilm_get_state_aliased (fun _ => "7"%string) ex_srilm.1 ex_srilm_consumed.1
           ex_srilm.2 ex_srilm_consumed.2 0 ["<s>"%string] 7).
  - vm_compute. reflexivity.
  - vm_compute. reflexivity.
  - vm_compute. reflexivity.
Defined.

Section KenLMFacts.
Context {R : Type}.
Variable State : Type.
Variable null_state : State.
Variable begin_state : State.
Variable BaseScore : State -> string -> R * State.
Variable py_str : Z -> string.
Variable EOS_ID : Z.

Import KenLMPredictor.

Lemma kenlm_score_Ok (p : predictor) (h : heap State) (a : nat) (s : State)
    (word : string) :
  lm_state p = Some a -> h !! a = Some s ->
  score State BaseScore p h word
  = Ok ((BaseScore s word).1, <[lm_state2 p := (BaseScore s word).2]> h).
Proof. intros Ha Hs. unfold score. rewrite Ha. cbn. by rewrite Hs. Qed.

(** [predict_next] of the KenLM predictor scores every word from the
    state of the predictor: while [lm_state] and [lm_state2] are two
    objects, the call returns, the result holds for each word asked the
    score that [BaseScore] gives it from the current state (the end of
    sentence as [</s>]), and nothing but the scratch state [lm_state2]
    has changed. *)
Theorem kenlm_predict_next_scores (p : predictor) (h : heap State) (a : nat)
    (s : State) (words : list Z) :
  lm_state p = Some a -> h !! a = Some s -> a <> lm_state2 p ->
  exists m h',
    predict_next State BaseScore py_str EOS_ID p h words = Ok (m, h') /\
    (forall w, w ∈ words -> m !! w = Some (BaseScore s (word_str py_str EOS_ID w)).1) /\
    (forall w, w ∉ words -> m !! w = None) /\
    length h' = length h /\
    (forall k, k <> lm_state2 p -> h' !! k = h !! k).
Proof.
  intros Ha Hs Hne. unfold predict_next.
  assert (Hgen : forall (m0 : gmap Z R) (h0 : heap State),
            h0 !! a = Some s ->
            exists m h',
              foldlM (fun acc w =>
                        r ← score State BaseScore p acc.2 (word_str py_str EOS_ID w);
                        Ok (<[w := r.1]> acc.1, r.2)) (m0, h0) words = Ok (m, h') /\
              (forall w, w ∈ words ->
                 m !! w = Some (BaseScore s (word_str py_str EOS_ID w)).1) /\
              (forall w, w ∉ words -> m !! w = m0 !! w) /\
              length h' = length h0 /\
              (forall k, k <> lm_state2 p -> h' !! k = h0 !! k)).
  { clear h Hs. induction words as [|w ws IH]; intros m0 h0 Hs0; cbn [foldlM].
    - exists m0, h0. split_and!; try done; intros w Hw; by apply elem_of_nil in Hw.
    - cbn [fst snd]. rewrite (kenlm_score_Ok p h0 a s _ Ha Hs0).
      cbn [mbind result_bind fst snd].
      destruct (IH (<[w := (BaseScore s (word_str py_str EOS_ID w)).1]> m0)
                  (<[lm_state2 p := (BaseScore s (word_str py_str EOS_ID w)).2]> h0))
        as (m & h' & -> & Hin & Hout & Hlen & Hframe).
      { unfold heap in *. by rewrite list_lookup_insert_ne. }
      exists m, h'. unfold heap in *. split_and!.
      + done.
      + intros w' Hw'. destruct (decide (w' ∈ ws)) as [Hws | Hws]; [by apply Hin|].
        apply elem_of_cons in Hw' as [-> | Hw']; [|done].
        rewrite (Hout w Hws). by rewrite lookup_insert_eq.
      + intros w' Hw'. apply not_elem_of_cons in Hw' as [Hw Hws].
        rewrite (Hout w' Hws). by rewrite lookup_insert_ne.
      + by rewrite Hlen, length_insert.
      + intros k Hk. rewrite (Hframe k Hk). by rewrite list_lookup_insert_ne. }
  destruct (Hgen ∅ h Hs) as (m & h' & Hrun & Hin & Hout & Hlen & Hframe).
  exists m, h'. split_and!; try done.
Qed.

(** The state that [get_state] of the KenLM predictor returns is the
    scratch state of the predictor after the next [consume].  With
    [lm_state] and [lm_state2] two objects, a state saved before a call
    of [consume] still holds what it held right after it; but it is
    [lm_state2] then, the object that every scoring call writes into, so
    the second [consume] and [get_unk_probability] overwrite it; and
    restoring it with [set_state] at that point makes [lm_state] and
    [lm_state2] one and the same object. *)
Theorem kenlm_saved_state_overwritten (p p1 : predictor) (h h1 : heap State)
    (state : nat) (s0 : State) (w1 : Z) :
  get_state p = Ok state -> h !! state = Some s0 ->
  state <> lm_state2 p -> (lm_state2 p < length h)%nat ->
  consume State BaseScore py_str p h w1 = Ok (p1, h1) ->
  get_state p1 = Ok (lm_state2 p) /\ lm_state2 p1 = state /\
  h1 !! state = Some s0 /\
  h1 !! lm_state2 p = Some (BaseScore s0 (py_str w1)).2 /\
  (forall w2 p2 h2,
     consume State BaseScore py_str p1 h1 w2 = Ok (p2, h2) ->
     h2 !! state = Some (BaseScore (BaseScore s0 (py_str w1)).2 (py_str w2)).2) /\
  (forall r h2,
     get_unk_probability State BaseScore p1 h1 = Ok (r, h2) ->
     h2 !! state = Some (BaseScore (BaseScore s0 (py_str w1)).2 "<unk>").2) /\
  lm_state (set_state p1 state) = Some (lm_state2 (set_state p1 state)).
Proof.
  unfold get_state. intros Hst%or_raise_Ok Hs0 Hne Hlt Hc.
  unfold consume in Hc. rewrite (kenlm_score_Ok p h state s0 _ Hst Hs0) in Hc.
  rewrite Hst in Hc. cbn in Hc. injection Hc as <- <-.
  cbn [lm_state lm_state2 or_raise set_state]. unfold heap in *.
  assert (Hb : <[lm_state2 p := (BaseScore s0 (py_str w1)).2]> h !! lm_state2 p
               = Some (BaseScore s0 (py_str w1)).2).
  { by rewrite list_lookup_insert_eq. }
  assert (Hlt' : (state < length h)%nat) by (by eapply lookup_lt_Some).
  split_and!; [done|done| |done| | |done].
  - by rewrite list_lookup_insert_ne.
  - intros w2 p2 h2 Hc2. unfold consume in Hc2.
    rewrite (kenlm_score_Ok (mkPredictor (Some (lm_state2 p)) state) _
               (lm_state2 p) _ _ eq_refl Hb) in Hc2.
    cbn in Hc2. injection Hc2 as <- <-. unfold heap.
    rewrite list_lookup_insert_eq; [done|]. by rewrite length_insert.
  - intros r h2 Hu. unfold get_unk_probability in Hu.
    rewrite (kenlm_score_Ok (mkPredictor (Some (lm_state2 p)) state) _
               (lm_state2 p) _ _ eq_refl Hb) in Hu.
    cbn in Hu. injection Hu as <- <-. unfold heap.
    rewrite list_lookup_insert_eq; [done|]. by rewrite length_insert.
Qed.

End KenLMFacts.

Lemma kenlm_predict_next_scores_witness :
  exists m h',
    KenLMPredictor.predict_next (list string) ex_base_score (fun _ => "7"%string) 2
      ex_kenlm.1 ex_kenlm.2 [7; 2] = Ok (m, h') /\
    (forall w, w ∈ [7; 2] ->
       m !! w = Some (ex_base_score ["<s>"%string]
                        (KenLMPredictor.word_str (fun _ => "7"%string) 2 w)).1) /\
    (forall w, w ∉ [7; 2] -> m !! w = None) /\
    length h' = length ex_kenlm.2 /\
    (forall k, k <> KenLMPredictor.lm_state2 ex_kenlm.1 -> h' !! k = ex_kenlm.2 !! k).
Proof.
  apply (kenlm_predict_next_scores (list string) ex_base_score (fun _ => "7"%string) 2
           ex_kenlm.1 ex_kenlm.2 1 ["<s>"%string] [7; 2]).
  - vm_compute. reflexivity.
  - vm_compute. reflexivity.
  - vm_compute. lia.
Defined.

Lemma kenlm_saved_state_overwritten_witness :
  KenLMPredictor.get_state ex_kenlm_consumed.1
  = Ok (KenLMPredictor.lm_state2 ex_kenlm.1) /\
  KenLMPredictor.lm_state2 ex_kenlm_consumed.1 = 1%nat /\
  ex_kenlm_consumed.2 !! 1%nat = Some ["<s>"%string] /\
  ex_kenlm_consumed.2 !! KenLMPredictor.lm_state2 ex_kenlm.1
  = Some (ex_base_score ["<s>"%string] "7").2 /\
  (forall w2 p2 h2,
     KenLMPredictor.consume (list string) ex_base_score (fun _ => "7"%string)
       ex_kenlm_consumed.1 ex_kenlm_consumed.2 w2 = Ok (p2, h2) ->
     h2 !! 1%nat
     = Some (ex_base_score (ex_base_score ["<s>"%string] "7").2 "7").2) /\
  (forall r h2,
     KenLMPredictor.get_unk_probability (list string) ex_base_score
       ex_kenlm_consumed.1 ex_kenlm_consumed.2 = Ok (r, h2) ->
     h2 !! 1%nat
     = Some (ex_base_score (ex_base_score ["<s>"%string] "7").2 "<unk>").2) /\
  KenLMPredictor.lm_state (KenLMPredictor.set_state ex_kenlm_consumed.1 1)
  = Some (KenLMPredictor.lm_state2 (KenLMPredictor.set_state ex_kenlm_consumed.1 1)).
Proof.
  apply (kenlm_saved_state_overwritten (list string) ex_base_score (fun _ => "7"%string)
           ex_kenlm.1 ex_kenlm_consumed.1 ex_kenlm.2 ex_kenlm_consumed.2 1
           ["<s>"%string] 7).
  - vm_compute. reflexivity.
  - vm_compute. reflexivity.
  - vm_compute. lia.
  - vm_compute. lia.
  - vm_compute. reflexivity.
Defined.

(** * What the sanity check reports *)

Section SelectFacts.
Context {R : Type} `{Scalar R}.

Lemma mapM_result_elem {A B : Type} (f : A -> result B) (xs : list A) (ys : list B)
    (x : A) (y : B) :
  mapM_result f xs = Ok ys -> x ∈ xs -> f x = Ok y -> y ∈ ys.
Proof.
  revert ys. induction xs as [|x0 xs IH]; intros ys Hm Hx Hy.
  - by apply elem_of_nil in Hx.
  - cbn [mapM_result] in Hm.
    apply bind_Ok in Hm as (y0 & Hy0 & Hm). apply bind_Ok in Hm as (ys0 & Hys0 & Hm).
    injection Hm as <-. apply elem_of_cons in Hx as [-> | Hx].
    + rewrite Hy in Hy0. injection Hy0 as <-. by apply elem_of_cons; left.
    + apply elem_of_cons. right. by apply IH.
Qed.

Lemma elem_of_concat {A : Type} (x : A) (l : list A) (ls : list (list A)) :
  x ∈ l -> l ∈ ls -> x ∈ concat ls.
Proof.
  intros Hx. induction ls as [|l0 ls IH]; intros Hl.
  - by apply elem_of_nil in Hl.
  - cbn [concat]. apply elem_of_app. apply elem_of_cons in Hl as [<- | Hl]; [by left|].
    right. by apply IH.
Qed.

(** The entries that [sanity_check] reads for a connection include every
    entry of the slices that the subscripts name. *)
Lemma select_entries_elem (a : ndarray R) (d : Z) (idxs : list Z) (xs : list R)
    (t : Z) (len k r c : nat) (x : R) :
  select_entries a d idxs = Ok (Some xs) ->
  t ∈ idxs -> axis_len a d = Some len -> py_index len t = Ok k ->
  in_slice a d k r c = true -> arr_get a r c = Some x ->
  x ∈ xs.
Proof.
  intros Hsel Ht Hlen Hk Hin Hx. unfold select_entries in Hsel.
  destruct a as [v|m]; cbn [axis_len in_slice arr_get] in *.
  - injection Hlen as <-.
    apply fmap_Ok in Hsel as (ks & Hks & [= ->]).
    pose proof (mapM_result_elem _ _ _ _ _ Hks Ht Hk) as Hkin.
    apply andb_true_iff in Hin as [Hr%Nat.eqb_eq Hc%Nat.eqb_eq]. subst r c.
    cbn [Nat.eqb] in Hx. apply list_elem_of_fmap. exists k. by rewrite Hx.
  - destruct (d =? 0) eqn:Hd0; [|destruct (d =? 1) eqn:Hd1; [|done]].
    + injection Hlen as <-.
      apply fmap_Ok in Hsel as (ks & Hks & [= ->]).
      pose proof (mapM_result_elem _ _ _ _ _ Hks Ht Hk) as Hkin.
      apply Nat.eqb_eq in Hin. subst r.
      destruct (m_rows m !! k) as [row|] eqn:Hrow; [|done]. cbn in Hx.
      apply (elem_of_concat x row); [by eapply list_elem_of_lookup_2|].
      apply list_elem_of_fmap. exists k. by rewrite Hrow.
    + injection Hlen as <-.
      apply fmap_Ok in Hsel as (ks & Hks & [= ->]).
      pose proof (mapM_result_elem _ _ _ _ _ Hks Ht Hk) as Hkin.
      apply Nat.eqb_eq in Hin. subst c.
      destruct (m_rows m !! r) as [row|] eqn:Hrow; [|done]. cbn in Hx.
      apply (elem_of_concat x ((fun k0 => default s_zero (row !! k0)) <$> ks)).
      * apply list_elem_of_fmap. exists k. by rewrite Hx.
      * apply list_elem_of_fmap. exists row. split; [done|].
        by eapply list_elem_of_lookup_2.
Qed.

End SelectFacts.

Local Open Scope Q_scope.

Lemma np_maximum_Q (a b : Q) : a <= np_maximum a b /\ b <= np_maximum a b.
Proof.
  unfold np_maximum. cbn [s_is_nan s_ltb Q_scalar].
  destruct (Qle_bool b a) eqn:Hle; cbn [negb].
  - apply Qle_bool_iff in Hle. split; [apply Qle_refl|done].
  - split; [|apply Qle_refl]. apply Qlt_le_weak, Qnot_le_lt.
    intros Hba%Qle_bool_iff. congruence.
Qed.

Lemma py_max_Q (a b : Q) : a <= py_max a b /\ b <= py_max a b.
Proof.
  unfold py_max. cbn [s_ltb Q_scalar].
  destruct (Qle_bool b a) eqn:Hle; cbn [negb].
  - apply Qle_bool_iff in Hle. split; [apply Qle_refl|done].
  - split; [|apply Qle_refl]. apply Qlt_le_weak, Qnot_le_lt.
    intros Hba%Qle_bool_iff. congruence.
Qed.

Lemma fold_np_maximum_Q (xs : list Q) (x0 : Q) :
  x0 <= fold_left np_maximum xs x0 /\
  forall y, y ∈ xs -> y <= fold_left np_maximum xs x0.
Proof.
  revert x0. induction xs as [|x xs IH]; intros x0; cbn [fold_left].
  - split; [apply Qle_refl|]. intros y Hy. by apply elem_of_nil in Hy.
  - destruct (IH (np_maximum x0 x)) as [H0 Hall].
    destruct (np_maximum_Q x0 x) as [Hx0 Hx]. split.
    + eapply Qle_trans; [exact Hx0|exact H0].
    + intros y [-> | Hy]%elem_of_cons; [|by apply Hall].
      eapply Qle_trans; [exact Hx|exact H0].
Qed.

Lemma np_max_Q (xs : list Q) (g : Q) :
  np_max xs = Ok g -> forall y, y ∈ xs -> y <= g.
Proof.
  destruct xs as [|x xs]; [done|]. cbn [np_max]. intros [= <-] y Hy.
  destruct (fold_np_maximum_Q xs x) as [H0 Hall].
  apply elem_of_cons in Hy as [-> | Hy]; [done|by apply Hall].
Qed.

(** The loop of [sanity_check]: [geps] never goes down, and it bounds
    the entries read for the connections gone through. *)
Lemma sanity_check_fold_Q (pruned : list nat) (P : gmap string (ndarray Q))
    (conns : list (Connection Q)) :
  forall st st' : option Q * Q,
  foldlM (sanity_check_conn pruned P) st conns = Ok st' ->
  st.2 <= st'.2 /\
  forall conn a off len j k r c x,
    conn ∈ conns -> P !! mat_name conn = Some a -> conn_offset conn a = Ok off ->
    axis_len a (dim conn) = Some len -> j ∈ pruned ->
    py_index len (Z.of_nat j + off) = Ok k ->
    in_slice a (dim conn) k r c = true -> arr_get a r c = Some x ->
    Qabs x <= st'.2.
Proof.
  induction conns as [|conn0 conns IH]; intros st st' Hf; cbn [foldlM] in Hf.
  - injection Hf as <-. split; [apply Qle_refl|].
    intros conn a off len j k r c x Hc. by apply elem_of_nil in Hc.
  - apply bind_Ok in Hf as (st1 & Hconn & Hf).
    destruct (IH _ _ Hf) as [Hmono Hbound].
    unfold sanity_check_conn in Hconn.
    apply bind_Ok in Hconn as (a0 & Ha0%or_raise_Ok & Hconn).
    apply bind_Ok in Hconn as (off0 & Hoff0 & Hconn).
    apply bind_Ok in Hconn as (sel & Hsel & Hconn).
    apply bind_Ok in Hconn as (eps & Heps & Hconn).
    apply bind_Ok in Hconn as (e & He%or_raise_Ok & Hconn).
    injection Hconn as <-. cbn [snd] in *.
    destruct (py_max_Q e st.2) as [He1 He2]. split.
    + eapply Qle_trans; [exact He2|exact Hmono].
    + intros conn a off len j k r c x [-> | Hc]%elem_of_cons Ha Hoff Hlen Hj Hk Hin Hx.
      * rewrite Ha0 in Ha. injection Ha as <-. rewrite Hoff0 in Hoff. injection Hoff as <-.
        destruct sel as [xs|].
        -- apply bind_Ok in Heps as (e' & He' & Heps). injection Heps as <-.
           injection He as <-.
           assert (Hxin : x ∈ xs).
           { eapply (select_entries_elem a0 (dim conn0) _ xs (Z.of_nat j + off0));
               try done.
             apply list_elem_of_fmap. by exists j. }
           assert (Habs : Qabs x ∈ s_abs <$> xs).
           { apply list_elem_of_fmap. by exists x. }
           eapply Qle_trans; [exact (np_max_Q _ _ He' _ Habs)|].
           eapply Qle_trans; [exact He1|exact Hmono].
        -- exfalso. unfold select_entries in Hsel.
           destruct a0 as [v|m]; cbn [axis_len] in Hlen.
           ++ by apply fmap_Ok in Hsel as (ks & _ & ?).
           ++ destruct (dim conn0 =? 0); [by apply fmap_Ok in Hsel as (ks & _ & ?)|].
              destruct (dim conn0 =? 1); [by apply fmap_Ok in Hsel as (ks & _ & ?)|done].
      * by eapply Hbound.
Qed.

(** In exact arithmetic the value that [sanity_check] reports bounds the
    pruned weights: it is not negative, and for every connection of the
    layer (with a vector, or with a matrix along axis 0 or 1) no entry of
    the slice of a pruned neuron is greater than it in absolute value. *)
Theorem sanity_check_bounds (l : PrunableLayer Q) (P : gmap string (ndarray Q))
    (geps : Q) :
  sanity_check l P = Ok geps ->
  0 <= geps /\
  forall conn a off len j k r c x,
    conn ∈ connections l -> P !! mat_name conn = Some a ->
    conn_offset conn a = Ok off -> axis_len a (dim conn) = Some len ->
    j ∈ pruned_neurons l -> py_index len (Z.of_nat j + off) = Ok k ->
    in_slice a (dim conn) k r c = true -> arr_get a r c = Some x ->
    Qabs x <= geps.
Proof.
  unfold sanity_check. intros Hs.
  apply bind_Ok in Hs as (st & Hf & Hs). injection Hs as <-.
  apply sanity_check_fold_Q in Hf as [Hmono Hbound]. split; [exact Hmono|exact Hbound].
Qed.

Local Close Scope Q_scope.

Lemma sanity_check_bounds_witness :
  (0 <= 1)%Q /\
  forall conn a off len j k r c x,
    conn ∈ connections ex_maxout_pruned.1.1 ->
    ex_maxout_pruned.1.2 !! mat_name conn = Some a ->
    conn_offset conn a = Ok off -> axis_len a (dim conn) = Some len ->
    j ∈ pruned_neurons ex_maxout_pruned.1.1 ->
    py_index len (Z.of_nat j + off) = Ok k ->
    in_slice a (dim conn) k r c = true -> arr_get a r c = Some x ->
    (Qabs x <= 1)%Q.
Proof.
  apply (sanity_check_bounds ex_maxout_pruned.1.1 ex_maxout_pruned.1.2 1%Q).
  vm_compute. reflexivity.
Defined.

(** * [add_in_mat] *)

Local Open Scope Q_scope.

Lemma qsum_insert (l : list Q) (i : nat) (y : Q) :
  (i < length l)%nat -> qsum (<[i := y]> l) == qsum l - default 0 (l !! i) + y.
Proof.
  revert i. induction l as [|x l IH]; intros i Hi; cbn [length] in Hi; [lia|].
  destruct i as [|i].
  - cbn [insert list_insert lookup list_lookup default from_option id].
    rewrite !qsum_cons. ring.
  - change (<[S i := y]> (x :: l)) with (x :: <[i := y]> l).
    change ((x :: l) !! S i) with (l !! i).
    rewrite !qsum_cons, IH by lia. ring.
Qed.

(** Moving an entry of a list onto another one keeps the sum. *)
Lemma qsum_move (l : list Q) (f t : nat) :
  (f < length l)%nat -> (t < length l)%nat -> f <> t ->
  qsum (<[f := 0]> (<[t := default 0 (l !! t) + default 0 (l !! f)]> l)) == qsum l.
Proof.
  intros Hf Ht Hne.
  rewrite qsum_insert by (by rewrite length_insert).
  rewrite list_lookup_insert_ne by done.
  rewrite qsum_insert by done. ring.
Qed.

(** [add_in_mat] of a slice onto another one, followed by
    [set_zero_in_mat] of the slice added, moves weight and loses none, in
    exact arithmetic: [np.sum(mat, axis=dim)] is what it was.  (It is
    what the line that is commented out in [_compensate_for_pruning_sum]
    and the one after it make of an outbound connection: the weights of
    the deleted neuron go to the survivor.) *)
Theorem add_then_zero_keeps_sums (a a1 a2 : ndarray Q) (d f_idx t_idx : Z)
    (len f t : nat) :
  (match a with Arr1 _ => True | Arr2 m => mat_wf m end) ->
  axis_len a d = Some len ->
  py_index len f_idx = Ok f -> py_index len t_idx = Ok t -> f <> t ->
  add_in_mat a d f_idx t_idx = Ok a1 ->
  set_zero_in_mat a1 d f_idx = Ok a2 ->
  shape a2 = shape a /\
  length (axis_sums a2 d) = length (axis_sums a d) /\
  forall i x x2, axis_sums a d !! i = Some x -> axis_sums a2 d !! i = Some x2 -> x2 == x.
Proof.
  intros Hwf Hlen Hf Ht Hne Hadd Hzero.
  pose proof (py_index_Ok _ _ _ Hf) as [Hflt _].
  pose proof (py_index_Ok _ _ _ Ht) as [Htlt _].
  destruct a as [v|m]; cbn [axis_len] in Hlen.
  - injection Hlen as <-. cbn [add_in_mat] in Hadd. rewrite Ht, Hf in Hadd.
    cbn in Hadd. injection Hadd as <-.
    cbn [set_zero_in_mat] in Hzero. rewrite length_insert, Hf in Hzero.
    cbn in Hzero. injection Hzero as <-.
    cbn [shape axis_sums]. rewrite !length_insert. split_and!; [done|done|].
    intros [|i] x x2 Hx Hx2; [|done]. cbn in Hx, Hx2.
    injection Hx as <-. injection Hx2 as <-.
    change (@s_zero Q Q_scalar) with 0. change (@s_add Q Q_scalar) with Qplus.
    by apply qsum_move.
  - cbn [add_in_mat set_zero_in_mat axis_sums] in *.
    destruct (d =? 0) eqn:Hd0; [|destruct (d =? 1) eqn:Hd1; [|done]].
    + injection Hlen as <-.
      apply fmap_Ok in Hadd as (m1 & Hadd & ->). unfold mat_add_row in Hadd.
      rewrite Ht, Hf in Hadd. cbn in Hadd. injection Hadd as <-.
      cbn [set_zero_in_mat] in Hzero. rewrite Hd0 in Hzero.
      apply fmap_Ok in Hzero as (m2 & Hzero & ->). unfold mat_set_row in Hzero.
      unfold m_nrows in Hzero. cbn [m_rows m_cols] in Hzero.
      rewrite length_alter in Hzero. fold (m_nrows m) in Hzero. rewrite Hf in Hzero.
      cbn in Hzero. injection Hzero as <-.
      cbn [shape axis_sums m_cols m_rows]. rewrite Hd0.
      unfold m_nrows. cbn [m_rows].
      rewrite !length_alter, !length_fmap. split_and!; [done|done|].
      intros c x x2 Hx Hx2. rewrite list_lookup_fmap in Hx, Hx2.
      destruct (seq 0 (m_cols m) !! c) as [c'|] eqn:Hc; [|done].
      apply lookup_seq in Hc as [-> Hclt]. cbn in Hx, Hx2.
      injection Hx as <-. injection Hx2 as <-.
      set (col := (fun row : list Q => default 0 (row !! c)) <$> m_rows m).
      assert (Hcol : (fun row : list Q => default 0 (row !! c))
                       <$> alter (fun r : list Q => (fun _ => 0) <$> r) f
                             (alter (fun row => zip_with Qplus row
                                        (default [] (m_rows m !! f))) t (m_rows m))
                     = <[f := 0]> (<[t := default 0 (col !! t) + default 0 (col !! f)]> col)).
      { unfold m_nrows in Hflt, Htlt.
        destruct (lookup_lt_is_Some_2 (m_rows m) f Hflt) as [rf Hrf].
        destruct (lookup_lt_is_Some_2 (m_rows m) t Htlt) as [rt Hrt].
        assert (Hlf : length rf = m_cols m) by (by apply (Forall_lookup_1 _ _ _ _ Hwf Hrf)).
        assert (Hlt : length rt = m_cols m) by (by apply (Forall_lookup_1 _ _ _ _ Hwf Hrt)).
        apply list_eq. intros i. rewrite list_lookup_fmap.
        unfold col. rewrite !list_lookup_fmap, Hrf, Hrt. cbn [fmap option_fmap option_map default].
        destruct (decide (i = f)) as [-> | Hif].
        - rewrite list_lookup_alter_eq, list_lookup_alter_ne by done. rewrite Hrf.
          rewrite list_lookup_insert_eq by (rewrite length_insert, length_fmap; done).
          cbn [fmap option_fmap option_map]. rewrite list_lookup_fmap.
          destruct (lookup_lt_is_Some_2 rf c) as [y ->]; [lia|]. done.
        - rewrite list_lookup_alter_ne by done. rewrite list_lookup_insert_ne by done.
          destruct (decide (i = t)) as [-> | Hit].
          + rewrite list_lookup_alter_eq, Hrt.
            rewrite list_lookup_insert_eq by (rewrite length_fmap; done).
            cbn [fmap option_fmap option_map default]. rewrite lookup_zip_with.
            unfold id.
            destruct (lookup_lt_is_Some_2 rt c) as [yt ->]; [lia|].
            destruct (lookup_lt_is_Some_2 rf c) as [yf ->]; [lia|]. done.
          + rewrite list_lookup_alter_ne by done. rewrite list_lookup_insert_ne by done.
            by rewrite list_lookup_fmap. }
      rewrite Hcol.
      apply qsum_move; [unfold col; by rewrite length_fmap..|done].
    + injection Hlen as <-.
      apply fmap_Ok in Hadd as (m1 & Hadd & ->). unfold mat_add_col in Hadd.
      rewrite Ht, Hf in Hadd. cbn in Hadd. injection Hadd as <-.
      cbn [set_zero_in_mat] in Hzero. rewrite Hd0, Hd1 in Hzero.
      apply fmap_Ok in Hzero as (m2 & Hzero & ->). unfold mat_set_col in Hzero.
      cbn [m_rows m_cols] in Hzero. rewrite Hf in Hzero.
      cbn in Hzero. injection Hzero as <-.
      cbn [shape axis_sums m_cols m_rows]. rewrite Hd0, Hd1.
      unfold m_nrows. cbn [m_rows].
      rewrite !length_fmap. split_and!; [done|done|].
      intros r x x2 Hx Hx2. rewrite list_lookup_fmap in Hx.
      rewrite list_lookup_fmap in Hx2. rewrite list_lookup_fmap in Hx2.
      rewrite list_lookup_fmap in Hx2.
      destruct (m_rows m !! r) as [row|] eqn:Hrow; [|done]. cbn in Hx, Hx2.
      injection Hx as <-. injection Hx2 as <-.
      assert (Hl : length row = m_cols m) by (by apply (Forall_lookup_1 _ _ _ _ Hwf Hrow)).
      change (@s_zero Q Q_scalar) with 0. change (@s_add Q Q_scalar) with Qplus.
      apply qsum_move; lia.
Qed.

Local Close Scope Q_scope.

Lemma add_then_zero_keeps_sums_witness :
  shape ex_add_mat2 = shape ex_add_mat /\
  length (axis_sums ex_add_mat2 0) = length (axis_sums ex_add_mat 0) /\
  forall i x x2,
    axis_sums ex_add_mat 0 !! i = Some x -> axis_sums ex_add_mat2 0 !! i = Some x2 ->
    (x2 == x)%Q.
Proof.
  apply (add_then_zero_keeps_sums ex_add_mat ex_add_mat1 ex_add_mat2 0 2 0 3 2 0).
  - repeat first [apply List.Forall_nil | apply List.Forall_cons; [reflexivity|]].
  - reflexivity.
  - reflexivity.
  - reflexivity.
  - lia.
  - vm_compute. reflexivity.
  - vm_compute. reflexivity.
Defined.
